(** * Housie ticket generation and validation

    A shallow embedding of the ticket core of the Housie application:
    - [generateHousieTicket], [shuffleArray], [validateTicket] and
      [convertFlatToGrid] of [src/utils/ticketGenerator.ts];
    - [validateExistingTicket] of [src/utils/fixExistingTickets.ts];
    - [validateTicketFormat] and the grid construction of [analyzeTicket]
      of the [AdminGameTickets] component.

    Arrays are lists, read with [nth] and written with [assign].  Counters
    and ticket numbers of the generator are integers ([Z]); the values a
    validator receives are arbitrary JavaScript values ([JSValue]).
    [Math.random] is an explicit source of draws that is threaded through
    the generator, [while] loops take fuel, and a [throw] is a result. *)

From Stdlib Require Import String Ascii DecimalString.
From Stdlib Require Import List ZArith QArith Qround Bool Lia Permutation.
From Stdlib Require Import PeanoNat FinFun.
Import ListNotations.

Close Scope Q_scope.
Local Open Scope string_scope.
Local Open Scope list_scope.
Local Open Scope nat_scope.

(** ** Arrays *)

(** [array[i] = v] for an index inside the array.  Every write of the
    embedded code is inside the array (columns below 9, rows below 3), so
    the growth JavaScript performs on an index past the end never occurs;
    [assign] leaves the list alone there. *)
Fixpoint assign {A : Type} (l : list A) (i : nat) (v : A) : list A :=
  match l, i with
  | [], _ => []
  | _ :: t, O => v :: t
  | x :: t, S j => x :: assign t j v
  end.

(** [grid[row][col]] and [grid[row][col] = v]. *)
Definition cell {A : Type} (empty : A) (grid : list (list A)) (row col : nat) : A :=
  nth col (nth row grid []) empty.

Definition setCell {A : Type} (grid : list (list A)) (row col : nat) (v : A)
  : list (list A) :=
  assign grid row (assign (nth row grid []) col v).

(** The template literal of a count, an index or an integer. *)
Definition showNat (n : nat) : string := NilZero.string_of_uint (Nat.to_uint n).
Definition showZ (z : Z) : string := NilZero.string_of_int (Z.to_int z).

(** ** The random source *)

(** The successive results of [Math.random()], each already scaled: the
    draw [Math.floor(Math.random() * bound)] is the next element of the
    source reduced below [bound].  Every draw below [bound] can come out,
    and nothing else; the code never draws with a [bound] of 0. *)
Definition Random : Type := nat -> nat.

Definition randomInt (bound : nat) (rnd : Random) : nat * Random :=
  (rnd 0 mod bound, fun k => rnd (S k)).

(** What running a piece of code gives: a value, a thrown [Error], or a
    loop that is still running when the fuel is spent. *)
Inductive Completion (A : Type) : Type :=
| Normal (value : A) (rnd : Random)
| Throw (message : string) (rnd : Random)
| OutOfFuel.
Arguments Normal {A} value rnd.
Arguments Throw {A} message rnd.
Arguments OutOfFuel {A}.

(** ** JavaScript values *)

(** A [number]: a finite value (every finite double is a rational, and the
    code only compares numbers with integers and with each other), the two
    infinities and [NaN]. *)
Inductive number : Type :=
| Finite (q : Q)
| PosInfinity
| NegInfinity
| NaN.

Definition ofZ (z : Z) : number := Finite (inject_Z z).

(** [a < b] and [a <= b]; [a > b] is [ltNum b a], [a >= b] is [leNum b a]. *)
Definition ltNum (a b : number) : bool :=
  match a, b with
  | Finite x, Finite y => negb (Qle_bool y x)
  | Finite _, PosInfinity => true
  | NegInfinity, Finite _ => true
  | NegInfinity, PosInfinity => true
  | _, _ => false
  end.

Definition leNum (a b : number) : bool :=
  match a, b with
  | Finite x, Finite y => Qle_bool x y
  | Finite _, PosInfinity => true
  | NegInfinity, Finite _ => true
  | NegInfinity, PosInfinity => true
  | PosInfinity, PosInfinity => true
  | NegInfinity, NegInfinity => true
  | _, _ => false
  end.

(** The equality of [Set] (SameValueZero). *)
Definition sameValueZero (a b : number) : bool :=
  match a, b with
  | Finite x, Finite y => Qeq_bool x y
  | PosInfinity, PosInfinity => true
  | NegInfinity, NegInfinity => true
  | NaN, NaN => true
  | _, _ => false
  end.

#[local] Set Warnings "-register-all".
Inductive JSValue : Type :=
| JSUndefined
| JSNull
| JSBoolean (b : bool)
| JSNumber (n : number)
| JSString (s : string)
| JSArray (elements : list JSValue)
| JSObject (properties : list (string * JSValue)).

(** ** ticketGenerator.ts *)

Module Generator.

Definition columnRanges : list (Z * Z) :=
  [(1, 9); (10, 19); (20, 29); (30, 39); (40, 49);
   (50, 59); (60, 69); (70, 79); (80, 90)]%Z.

Definition targetNumbers : Z := 15.

Record HousieTicketGrid : Type := {
  grid : list (list Z);
  flatNumbers : list Z
}.

(** The locals of [generateHousieTicket] that the selection loops update. *)
Record Selection : Type := {
  columnCounts : list Z;
  columnNumbers : list (list Z);
  totalNumbers : Z;
  columnsToUse : list nat
}.

(** [[array[i], array[j]] = [array[j], array[i]]] *)
Definition swap (array : list Z) (i j : nat) : list Z :=
  let ai := nth i array 0%Z in
  let aj := nth j array 0%Z in
  assign (assign array i aj) j ai.

(** [for (let i = array.length - 1; i > 0; i--)] *)
Fixpoint shuffleFrom (i : nat) (array : list Z) (rnd : Random) : list Z * Random :=
  match i with
  | O => (array, rnd)
  | S i' =>
      let (j, rnd') := randomInt (i + 1) rnd in
      shuffleFrom i' (swap array i j) rnd'
  end.

Definition shuffleArray (array : list Z) (rnd : Random) : list Z * Random :=
  shuffleFrom (length array - 1) array rnd.

(** [sort((a, b) => a - b)] on integers: the result is the ascending
    arrangement of the elements, whichever algorithm the engine runs. *)
Fixpoint insertNumber (x : Z) (l : list Z) : list Z :=
  match l with
  | [] => [x]
  | y :: t => if (x <=? y)%Z then x :: l else y :: insertNumber x t
  end.

Definition sortNumbers (l : list Z) : list Z := fold_right insertNumber [] l.

Definition includes (l : list Z) (n : Z) : bool := existsb (Z.eqb n) l.

(** The integers [min, min + 1, ..., max]. *)
Definition fromTo (min max : Z) : list Z :=
  map (fun k => (min + Z.of_nat k)%Z) (seq 0 (Z.to_nat (max - min + 1))).

(** [for (let n = min; n <= max; n++) if (!columnNumbers[col].includes(n)) ...] *)
Definition availableNumbers (col : nat) (chosen : list Z) : list Z :=
  let '(min, max) := nth col columnRanges (0, 0)%Z in
  filter (fun n => negb (includes chosen n)) (fromTo min max).

(** [columnsToUse.add(col)] on a [Set] kept in insertion order. *)
Definition setAdd (col : nat) (s : list nat) : list nat :=
  if existsb (Nat.eqb col) s then s else s ++ [col].

(** The body of [if (columnCounts[col] < 3)] in the first loop.  The guard
    and the loop condition make [numbersToAdd] 1 or 2, so [slice] takes
    that many elements from the front. *)
Definition addToColumn (col : nat) (st : Selection) (rnd : Random)
  : Selection * Random :=
  let count := nth col (columnCounts st) 0%Z in
  let canAdd := Z.min (3 - count) (targetNumbers - totalNumbers st) in
  let (r, rnd1) := randomInt 2 rnd in
  let numbersToAdd := Z.min canAdd (Z.of_nat r + 1) in
  let counts1 := assign (columnCounts st) col (count + numbersToAdd)%Z in
  let total1 := (totalNumbers st + numbersToAdd)%Z in
  let used1 := setAdd col (columnsToUse st) in
  let chosen := nth col (columnNumbers st) [] in
  let available := availableNumbers col chosen in
  if (numbersToAdd <=? Z.of_nat (length available))%Z then
    let (shuffled, rnd2) := shuffleArray available rnd1 in
    let selectedNumbers := sortNumbers (firstn (Z.to_nat numbersToAdd) shuffled) in
    ({| columnCounts := counts1;
        columnNumbers := assign (columnNumbers st) col (chosen ++ selectedNumbers);
        totalNumbers := total1;
        columnsToUse := used1 |}, rnd2)
  else
    let missing := (numbersToAdd - Z.of_nat (length available))%Z in
    ({| columnCounts := assign counts1 col (nth col counts1 0 - missing)%Z;
        columnNumbers :=
          assign (columnNumbers st) col (chosen ++ sortNumbers available);
        totalNumbers := (total1 - missing)%Z;
        columnsToUse := used1 |}, rnd1).

(** [for (let col = 0; col < 9 && totalNumbers < targetNumbers; col++)] *)
Fixpoint sweep (cols : list nat) (st : Selection) (rnd : Random)
  : Selection * Random :=
  match cols with
  | [] => (st, rnd)
  | col :: rest =>
      if (totalNumbers st <? targetNumbers)%Z then
        let (st', rnd') :=
          if (nth col (columnCounts st) 0 <? 3)%Z
          then addToColumn col st rnd else (st, rnd) in
        sweep rest st' rnd'
      else (st, rnd)
  end.

(** The first [while (totalNumbers < targetNumbers)], with its
    [if (columnsToUse.size === 9) break]. *)
Fixpoint selectLoop (fuel : nat) (st : Selection) (rnd : Random)
  : option (Selection * Random) :=
  if (totalNumbers st <? targetNumbers)%Z then
    match fuel with
    | O => None
    | S fuel' =>
        let (st', rnd') := sweep (seq 0 9) st rnd in
        if length (columnsToUse st') =? 9 then Some (st', rnd')
        else selectLoop fuel' st' rnd'
    end
  else Some (st, rnd).

(** The [for] of the second loop: the first column with room and an unused
    number takes one more number, and the [for] is left. *)
Fixpoint addOne (cols : list nat) (st : Selection) (rnd : Random)
  : Selection * Random :=
  match cols with
  | [] => (st, rnd)
  | col :: rest =>
      if (nth col (columnCounts st) 0 <? 3)%Z
         && (totalNumbers st <? targetNumbers)%Z then
        let chosen := nth col (columnNumbers st) [] in
        let available := availableNumbers col chosen in
        if 0 <? length available then
          let (k, rnd') := randomInt (length available) rnd in
          let randomNum := nth k available 0%Z in
          ({| columnCounts :=
                assign (columnCounts st) col (nth col (columnCounts st) 0 + 1)%Z;
              columnNumbers :=
                assign (columnNumbers st) col (sortNumbers (chosen ++ [randomNum]));
              totalNumbers := (totalNumbers st + 1)%Z;
              columnsToUse := columnsToUse st |}, rnd')
        else addOne rest st rnd
      else addOne rest st rnd
  end.

Fixpoint addLoop (fuel : nat) (st : Selection) (rnd : Random)
  : option (Selection * Random) :=
  if (totalNumbers st <? targetNumbers)%Z then
    match fuel with
    | O => None
    | S fuel' => let (st', rnd') := addOne (seq 0 9) st rnd in addLoop fuel' st' rnd'
    end
  else Some (st, rnd).

(** The [for] of the third loop: the first column that holds a number
    loses its last one. *)
Fixpoint removeOne (cols : list nat) (st : Selection) : Selection :=
  match cols with
  | [] => st
  | col :: rest =>
      if (0 <? length (nth col (columnNumbers st) []))
         && (targetNumbers <? totalNumbers st)%Z then
        {| columnCounts :=
             assign (columnCounts st) col (nth col (columnCounts st) 0 - 1)%Z;
           columnNumbers :=
             assign (columnNumbers st) col
               (removelast (nth col (columnNumbers st) []));
           totalNumbers := (totalNumbers st - 1)%Z;
           columnsToUse := columnsToUse st |}
      else removeOne rest st
  end.

Fixpoint removeLoop (fuel : nat) (st : Selection) : option Selection :=
  if (targetNumbers <? totalNumbers st)%Z then
    match fuel with
    | O => None
    | S fuel' => removeLoop fuel' (removeOne (seq 0 9) st)
    end
  else Some st.

(** [allNumbers]: every number with its column, column after column. *)
Definition collect (numbers : list (list Z)) : list (Z * nat) :=
  flat_map (fun col => map (fun num => (num, col)) (nth col numbers []))
           (seq 0 9).

(** [allNumbers.sort((a, b) => a.col - b.col)]: a stable sort on the column. *)
Fixpoint insertByCol (x : Z * nat) (l : list (Z * nat)) : list (Z * nat) :=
  match l with
  | [] => [x]
  | y :: t => if snd x <=? snd y then x :: l else y :: insertByCol x t
  end.

Definition sortByCol (l : list (Z * nat)) : list (Z * nat) :=
  fold_right insertByCol [] l.

(** The search for [bestRow]; [None] is the [-1] of the source. *)
Definition findBestRow (grid : list (list Z)) (rowCounts : list Z) (col : nat)
  : option nat :=
  fold_left
    (fun bestRow row =>
       if (nth row rowCounts 0 <? 5)%Z && (cell 0 grid row col =? 0)%Z then
         match bestRow with
         | None => Some row
         | Some best =>
             if (nth row rowCounts 0 <? nth best rowCounts 0)%Z
             then Some row else bestRow
         end
       else bestRow)
    (seq 0 3) None.

(** One turn of [for (const { num, col } of allNumbers)]. *)
Definition placeNumber (state : list (list Z) * list Z) (entry : Z * nat)
  : list (list Z) * list Z :=
  let '(grid, rowCounts) := state in
  let '(num, col) := entry in
  match findBestRow grid rowCounts col with
  | Some bestRow =>
      (setCell grid bestRow col num,
       assign rowCounts bestRow (nth bestRow rowCounts 0 + 1)%Z)
  | None => state
  end.

(** The first failing check of a loop, if any. *)
Fixpoint firstError {A : Type} (check : A -> option string) (l : list A)
  : option string :=
  match l with
  | [] => None
  | x :: rest =>
      match check x with
      | Some message => Some message
      | None => firstError check rest
      end
  end.

Definition nonEmpty (v : Z) : bool := negb (v =? 0)%Z.

(** [new Set(allNumbers)] *)
Fixpoint distinct (l : list Z) : list Z :=
  match l with
  | [] => []
  | x :: rest => if includes rest x then distinct rest else x :: distinct rest
  end.

(** [validateTicket]: [Some message] is the [Error] it throws. *)
Definition validateTicket (grid : list (list Z)) : option string :=
  match
    firstError
      (fun row =>
         let numbersInRow := length (filter nonEmpty (nth row grid [])) in
         if numbersInRow =? 5 then None
         else Some ("Invalid ticket: Row " ++ showNat row ++ " has "
                    ++ showNat numbersInRow ++ " numbers instead of 5")%string)
      (seq 0 3)
  with
  | Some message => Some message
  | None =>
  match
    firstError
      (fun col =>
         let numbersInCol :=
           length (filter (fun row => nonEmpty (nth col row 0%Z)) grid) in
         if 3 <? numbersInCol then
           Some ("Invalid ticket: Column " ++ showNat col ++ " has "
                 ++ showNat numbersInCol
                 ++ " numbers, maximum allowed is 3")%string
         else None)
      (seq 0 9)
  with
  | Some message => Some message
  | None =>
  let totalNumbers := length (filter nonEmpty (concat grid)) in
  if negb (totalNumbers =? 15) then
    Some ("Invalid ticket: Has " ++ showNat totalNumbers
          ++ " numbers instead of 15")%string
  else
  match
    firstError
      (fun col =>
         let '(min, max) := nth col columnRanges (0, 0)%Z in
         firstError
           (fun row =>
              let num := cell 0%Z grid row col in
              if nonEmpty num && ((num <? min)%Z || (max <? num)%Z) then
                Some ("Invalid ticket: Number " ++ showZ num ++ " in column "
                      ++ showNat col ++ " is outside allowed range "
                      ++ showZ min ++ "-" ++ showZ max)%string
              else None)
           (seq 0 3))
      (seq 0 9)
  with
  | Some message => Some message
  | None =>
  let allNumbers := filter nonEmpty (concat grid) in
  if negb (length allNumbers =? length (distinct allNumbers)) then
    Some "Invalid ticket: Contains duplicate numbers"
  else None
  end end end.

(** The non-zero cells, row after row. *)
Definition flatten (grid : list (list Z)) : list Z :=
  flat_map
    (fun row =>
       flat_map
         (fun col =>
            if nonEmpty (cell 0%Z grid row col) then [cell 0%Z grid row col]
            else [])
         (seq 0 9))
    (seq 0 3).

Definition emptyGrid : list (list Z) := repeat (repeat 0%Z 9) 3.

Definition initialSelection : Selection :=
  {| columnCounts := repeat 0%Z 9;
     columnNumbers := repeat [] 9;
     totalNumbers := 0;
     columnsToUse := [] |}.

(** The row placement: [allNumbers], its sort and the placement loop. *)
Definition placeAll (numbers : list (list Z)) : list (list Z) * list Z :=
  fold_left placeNumber (sortByCol (collect numbers)) (emptyGrid, [0; 0; 0]%Z).

Definition generateHousieTicket (fuel : nat) (rnd : Random)
  : Completion HousieTicketGrid :=
  match selectLoop fuel initialSelection rnd with
  | None => OutOfFuel
  | Some (st1, rnd1) =>
  match addLoop fuel st1 rnd1 with
  | None => OutOfFuel
  | Some (st2, rnd2) =>
  match removeLoop fuel st2 with
  | None => OutOfFuel
  | Some st3 =>
      let (grid, rowCounts) := placeAll (columnNumbers st3) in
      match validateTicket grid with
      | Some message => Throw message rnd2
      | None =>
          Normal {| grid := grid; flatNumbers := sortNumbers (flatten grid) |}
                 rnd2
      end
  end end end.

(** [convertFlatToGrid]: only the length of its argument is looked at. *)
Definition convertFlatToGrid (fuel : nat) (flatNumbers : list number)
  (rnd : Random) : Completion (list (list Z)) :=
  if negb (length flatNumbers =? 15) then
    Throw ("Expected 15 numbers, got " ++ showNat (length flatNumbers))%string rnd
  else
    match generateHousieTicket fuel rnd with
    | Normal properTicket rnd' => Normal (grid properTicket) rnd'
    | Throw message rnd' => Throw message rnd'
    | OutOfFuel => OutOfFuel
    end.

End Generator.

(** ** The validators *)

Module Validator.

(** Each validator declares the table of the generator again. *)
Definition columnRanges : list (Z * Z) := Generator.columnRanges.

(** [n > 0] *)
Definition positive (n : number) : bool := ltNum (ofZ 0) n.

(** [for (let col = 0; col < columnRanges.length; col++)
       if (num >= min && num <= max) { ...; break; }]:
    the column whose range holds [num], if there is one. *)
Fixpoint findColumn (ranges : list (Z * Z)) (col : nat) (num : number)
  : option nat :=
  match ranges with
  | [] => None
  | (min, max) :: rest =>
      if leNum (ofZ min) num && leNum num (ofZ max) then Some col
      else findColumn rest (S col) num
  end.

Definition columnOf (num : number) : option nat := findColumn columnRanges 0 num.

(** [columnCounts[col]++] for every number that has a column. *)
Definition countStep (counts : list nat) (num : number) : list nat :=
  match columnOf num with
  | Some col => assign counts col (nth col counts 0 + 1)
  | None => counts
  end.

Definition countColumns (validNumbers : list number) : list nat :=
  fold_left countStep validNumbers (repeat 0 9).

(** [new Set(validNumbers)] *)
Fixpoint distinct (l : list number) : list number :=
  match l with
  | [] => []
  | x :: rest =>
      if existsb (sameValueZero x) rest then distinct rest
      else x :: distinct rest
  end.

(** [ticketNumbers.filter(n => typeof n === 'number' && n > 0)] *)
Definition validNumbersOf (ticketNumbers : list JSValue) : list number :=
  flat_map
    (fun v =>
       match v with
       | JSNumber n => if positive n then [n] else []
       | _ => []
       end)
    ticketNumbers.

(** [Array.prototype.flat()] *)
Definition flat (l : list JSValue) : list JSValue :=
  flat_map (fun v => match v with JSArray inner => inner | _ => [v] end) l.

Definition isArray (v : JSValue) : bool :=
  match v with JSArray _ => true | _ => false end.

(** What the [try] blocks catch. *)
Inductive Exception : Type :=
| SyntaxError (text : string)
| TypeError (receiver : JSValue).

Record Report : Type := {
  isValid : bool;
  issues : list string
}.

Record FormatReport : Type := {
  formatIsValid : bool;
  formatIssues : list string;
  formatColumnCounts : list nat;
  isProperFormat : bool
}.

Section Builtins.

(** The parts of the language the validators call: [JSON.parse] ([None]
    when it throws), the string of a number and the string of a caught
    error in a template literal. *)
Variable JSON_parse : string -> option JSValue.
Variable showNumber : number -> string.
Variable showError : Exception -> string.

(** The four checks.  Both validators run this text on [validNumbers];
    they differ in the summary they push after a column issue. *)
Definition countIssue (validNumbers : list number) : list string :=
  if negb (length validNumbers =? 15) then
    [("Has " ++ showNat (length validNumbers) ++ " numbers instead of 15")%string]
  else [].

Definition duplicateIssue (validNumbers : list number) : list string :=
  if negb (length (distinct validNumbers) =? length validNumbers) then
    ["Contains duplicate numbers"]
  else [].

Definition rangeIssues (validNumbers : list number) : list string :=
  flat_map
    (fun num =>
       if ltNum num (ofZ 1) || ltNum (ofZ 90) num then
         [("Number " ++ showNumber num ++ " is outside valid range 1-90")%string]
       else [])
    validNumbers.

Definition columnIssues (columnCounts : list nat) : list string :=
  flat_map
    (fun col =>
       if 3 <? nth col columnCounts 0 then
         [("Column " ++ showNat (col + 1) ++ " has "
           ++ showNat (nth col columnCounts 0)
           ++ " numbers (max 3 allowed)")%string]
       else [])
    (seq 0 (length columnCounts)).

Definition hasColumnIssues (columnCounts : list nat) : bool :=
  existsb (fun col => 3 <? nth col columnCounts 0) (seq 0 (length columnCounts)).

Definition allIssues (summary : string) (validNumbers : list number)
  : list string :=
  let columnCounts := countColumns validNumbers in
  countIssue validNumbers ++ duplicateIssue validNumbers
  ++ rangeIssues validNumbers ++ columnIssues columnCounts
  ++ (if hasColumnIssues columnCounts then [summary] else []).

(** fixExistingTickets.ts: the [try] block of [validateExistingTicket];
    [inl] is an exception on its way to the [catch]. *)
Definition validateExistingTicketBody (numbers : JSValue) : Exception + Report :=
  let converted : Exception + option JSValue :=
    match numbers with
    | JSString text =>
        match JSON_parse text with
        | Some v => inr (Some v)
        | None => inl (SyntaxError text)
        end
    | JSArray elements =>
        inr (Some (if isArray (nth 0 elements JSUndefined)
                   then JSArray (flat elements) else numbers))
    | _ => inr None
    end in
  match converted with
  | inl e => inl e
  | inr None => inr {| isValid := false; issues := ["Invalid number format"] |}
  | inr (Some (JSArray ticketNumbers)) =>
      let found :=
        allIssues "Ticket needs regeneration for proper Housie format"
                  (validNumbersOf ticketNumbers) in
      inr {| isValid := length found =? 0; issues := found |}
  | inr (Some other) => inl (TypeError other)
  end.

Definition validateExistingTicket (numbers : JSValue) : Report :=
  match validateExistingTicketBody numbers with
  | inr report => report
  | inl error =>
      {| isValid := false;
         issues := [("Error validating ticket: " ++ showError error)%string] |}
  end.

(** The [validateTicketFormat] of the AdminGameTickets component. *)
Definition validateTicketFormat (ticketNumbers : JSValue) : FormatReport :=
  match ticketNumbers with
  | JSArray elements =>
      let validNumbers := validNumbersOf elements in
      let found := allIssues "Not proper Housie format" validNumbers in
      let columnCounts := countColumns validNumbers in
      {| formatIsValid := length found =? 0;
         formatIssues := found;
         formatColumnCounts := columnCounts;
         isProperFormat :=
           negb (hasColumnIssues columnCounts) && (length found =? 0) |}
  | other =>
      {| formatIsValid := false;
         formatIssues :=
           [("Error validating: " ++ showError (TypeError other))%string];
         formatColumnCounts := [];
         isProperFormat := false |}
  end.

End Builtins.

Definition isString (v : JSValue) : bool :=
  match v with JSString _ => true | _ => false end.

(** The candidate list: the array the checks of [validateExistingTicket]
    run on, when the conversion at its start gives one. *)
Definition candidateList (JSON_parse : string -> option JSValue)
  (numbers : JSValue) : option (list JSValue) :=
  match numbers with
  | JSString text =>
      match JSON_parse text with
      | Some (JSArray elements) => Some elements
      | _ => None
      end
  | JSArray elements =>
      Some (if isArray (nth 0 elements JSUndefined) then flat elements
            else elements)
  | _ => None
  end.

(** The summary each validator pushes after a column issue. *)
Definition regenerationNeeded : string :=
  "Ticket needs regeneration for proper Housie format".

Definition notProperFormat : string := "Not proper Housie format".

(** The stored form of a flat list of integers. *)
Definition arrayOfNumbers (l : list Z) : JSValue :=
  JSArray (map (fun z => JSNumber (ofZ z)) l).

(** [num] falls in column [col]. *)
Definition inColumn (col : nat) (num : number) : bool :=
  match columnOf num with
  | Some c => c =? col
  | None => false
  end.

Definition hasColumn (num : number) : bool :=
  match columnOf num with
  | Some _ => true
  | None => false
  end.

(** [1 <= num <= 90] *)
Definition withinRange (num : number) : bool :=
  leNum (ofZ 1) num && leNum num (ofZ 90).

(** The entries of a candidate that are numbers, positive and within 1-90. *)
Definition validEntries (candidate : JSValue) : list number :=
  match candidate with
  | JSArray elements => filter withinRange (validNumbersOf elements)
  | _ => []
  end.

(** A number with no fractional part. *)
Definition isInteger (num : number) : bool :=
  match num with
  | Finite q => Qeq_bool q (inject_Z (Qfloor q))
  | _ => false
  end.

(** The text of a column issue. *)
Definition columnIssue (col count : nat) : string :=
  ("Column " ++ showNat (col + 1) ++ " has " ++ showNat count
   ++ " numbers (max 3 allowed)")%string.

End Validator.

(** ** The grid that analyzeTicket lays out *)

Module Display.

Import Validator.

(** [numbersbyColumn[col].sort((a, b) => a - b)]; the numbers grouped under
    a column are finite. *)
Fixpoint insertNum (x : number) (l : list number) : list number :=
  match l with
  | [] => [x]
  | y :: t => if leNum x y then x :: l else y :: insertNum x t
  end.

Definition sortNums (l : list number) : list number := fold_right insertNum [] l.

(** The loop that sets [hasColumnOverflow]. *)
Definition overflowStep (state : list nat * bool) (num : number)
  : list nat * bool :=
  let (columnCounts, overflow) := state in
  match columnOf num with
  | Some col =>
      let counts' := assign columnCounts col (nth col columnCounts 0 + 1) in
      (counts', if 3 <? nth col counts' 0 then true else overflow)
  | None => state
  end.

Definition columnOverflow (validNumbers : list number) : bool :=
  snd (fold_left overflowStep validNumbers (repeat 0 9, false)).

(** [numbersbyColumn]: the object is a list of nine lists, a missing key
    being the empty list (both are skipped by the loops that follow). *)
Definition groupStep (byColumn : list (list number)) (num : number)
  : list (list number) :=
  match columnOf num with
  | Some i => assign byColumn i (nth i byColumn [] ++ [num])
  | None => byColumn
  end.

Definition groupByColumn (validNumbers : list number) : list (list number) :=
  fold_left groupStep validNumbers (repeat [] 9).

(** [for (const col in numbersbyColumn) numbersbyColumn[col].sort(...)] *)
Definition sortedColumns (validNumbers : list number) : list (list number) :=
  map sortNums (groupByColumn validNumbers).

(** [let bestRow = 0; for (let row = 1; row < 3; row++) ...] *)
Definition leastFilledRow (rowCounts : list Z) : nat :=
  fold_left
    (fun bestRow row =>
       if (nth row rowCounts 0 <? nth bestRow rowCounts 0)%Z
          && (nth row rowCounts 0 <? 5)%Z
       then row else bestRow)
    [1; 2] 0.

Definition placeManually (state : list (list number) * list Z)
  (entry : number * nat) : list (list number) * list Z :=
  let '(grid, rowCounts) := state in
  let '(num, col) := entry in
  let bestRow := leastFilledRow rowCounts in
  if (nth bestRow rowCounts 0 <? 5)%Z then
    (setCell grid bestRow col num,
     assign rowCounts bestRow (nth bestRow rowCounts 0 + 1)%Z)
  else state.

Definition emptyGrid : list (list number) := repeat (repeat (ofZ 0) 9) 3.

(** [for (const colStr in numbersbyColumn) for (const num of numbers)]:
    the keys of the object come in ascending order. *)
Definition entriesOf (byColumn : list (list number)) : list (number * nat) :=
  flat_map (fun col => map (fun num => (num, col)) (nth col byColumn []))
           (seq 0 9).

Definition layOut (byColumn : list (list number)) : list (list number) * list Z :=
  fold_left placeManually (entriesOf byColumn) (emptyGrid, [0; 0; 0]%Z).

(** The 3x5 fallback of an incomplete ticket and of the [catch]. *)
Definition fallbackGrid (ticketNumbers : list number) : list (list number) :=
  fold_left
    (fun grid i =>
       let row := i / 5 in
       let col := i mod 5 in
       if (row <? 3) && positive (nth i ticketNumbers NaN)
       then setCell grid row col (nth i ticketNumbers NaN) else grid)
    (seq 0 (Nat.min 15 (length ticketNumbers))) emptyGrid.

(** The [grid] of [analyzeTicket] once its [try] block and [catch] are
    through; [None] when the generator it calls is still running. *)
Definition analyzeTicketGrid (fuel : nat) (ticketNumbers : list number)
  (rnd : Random) : option (list (list number) * Random) :=
  let validNumbers := filter positive ticketNumbers in
  if length validNumbers =? 15 then
    if columnOverflow validNumbers then
      match Generator.convertFlatToGrid fuel validNumbers rnd with
      | Normal grid rnd' => Some (map (map ofZ) grid, rnd')
      | Throw _ rnd' => Some (fallbackGrid ticketNumbers, rnd')
      | OutOfFuel => None
      end
    else
      Some (fst (layOut (sortedColumns validNumbers)), rnd)
  else Some (fallbackGrid ticketNumbers, rnd).

(** A cell that holds a number: [cell !== 0]. *)
Definition filledNumber (num : number) : bool := negb (sameValueZero num (ofZ 0)).

(** Fifteen positive numbers with at most three to a column, one of them
    outside 1-90. *)
Definition legacyNumbers : list number :=
  map ofZ [1; 2; 3; 10; 11; 12; 20; 21; 22; 30; 31; 40; 50; 60; 95]%Z.

End Display.

(** ** The ticket invariants *)

Module Ticket.

Import Generator.

(** The non-empty cells of a grid, row after row, of a row and of a column. *)
Definition numbersOf (grid : list (list Z)) : list Z :=
  filter nonEmpty (concat grid).

Definition rowNumbers (grid : list (list Z)) (row : nat) : list Z :=
  filter nonEmpty (nth row grid []).

Definition columnValues (grid : list (list Z)) (col : nat) : list Z :=
  filter nonEmpty (map (fun row => nth col row 0%Z) grid).

Definition inColumnRange (col : nat) (num : Z) : Prop :=
  (fst (nth col columnRanges (0, 0)) <= num <= snd (nth col columnRanges (0, 0)))%Z.

Fixpoint ascending (l : list Z) : bool :=
  match l with
  | x :: ((y :: _) as rest) => (x <? y)%Z && ascending rest
  | _ => true
  end.

(** A 3x9 grid. *)
Definition shaped {A : Type} (grid : list (list A)) : Prop :=
  length grid = 3 /\ forall row, In row grid -> length row = 9.

(** Invariants 1 to 5 of the ticket grid. *)
Record Valid (grid : list (list Z)) : Prop := {
  valid_shape : shaped grid;
  valid_total : length (numbersOf grid) = 15;
  valid_rows : forall row, row < 3 -> length (rowNumbers grid row) = 5;
  valid_columns : forall col, col < 9 -> length (columnValues grid col) <= 3;
  valid_ranges :
    forall row col, row < 3 -> col < 9 ->
      cell 0%Z grid row col <> 0%Z -> inColumnRange col (cell 0%Z grid row col);
  valid_distinct : NoDup (numbersOf grid)
}.

(** Invariant 6: down a column the numbers increase. *)
Definition columnsAscending (grid : list (list Z)) : bool :=
  forallb (fun col => ascending (columnValues grid col)) (seq 0 9).

(** A per-column selection of numbers: nine columns, none with more than
    three numbers, fifteen numbers in all, none of them the empty marker. *)
Record Selected (numbers : list (list Z)) : Prop := {
  selected_columns : length numbers = 9;
  selected_capacity : forall col, col < 9 -> length (nth col numbers []) <= 3;
  selected_total : length (concat numbers) = 15;
  selected_nonzero : forall num, In num (concat numbers) -> num <> 0%Z
}.

(** What the selection loops of the generator establish on top of that. *)
Record WellChosen (numbers : list (list Z)) : Prop := {
  chosen_selected : Selected numbers;
  chosen_ranges :
    forall col num, col < 9 -> In num (nth col numbers []) -> inColumnRange col num;
  chosen_distinct : forall col, col < 9 -> NoDup (nth col numbers [])
}.

(** The invariant of the selection loops: the counters agree with the
    numbers chosen so far, which stay inside their column's range, without
    repetition, at most three to a column and fifteen in all. *)
Definition Selecting (st : Selection) : Prop :=
  length (columnNumbers st) = 9 /\
  columnCounts st = map (fun ns => Z.of_nat (length ns)) (columnNumbers st) /\
  totalNumbers st = Z.of_nat (length (concat (columnNumbers st))) /\
  (totalNumbers st <= 15)%Z /\
  forall col, col < 9 ->
    length (nth col (columnNumbers st) []) <= 3 /\
    NoDup (nth col (columnNumbers st) []) /\
    forall num, In num (nth col (columnNumbers st) []) -> inColumnRange col num.

(** A selection and a random source to run the code on: three numbers in
    each of the first three columns and one in each of the others; a source
    whose every draw is 1, which makes the first loop put two numbers in a
    column. *)
Definition sampleSelection : list (list Z) :=
  [[1; 2; 3]; [10; 11; 12]; [20; 21; 22]; [31]; [41]; [51]; [61]; [71]; [81]]%Z.

Definition alwaysOne : Random := fun _ => 1.

Definition sampleTicket : HousieTicketGrid :=
  {| grid := [[1; 12; 0; 30; 42; 0; 60; 0; 0];
              [3; 0; 20; 32; 0; 50; 62; 0; 0];
              [0; 10; 22; 0; 40; 52; 0; 70; 0]]%Z;
     flatNumbers := [1; 3; 10; 12; 20; 22; 30; 32; 40; 42; 50; 52; 60; 62; 70]%Z |}.

End Ticket.

(** ** Round-robin placement

    The row both placement loops end up choosing: the k-th number placed
    goes to row [k mod 3]. *)

Module RoundRobin.

Section Cells.

Context {A : Type}.

Fixpoint place (k : nat) (grid : list (list A)) (entries : list (A * nat))
  : list (list A) :=
  match entries with
  | [] => grid
  | (num, col) :: rest => place (S k) (setCell grid (k mod 3) col num) rest
  end.

Fixpoint positions (k : nat) (entries : list (A * nat)) : list (nat * nat) :=
  match entries with
  | [] => []
  | (_, col) :: rest => (k mod 3, col) :: positions (S k) rest
  end.

(** The entries of a per-column selection, column after column. *)
Definition entriesOf (numbers : list (list A)) (cols : list nat) : list (A * nat) :=
  flat_map (fun col => map (fun num => (num, col)) (nth col numbers [])) cols.

(** What placing [entries] from the k-th placement on relies on: a 3x9
    grid whose cells at the coming positions are free, positions that do
    not repeat, and entries that are numbers of columns of the grid. *)
Definition Ready (empty : A) (filled : A -> bool) (k : nat)
  (grid : list (list A)) (entries : list (A * nat)) : Prop :=
  Ticket.shaped grid /\
  NoDup (positions k entries) /\
  (forall p, In p (positions k entries) ->
     filled (cell empty grid (fst p) (snd p)) = false) /\
  (forall e, In e entries -> filled (fst e) = true /\ snd e < 9).

End Cells.

(** The row counts after [k] placements. *)
Definition counts (k : nat) : list Z :=
  [Z.of_nat ((k + 2) / 3); Z.of_nat ((k + 1) / 3); Z.of_nat (k / 3)].

End RoundRobin.
(** ** The errors of validateTicket *)

Module TicketError.

Definition row (index count : nat) : string :=
  "Invalid ticket: Row " ++ showNat index ++ " has " ++ showNat count
  ++ " numbers instead of 5".

Definition range (num : Z) (col : nat) : string :=
  "Invalid ticket: Number " ++ showZ num ++ " in column " ++ showNat col
  ++ " is outside allowed range "
  ++ showZ (fst (nth col Generator.columnRanges (0, 0)%Z)) ++ "-"
  ++ showZ (snd (nth col Generator.columnRanges (0, 0)%Z)).

Definition duplicates : string := "Invalid ticket: Contains duplicate numbers".

End TicketError.

(** ** What the validators accept *)

Module Accepted.

Import Validator.

(** No number of the list is the same value as a later one. *)
Fixpoint allDifferent (l : list number) : Prop :=
  match l with
  | [] => True
  | x :: rest =>
      (forall y, In y rest -> sameValueZero x y = false) /\ allDifferent rest
  end.

(** Fifteen numbers, no two the same, each within 1-90, at most three in
    the range of a column. *)
Record Acceptable (validNumbers : list number) : Prop := {
  acceptable_count : length validNumbers = 15;
  acceptable_different : allDifferent validNumbers;
  acceptable_range :
    forall num, In num validNumbers -> withinRange num = true;
  acceptable_columns :
    forall col, col < 9 -> length (filter (inColumn col) validNumbers) <= 3
}.

End Accepted.

(** ** analyzeTicket: struck numbers, lines and wins *)

Module Analysis.

Import Validator Display.

(** [array.includes(num)] *)
Definition includes (array : list number) (num : number) : bool :=
  existsb (fun element => sameValueZero element num) array.

Record TicketAnalysis : Type := {
  struckNumbers : list number;
  completedLines : list string;
  isEarlyFive : bool;
  isFullHouse : bool;
  struckCount : nat
}.

Definition lineNames : list string := ["Top Line"; "Middle Line"; "Bottom Line"].

(** The test of [grid.forEach((row, index) => ...)]: the row has numbers
    and they are all struck. *)
Definition rowComplete (grid : list (list number)) (struck : list number)
  (index : nat) : bool :=
  let rowNumbers := filter positive (nth index grid []) in
  let struckInRow := filter (includes struck) rowNumbers in
  (0 <? length rowNumbers) && (length struckInRow =? length rowNumbers).

(** The names pushed for the complete rows. *)
Definition linesOf (names : list string) (grid : list (list number))
  (struck : list number) : list string :=
  flat_map
    (fun index =>
       if rowComplete grid struck index then [nth index names ""] else [])
    (seq 0 (length grid)).

Definition nothingDrawn : TicketAnalysis :=
  {| struckNumbers := [];
     completedLines := [];
     isEarlyFive := false;
     isFullHouse := false;
     struckCount := 0 |}.

(** [analyzeTicket] for the array [drawnNumbers] of the component; [None]
    when the generator that lays out a ticket with a crowded column is
    still running. *)
Definition analyzeTicket (fuel : nat) (drawnNumbers ticketNumbers : list number)
  (rnd : Random) : option (TicketAnalysis * Random) :=
  if length drawnNumbers =? 0 then Some (nothingDrawn, rnd)
  else
    let validNumbers := filter positive ticketNumbers in
    let struckNumbers := filter (includes drawnNumbers) validNumbers in
    let struckCount := length struckNumbers in
    match analyzeTicketGrid fuel ticketNumbers rnd with
    | None => None
    | Some (grid, rnd') =>
        Some ({| struckNumbers := struckNumbers;
                 completedLines := linesOf lineNames grid struckNumbers;
                 isEarlyFive := struckCount =? 5;
                 isFullHouse :=
                   (0 <? length validNumbers)
                   && forallb (includes struckNumbers) validNumbers;
                 struckCount := struckCount |}, rnd')
    end.

(** One set of drawn numbers holds every number of another. *)
Definition drawnWithin (drawnNumbers later : list number) : Prop :=
  forall num, includes drawnNumbers num = true -> includes later num = true.

End Analysis.
(** ** The HousieTicket component *)

Module TicketView.

Import Validator Display Analysis.

(** [ticketNumbers] for a prop [numbers] that is an array of numbers, as
    its type says: the array itself, padded with zeros or cut to fifteen
    entries. *)
Definition ticketNumbersOf (numbers : list number) : list number :=
  if negb (length numbers =? 15) then
    if length numbers <? 15
    then numbers ++ repeat (ofZ 0) (15 - length numbers)
    else firstn 15 numbers
  else numbers.

(** [ticketGrid]; the [catch] takes the error of convertFlatToGrid. *)
Definition ticketGrid (fuel : nat) (numbers : list number) (rnd : Random)
  : option (list (list number) * Random) :=
  let ticketNumbers := ticketNumbersOf numbers in
  if (length ticketNumbers =? 15) && existsb positive ticketNumbers then
    let validNumbers := filter positive ticketNumbers in
    if columnOverflow validNumbers then
      match Generator.convertFlatToGrid fuel validNumbers rnd with
      | Normal grid rnd' => Some (map (map ofZ) grid, rnd')
      | Throw _ rnd' => Some (fallbackGrid ticketNumbers, rnd')
      | OutOfFuel => None
      end
    else Some (fst (layOut (sortedColumns validNumbers)), rnd)
  else Some (fallbackGrid ticketNumbers, rnd).

(** [struck.add(num)] on a [Set] kept in insertion order. *)
Definition setAdd (struck : list number) (num : number) : list number :=
  if includes struck num then struck else struck ++ [num].

(** [newStruckNumbers] of the effect. *)
Definition struckOf (ticketNumbers drawnNumbers : list number) : list number :=
  fold_left
    (fun struck num =>
       if positive num && includes drawnNumbers num then setAdd struck num
       else struck)
    ticketNumbers [].

Definition lineTypes : list string := ["top_line"; "middle_line"; "bottom_line"].

(** [checkForWins] with a handler [onWinDetected]: the win types the
    handler is called with, in order. *)
Definition checkForWins (ticketNumbers : list number)
  (ticketGrid : list (list number)) (struck : list number) : list string :=
  let struckCount := length struck in
  let validNumbers := filter positive ticketNumbers in
  let earlyFive := (struckCount =? 5) && negb (includes struck (ofZ (-1))) in
  let struck' := if earlyFive then setAdd struck (ofZ (-1)) else struck in
  (if earlyFive then ["early_five"] else [])
  ++ linesOf lineTypes ticketGrid struck'
  ++ (if (length validNumbers =? 15) && forallb (includes struck') validNumbers
      then ["full_house"] else []).

(** The effect that follows a draw: the wins it reports for the grid of
    the render. *)
Definition winsDetected (fuel : nat) (numbers drawnNumbers : list number)
  (rnd : Random) : option (list string * Random) :=
  match ticketGrid fuel numbers rnd with
  | Some (grid, rnd') =>
      Some (checkForWins (ticketNumbersOf numbers) grid
              (struckOf (ticketNumbersOf numbers) drawnNumbers), rnd')
  | None => None
  end.

End TicketView.

(** ** fixExistingTickets.ts: the migration *)

Module Migration.

Import Validator.

Record TicketRecord : Type := {
  id : string;
  numbers : JSValue;
  game_id : string;
  user_id : string;
  created_at : string
}.

(** What [supabase.from('tickets').select('*')] resolves to: an [error],
    or [data] that can be [null]. *)
Inductive Answer : Type :=
| SelectError (error : string)
| SelectData (data : option (list TicketRecord)).

Record Findings : Type := {
  totalTickets : nat;
  invalidTickets : list (TicketRecord * list string);
  validTickets : nat
}.

Record FixResults : Type := {
  processed : nat;
  fixed : nat;
  failed : nat;
  errors : list string
}.

(** An update sent to the database: the ticket it names and the numbers
    it writes. *)
Record Update : Type := {
  target : string;
  newNumbers : list Z
}.

(** The draws to come and the updates sent so far. *)
Record World : Type := {
  draws : Random;
  updates : list Update
}.

Section Database.

Variable JSON_parse : string -> option JSValue.
Variable showNumber : number -> string.
Variable showError : Exception -> string.

(** Whether the database carries out an update, given the updates sent
    before; [false] is an [error] in the answer or a rejected promise. *)
Variable accepted : list Update -> Update -> bool.

(** One turn of [for (const ticket of tickets)]. *)
Definition analyzeStep (results : Findings) (ticket : TicketRecord) : Findings :=
  let validation :=
    validateExistingTicket JSON_parse showNumber showError (numbers ticket) in
  if negb (isValid validation) then
    {| totalTickets := totalTickets results;
       invalidTickets := invalidTickets results ++ [(ticket, issues validation)];
       validTickets := validTickets results |}
  else
    {| totalTickets := totalTickets results;
       invalidTickets := invalidTickets results;
       validTickets := validTickets results + 1 |}.

(** [analyzeExistingTickets]; [inl] is the error it throws again. *)
Definition analyzeExistingTickets (answer : Answer) : string + Findings :=
  match answer with
  | SelectError error => inl error
  | SelectData data =>
      let results :=
        {| totalTickets := match data with Some tickets => length tickets | None => 0 end;
           invalidTickets := [];
           validTickets := 0 |} in
      match data with
      | None => inr results
      | Some tickets =>
          if length tickets =? 0 then inr results
          else inr (fold_left analyzeStep tickets results)
      end
  end.

(** The tickets that validateExistingTicket rejects, each with the issues
    found, in the order of the table. *)
Definition rejected (tickets : list TicketRecord)
  : list (TicketRecord * list string) :=
  flat_map
    (fun ticket =>
       let validation :=
         validateExistingTicket JSON_parse showNumber showError (numbers ticket) in
       if isValid validation then [] else [(ticket, issues validation)])
    tickets.

(** [fixSingleTicket]: [None] while the generator is still running. *)
Definition fixSingleTicket (fuel : nat) (ticketId : string) (world : World)
  : option (bool * World) :=
  match Generator.generateHousieTicket fuel (draws world) with
  | Normal newTicketData rnd =>
      let update :=
        {| target := ticketId;
           newNumbers := Generator.flatNumbers newTicketData |} in
      Some (accepted (updates world) update,
            {| draws := rnd; updates := updates world ++ [update] |})
  | Throw _ rnd => Some (false, {| draws := rnd; updates := updates world |})
  | OutOfFuel => None
  end.

(** [for (const { ticket, issues } of analysis.invalidTickets)] *)
Fixpoint fixLoop (fuel : nat) (dryRun : bool)
  (invalid : list (TicketRecord * list string)) (results : FixResults)
  (world : World) : option (FixResults * World) :=
  match invalid with
  | [] => Some (results, world)
  | (ticket, _) :: rest =>
      let results1 :=
        {| processed := processed results + 1;
           fixed := fixed results;
           failed := failed results;
           errors := errors results |} in
      if negb dryRun then
        match fixSingleTicket fuel (id ticket) world with
        | Some (success, world') =>
            let results2 :=
              if success then
                {| processed := processed results1;
                   fixed := fixed results1 + 1;
                   failed := failed results1;
                   errors := errors results1 |}
              else
                {| processed := processed results1;
                   fixed := fixed results1;
                   failed := failed results1 + 1;
                   errors :=
                     errors results1
                     ++ [("Failed to fix ticket " ++ id ticket)%string] |} in
            fixLoop fuel dryRun rest results2 world'
        | None => None
        end
      else fixLoop fuel dryRun rest results1 world
  end.

Definition nothingFixed : FixResults :=
  {| processed := 0; fixed := 0; failed := 0; errors := [] |}.

(** [fixInvalidTickets(dryRun)] on the answer to the query of
    analyzeExistingTickets. *)
Definition fixInvalidTickets (fuel : nat) (dryRun : bool) (answer : Answer)
  (world : World) : option ((string + FixResults) * World) :=
  match analyzeExistingTickets answer with
  | inl error => Some (inl error, world)
  | inr analysis =>
      if length (invalidTickets analysis) =? 0 then Some (inr nothingFixed, world)
      else
        match fixLoop fuel dryRun (invalidTickets analysis) nothingFixed world with
        | Some (results, world') => Some (inr results, world')
        | None => None
        end
  end.

End Database.

(** The updates of a run over the tickets named [ids]: one for each, in
    order, writing the flatNumbers of the ticket generateHousieTicket
    returns on the draws the update before has left; with the updates, the
    draws left at the end. *)
Fixpoint regenerated (fuel : nat) (ids : list string) (rnd : Random)
  : option (list Update * Random) :=
  match ids with
  | [] => Some ([], rnd)
  | ticketId :: rest =>
      match Generator.generateHousieTicket fuel rnd with
      | Normal newTicketData rnd' =>
          match regenerated fuel rest rnd' with
          | Some (sent, remaining) =>
              Some ({| target := ticketId;
                       newNumbers := Generator.flatNumbers newTicketData |}
                    :: sent, remaining)
          | None => None
          end
      | _ => None
      end
  end.

(** Two tickets of the table whose numbers are not a list, and a world in
    which every draw is 1 and no update has been sent. *)
Definition sampleRecord : TicketRecord :=
  {| id := "ticket-1";
     numbers := JSNull;
     game_id := "game-1";
     user_id := "user-1";
     created_at := "2024-01-01T00:00:00Z" |}.

Definition laterRecord : TicketRecord :=
  {| id := "ticket-2";
     numbers := JSNumber (ofZ 7);
     game_id := "game-1";
     user_id := "user-2";
     created_at := "2024-01-02T00:00:00Z" |}.

Definition sampleWorld : World :=
  {| draws := Ticket.alwaysOne; updates := [] |}.

End Migration.

(** ** The generators of the edge functions *)

Module EdgeFunction.

Import Generator.

(** The first [while (totalNumbers < targetNumbers)] of the edge functions:
    the loop of the client without its [break]. *)
Fixpoint selectLoop (fuel : nat) (st : Selection) (rnd : Random)
  : option (Selection * Random) :=
  if (totalNumbers st <? targetNumbers)%Z then
    match fuel with
    | O => None
    | S fuel' =>
        let (st', rnd') := sweep (seq 0 9) st rnd in selectLoop fuel' st' rnd'
    end
  else Some (st, rnd).

(** The three selection loops. *)
Definition selectNumbers (fuel : nat) (rnd : Random) : option (Selection * Random) :=
  match selectLoop fuel initialSelection rnd with
  | None => None
  | Some (st1, rnd1) =>
  match addLoop fuel st1 rnd1 with
  | None => None
  | Some (st2, rnd2) =>
  match removeLoop fuel st2 with
  | None => None
  | Some st3 => Some (st3, rnd2)
  end end end.

(** fix-tickets: the grid is returned as it is placed. *)
Definition generateHousieTicket (fuel : nat) (rnd : Random)
  : Completion HousieTicketGrid :=
  match selectNumbers fuel rnd with
  | None => OutOfFuel
  | Some (st, rnd') =>
      let (grid, rowCounts) := placeAll (columnNumbers st) in
      Normal {| grid := grid; flatNumbers := sortNumbers (flatten grid) |} rnd'
  end.

(** buy-ticket: validateTicket runs on the grid first. *)
Definition generateCheckedTicket (fuel : nat) (rnd : Random)
  : Completion HousieTicketGrid :=
  match selectNumbers fuel rnd with
  | None => OutOfFuel
  | Some (st, rnd') =>
      let (grid, rowCounts) := placeAll (columnNumbers st) in
      match validateTicket grid with
      | Some message => Throw message rnd'
      | None =>
          Normal {| grid := grid; flatNumbers := sortNumbers (flatten grid) |}
                 rnd'
      end
  end.

End EdgeFunction.

(** ** The columns of a grid, from the left *)

Module Columns.

Import Generator Ticket.

(** How many numbers the columns to the left of [col] hold. *)
Definition filledBefore (grid : list (list Z)) (col : nat) : nat :=
  list_sum (map (fun c => length (columnValues grid c)) (seq 0 col)).

End Columns.

(** ** The ranges of the columns, as the specification lists them *)

Module Ranges.

Import Validator.

(** Column 1 holds 1-9, column 2 holds 10-19, and so on to column 8 with
    70-79 and column 9 with 80-90.  This is the table of the specification
    and of the issues' wording, written without the validators' loop over
    [columnRanges]; [col] counts from 0. *)
Definition lowest (col : nat) : Z :=
  if col =? 0 then 1%Z else (10 * Z.of_nat col)%Z.

Definition highest (col : nat) : Z :=
  if col =? 8 then 90%Z else (10 * Z.of_nat col + 9)%Z.

Definition inRange (col : nat) (num : number) : bool :=
  leNum (ofZ (lowest col)) num && leNum num (ofZ (highest col)).

Definition inSomeRange (num : number) : bool :=
  existsb (fun col => inRange col num) (seq 0 9).

(** The entries of a candidate that are numbers, positive and in the range
    of one of the nine columns. *)
Definition rangedEntries (candidate : JSValue) : list number :=
  match candidate with
  | JSArray elements => filter inSomeRange (validNumbersOf elements)
  | _ => []
  end.

End Ranges.

(** * Proofs *)

(** ** Arrays *)

Section ArrayFacts.

Context {A : Type}.

Lemma assign_length (l : list A) i v : length (assign l i v) = length l.
Proof.
  revert i; induction l as [|x t IH]; intros [|i]; simpl; auto.
Qed.

Lemma assign_overflow (l : list A) i v : length l <= i -> assign l i v = l.
Proof.
  revert i; induction l as [|x t IH]; intros [|i] H; simpl in *; auto; try lia.
  f_equal. apply IH. lia.
Qed.

Lemma nth_assign_same (l : list A) i v d :
  i < length l -> nth i (assign l i v) d = v.
Proof.
  revert i; induction l as [|x t IH]; intros [|i] H; simpl in *; try lia; auto.
  apply IH; lia.
Qed.

Lemma nth_assign_other (l : list A) i j v d :
  i <> j -> nth j (assign l i v) d = nth j l d.
Proof.
  revert i j; induction l as [|x t IH]; intros [|i] [|j] H; simpl; auto; try lia.
Qed.

(** An in-range write replaces the middle of a split of the list. *)
Lemma assign_split (l : list A) i d :
  i < length l ->
  exists before after,
    l = before ++ nth i l d :: after /\ length before = i /\
    forall v, assign l i v = before ++ v :: after.
Proof.
  revert i; induction l as [|x t IH]; intros [|i] H; simpl in *; try lia.
  - exists [], t; auto.
  - destruct (IH i) as (b & a & E & L & W); [lia|].
    exists (x :: b), a; simpl; repeat split; try congruence.
Qed.

Lemma assign_map {B : Type} (f : A -> B) (l : list A) i v :
  map f (assign l i v) = assign (map f l) i (f v).
Proof.
  revert i; induction l as [|x t IH]; intros [|i]; simpl; auto.
  now rewrite IH.
Qed.

Lemma assign_In (l : list A) i v x :
  In x (assign l i v) -> x = v \/ In x l.
Proof.
  revert i; induction l as [|y t IH]; intros [|i]; simpl; auto.
  - intros [->|H]; auto.
  - intros [->|H]; auto. destruct (IH _ H); auto.
Qed.

End ArrayFacts.

Section GridFacts.

Context {A : Type}.

Lemma cell_setCell_same (grid : list (list A)) row col v d :
  row < length grid -> col < length (nth row grid []) ->
  cell d (setCell grid row col v) row col = v.
Proof.
  intros Hr Hc. unfold cell, setCell.
  rewrite nth_assign_same by assumption. now apply nth_assign_same.
Qed.

Lemma cell_setCell_other (grid : list (list A)) row col v d row' col' :
  (row', col') <> (row, col) ->
  cell d (setCell grid row col v) row' col' = cell d grid row' col'.
Proof.
  intros Hne. unfold cell, setCell.
  destruct (Nat.eq_dec row row') as [->|Hr].
  - destruct (Nat.lt_ge_cases row' (length grid)) as [Hlt|Hge].
    + rewrite nth_assign_same by assumption.
      apply nth_assign_other. congruence.
    + now rewrite assign_overflow.
  - now rewrite nth_assign_other.
Qed.

Lemma shaped_setCell (grid : list (list A)) row col v :
  Ticket.shaped grid -> Ticket.shaped (setCell grid row col v).
Proof.
  intros [H3 H9]. unfold setCell.
  destruct (Nat.lt_ge_cases row (length grid)) as [Hlt|Hge].
  - split; [now rewrite assign_length|].
    intros r Hr. apply assign_In in Hr. destruct Hr as [->|Hr]; auto.
    rewrite assign_length. apply H9. now apply nth_In.
  - rewrite assign_overflow by assumption. now split.
Qed.

End GridFacts.

(** ** Sorting and shuffling rearrange *)

Import Generator Ticket.

Lemma insertNumber_perm x l : Permutation (insertNumber x l) (x :: l).
Proof.
  induction l as [|y t IH]; simpl; auto.
  destruct (x <=? y)%Z; auto.
  rewrite IH. apply perm_swap.
Qed.

Lemma sortNumbers_perm l : Permutation (sortNumbers l) l.
Proof.
  induction l as [|x t IH]; simpl; auto.
  rewrite insertNumber_perm. now constructor.
Qed.

Lemma swap_perm l i j :
  i < length l -> j < length l -> Permutation l (swap l i j).
Proof.
  intros Hi Hj. apply (Permutation_nth _ _ 0%Z). unfold swap. cbn zeta.
  split; [now rewrite !assign_length|].
  exists (fun x => if x =? j then i else if x =? i then j else x).
  split; [|split].
  - intros x Hx. destruct (x =? j), (x =? i); lia.
  - intros x y Hx Hy.
    destruct (Nat.eqb_spec x j), (Nat.eqb_spec x i),
      (Nat.eqb_spec y j), (Nat.eqb_spec y i); lia.
  - intros x Hx. destruct (Nat.eqb_spec x j) as [->|Hxj].
    + rewrite nth_assign_same; auto. now rewrite assign_length.
    + rewrite nth_assign_other by auto.
      destruct (Nat.eqb_spec x i) as [->|Hxi].
      * now rewrite nth_assign_same.
      * now rewrite nth_assign_other.
Qed.

Lemma shuffleFrom_perm i : forall array rnd,
  i < length array -> Permutation array (fst (shuffleFrom i array rnd)).
Proof.
  induction i as [|i IH]; intros array rnd Hi; simpl; auto.
  assert (Hj : rnd 0 mod (S i + 1) < length array).
  { pose proof (Nat.mod_upper_bound (rnd 0) (S i + 1)). lia. }
  etransitivity; [apply (swap_perm array (S i) (rnd 0 mod (S i + 1))); auto|].
  apply IH. unfold swap. rewrite !assign_length. lia.
Qed.

Lemma shuffleArray_perm array rnd :
  Permutation array (fst (shuffleArray array rnd)).
Proof.
  unfold shuffleArray. destruct array as [|x t]; [simpl; auto|].
  apply shuffleFrom_perm. simpl. lia.
Qed.

(** ** The numbers still available in a column *)

Lemma fromTo_In min max n : In n (fromTo min max) <-> (min <= n <= max)%Z.
Proof.
  unfold fromTo. rewrite in_map_iff. split.
  - intros (k & <- & Hk). apply in_seq in Hk. lia.
  - intros H. exists (Z.to_nat (n - min)). split; [lia|].
    apply in_seq. lia.
Qed.

Lemma fromTo_NoDup min max : NoDup (fromTo min max).
Proof.
  unfold fromTo. apply Injective_map_NoDup_in; [|apply seq_NoDup].
  intros a b _ _ H. lia.
Qed.

Lemma fromTo_length min max : length (fromTo min max) = Z.to_nat (max - min + 1).
Proof. unfold fromTo. now rewrite length_map, length_seq. Qed.

Lemma includes_In l n : includes l n = true <-> In n l.
Proof.
  unfold includes. rewrite existsb_exists. split.
  - intros (x & Hx & E). apply Z.eqb_eq in E. now subst.
  - intros H. exists n. split; auto. apply Z.eqb_refl.
Qed.

Lemma columnRanges_wide col :
  col < 9 ->
  (9 <= snd (nth col columnRanges (0, 0)) - fst (nth col columnRanges (0, 0)) + 1)%Z.
Proof.
  intros H. do 9 (destruct col as [|col]; [simpl; lia|]). lia.
Qed.

Lemma availableNumbers_In col chosen n :
  In n (availableNumbers col chosen) <-> inColumnRange col n /\ ~ In n chosen.
Proof.
  unfold availableNumbers, inColumnRange.
  destruct (nth col columnRanges (0, 0)%Z) as [min max]. simpl.
  rewrite filter_In, fromTo_In, negb_true_iff.
  rewrite <- (includes_In chosen n).
  destruct (includes chosen n); intuition congruence.
Qed.

Lemma availableNumbers_NoDup col chosen : NoDup (availableNumbers col chosen).
Proof.
  unfold availableNumbers. destruct (nth col columnRanges (0, 0)%Z) as [min max].
  apply NoDup_filter, fromTo_NoDup.
Qed.

Lemma availableNumbers_many col chosen :
  col < 9 -> 9 <= length (availableNumbers col chosen) + length chosen.
Proof.
  intros Hcol. pose proof (columnRanges_wide col Hcol) as Hw.
  unfold availableNumbers. destruct (nth col columnRanges (0, 0)%Z) as [min max].
  simpl in Hw. rewrite <- length_app.
  assert (Hl : 9 <= length (fromTo min max)) by (rewrite fromTo_length; lia).
  etransitivity; [exact Hl|].
  apply NoDup_incl_length; [apply fromTo_NoDup|].
  intros n Hn. apply in_or_app.
  destruct (includes chosen n) eqn:E.
  - right. now apply includes_In.
  - left. apply filter_In. split; auto. now rewrite E.
Qed.

(** ** The selection loops keep their invariant *)

Lemma assign_assign {A : Type} (l : list A) i v w :
  assign (assign l i v) i w = assign l i w.
Proof.
  revert i; induction l as [|x t IH]; intros [|i]; simpl; auto.
  now rewrite IH.
Qed.

Lemma concat_assign_length {A : Type} (l : list (list A)) i v :
  i < length l ->
  length (concat (assign l i v)) + length (nth i l []) =
  length (concat l) + length v.
Proof.
  intros H. destruct (assign_split l i [] H) as (b & a & E & _ & W).
  rewrite W. set (x := nth i l []) in *. clearbody x. subst l.
  rewrite !concat_app. simpl. rewrite !length_app. lia.
Qed.

Lemma Selecting_count st col :
  Selecting st ->
  nth col (columnCounts st) 0%Z = Z.of_nat (length (nth col (columnNumbers st) [])).
Proof.
  intros (_ & -> & _).
  exact (map_nth (fun ns => Z.of_nat (length ns)) (columnNumbers st) [] col).
Qed.

Lemma Selecting_update st col newcol extra used :
  Selecting st -> col < 9 ->
  Permutation newcol (nth col (columnNumbers st) [] ++ extra) ->
  NoDup extra ->
  (forall n, In n extra ->
     inColumnRange col n /\ ~ In n (nth col (columnNumbers st) [])) ->
  length (nth col (columnNumbers st) []) + length extra <= 3 ->
  (totalNumbers st + Z.of_nat (length extra) <= 15)%Z ->
  Selecting
    {| columnCounts :=
         assign (columnCounts st) col
           (nth col (columnCounts st) 0 + Z.of_nat (length extra))%Z;
       columnNumbers := assign (columnNumbers st) col newcol;
       totalNumbers := (totalNumbers st + Z.of_nat (length extra))%Z;
       columnsToUse := used |}.
Proof.
  intros Hst Hcol Hperm Hnd Hextra Hcap Htot.
  pose proof (Selecting_count st col Hst) as Hcount.
  destruct Hst as (Hlen & Hcounts & Htotal & Hle & Hcols).
  pose proof (Permutation_length Hperm) as Hplen. rewrite length_app in Hplen.
  unfold Selecting; simpl. split; [|split; [|split; [|split]]].
  - now rewrite assign_length.
  - rewrite assign_map, Hcount, <- Hcounts. f_equal. lia.
  - pose proof (concat_assign_length (columnNumbers st) col newcol) as Hc.
    rewrite Htotal. lia.
  - assumption.
  - intros c Hc. destruct (Nat.eq_dec col c) as [<-|Hne].
    + rewrite nth_assign_same by lia. split; [lia|split].
      * apply (Permutation_NoDup (Permutation_sym Hperm)).
        apply NoDup_app; auto.
        -- now apply Hcols.
        -- intros a Ha Hin. now apply (Hextra a Hin).
      * intros num Hnum.
        apply (Permutation_in _ Hperm) in Hnum. apply in_app_or in Hnum.
        destruct Hnum as [Hnum|Hnum]; [now apply Hcols | now apply Hextra].
    + rewrite nth_assign_other by assumption. now apply Hcols.
Qed.

Lemma addToColumn_spec col st rnd :
  Selecting st -> col < 9 ->
  (nth col (columnCounts st) 0 < 3)%Z -> (totalNumbers st < 15)%Z ->
  let st' := fst (addToColumn col st rnd) in
  Selecting st' /\
  columnsToUse st' = setAdd col (columnsToUse st) /\
  (forall c, c <> col ->
     nth c (columnNumbers st') [] = nth c (columnNumbers st) []).
Proof.
  intros Hst Hcol Hroom Hneed.
  pose proof (Selecting_count st col Hst) as Hcount.
  assert (Hlencounts : length (columnCounts st) = 9).
  { destruct Hst as (Hl & -> & _). now rewrite length_map. }
  unfold addToColumn, targetNumbers.
  destruct (randomInt 2 rnd) as [r rnd1].
  set (chosen := nth col (columnNumbers st) []) in *.
  set (available := availableNumbers col chosen).
  set (numbersToAdd :=
         (Z.min (Z.min (3 - nth col (columnCounts st) 0) (15 - totalNumbers st))
                (Z.of_nat r + 1))%Z).
  assert (Hk : (1 <= numbersToAdd)%Z) by (unfold numbersToAdd; lia).
  assert (Hk3 : (numbersToAdd <= 3 - Z.of_nat (length chosen))%Z)
    by (unfold numbersToAdd; lia).
  assert (Hk15 : (totalNumbers st + numbersToAdd <= 15)%Z)
    by (unfold numbersToAdd; lia).
  clearbody numbersToAdd.
  assert (Havail : forall n, In n available ->
            inColumnRange col n /\ ~ In n chosen).
  { intros n Hn. now apply availableNumbers_In. }
  destruct (Z.leb_spec numbersToAdd (Z.of_nat (length available))) as [Hle|Hgt].
  - destruct (shuffleArray available rnd1) as [shuffled rnd2] eqn:Hsh.
    pose proof (shuffleArray_perm available rnd1) as Hperm.
    rewrite Hsh in Hperm. simpl in Hperm.
    set (selected := sortNumbers (firstn (Z.to_nat numbersToAdd) shuffled)).
    assert (Hsel : Permutation selected (firstn (Z.to_nat numbersToAdd) shuffled))
      by apply sortNumbers_perm.
    assert (Hsellen : Z.of_nat (length selected) = numbersToAdd).
    { rewrite (Permutation_length Hsel), firstn_length_le; [lia|].
      rewrite <- (Permutation_length Hperm). lia. }
    assert (Hshnd : NoDup shuffled).
    { apply (Permutation_NoDup Hperm), availableNumbers_NoDup. }
    simpl. rewrite <- Hsellen. split; [|split].
    + apply Selecting_update; auto.
      * apply (Permutation_NoDup (Permutation_sym Hsel)).
        rewrite <- (firstn_skipn (Z.to_nat numbersToAdd) shuffled) in Hshnd.
        now apply NoDup_app_remove_r in Hshnd.
      * intros n Hn. apply Havail.
        apply (Permutation_in _ (Permutation_sym Hperm)).
        apply (Permutation_in _ Hsel) in Hn.
        rewrite <- (firstn_skipn (Z.to_nat numbersToAdd) shuffled).
        apply in_or_app. now left.
      * fold chosen. lia.
      * lia.
    + reflexivity.
    + intros c Hc. now rewrite nth_assign_other by auto.
  - set (sorted := sortNumbers available).
    assert (Hsel : Permutation sorted available) by apply sortNumbers_perm.
    pose proof (Permutation_length Hsel) as Hsellen.
    simpl. rewrite assign_assign, nth_assign_same by lia.
    replace (nth col (columnCounts st) 0 + numbersToAdd
             - (numbersToAdd - Z.of_nat (length available)))%Z
      with (nth col (columnCounts st) 0 + Z.of_nat (length sorted))%Z by lia.
    replace (totalNumbers st + numbersToAdd
             - (numbersToAdd - Z.of_nat (length available)))%Z
      with (totalNumbers st + Z.of_nat (length sorted))%Z by lia.
    split; [|split].
    + apply Selecting_update; auto.
      * apply (Permutation_NoDup (Permutation_sym Hsel)), availableNumbers_NoDup.
      * intros n Hn. apply Havail. now apply (Permutation_in _ Hsel).
      * fold chosen. lia.
      * lia.
    + reflexivity.
    + intros c Hc. now rewrite nth_assign_other by auto.
Qed.

Lemma initialSelection_empty col :
  nth col (columnNumbers initialSelection) [] = [].
Proof. apply (nth_repeat (@nil Z) 9 col). Qed.

Lemma Selecting_initial : Selecting initialSelection.
Proof.
  split; [reflexivity|]. split; [reflexivity|]. split; [reflexivity|].
  split; [simpl; lia|].
  intros col _. rewrite initialSelection_empty.
  split; [simpl; lia|split; [constructor|intros num []]].
Qed.

Lemma setAdd_next c : setAdd c (seq 0 c) = seq 0 (S c).
Proof.
  unfold setAdd.
  assert (E : existsb (Nat.eqb c) (seq 0 c) = false).
  { apply not_true_is_false. intros H. apply existsb_exists in H.
    destruct H as (x & Hx & Hc). apply in_seq in Hx. apply Nat.eqb_eq in Hc. lia. }
  rewrite E. now rewrite seq_S.
Qed.

(** The first sweep visits the columns one after the other until fifteen
    numbers are chosen. *)
Lemma sweep_first n : forall c st rnd,
  c + n = 9 -> Selecting st -> columnsToUse st = seq 0 c ->
  (forall c', c <= c' -> nth c' (columnNumbers st) [] = []) ->
  Selecting (fst (sweep (seq c n) st rnd)) /\
  (totalNumbers (fst (sweep (seq c n) st rnd)) = 15%Z \/
   columnsToUse (fst (sweep (seq c n) st rnd)) = seq 0 9).
Proof.
  induction n as [|n IH]; intros c st rnd Hc Hst Hused Hempty; simpl.
  - split; auto. right. assert (c = 9) by lia. now subst c.
  - unfold targetNumbers.
    destruct (Z.ltb_spec (totalNumbers st) 15) as [Hlt|Hge].
    + pose proof (Selecting_count st c Hst) as Hcount.
      rewrite (Hempty c (le_n c)) in Hcount. simpl in Hcount.
      rewrite Hcount. simpl.
      pose proof (addToColumn_spec c st rnd Hst) as Hadd.
      destruct (addToColumn c st rnd) as [st1 rnd1]. simpl in Hadd.
      destruct Hadd as (Hst1 & Hused1 & Hother); try lia.
      apply IH; auto; try lia.
      * rewrite Hused1, Hused. apply setAdd_next.
      * intros c' Hc'. rewrite Hother by lia. apply Hempty. lia.
    + simpl. split; auto. left. destruct Hst as (_ & _ & _ & Hle & _). lia.
Qed.

Lemma selectLoop_spec fuel rnd :
  1 <= fuel ->
  exists st rnd',
    selectLoop fuel initialSelection rnd = Some (st, rnd') /\ Selecting st.
Proof.
  intros Hfuel. destruct fuel as [|fuel]; [lia|].
  pose proof (sweep_first 9 0 initialSelection rnd eq_refl Selecting_initial eq_refl)
    as Hsweep.
  cbn [selectLoop].
  change (totalNumbers initialSelection <? targetNumbers)%Z with true.
  cbv iota.
  destruct (sweep (seq 0 9) initialSelection rnd) as [st1 rnd1]. simpl in Hsweep.
  destruct Hsweep as (Hst1 & Hdone).
  { intros c' _. apply initialSelection_empty. }
  destruct (Nat.eqb_spec (length (columnsToUse st1)) 9) as [_|Hne].
  - now exists st1, rnd1.
  - destruct Hdone as [Hdone|Hdone].
    + exists st1, rnd1. split; auto.
      destruct fuel; simpl; rewrite Hdone; reflexivity.
    + rewrite Hdone in Hne. now elim Hne.
Qed.

Lemma full_columns (numbers : list (list Z)) :
  length numbers = 9 ->
  (forall c, c < 9 -> 3 <= length (nth c numbers [])) ->
  27 <= length (concat numbers).
Proof.
  intros Hlen Hfull.
  do 9 (destruct numbers as [|? numbers]; [discriminate|]).
  destruct numbers; [|discriminate].
  pose proof (Hfull 0). pose proof (Hfull 1). pose proof (Hfull 2).
  pose proof (Hfull 3). pose proof (Hfull 4). pose proof (Hfull 5).
  pose proof (Hfull 6). pose proof (Hfull 7). pose proof (Hfull 8).
  simpl in *. rewrite !length_app. simpl. lia.
Qed.

Lemma addOne_spec n : forall c st rnd,
  c + n = 9 -> Selecting st -> (totalNumbers st < 15)%Z ->
  (forall c', c' < c -> 3 <= length (nth c' (columnNumbers st) [])) ->
  Selecting (fst (addOne (seq c n) st rnd)) /\
  totalNumbers (fst (addOne (seq c n) st rnd)) = (totalNumbers st + 1)%Z.
Proof.
  induction n as [|n IH]; intros c st rnd Hc Hst Hneed Hfull; simpl.
  - exfalso. pose proof Hst as (Hlen & _ & Htot & _).
    pose proof (full_columns (columnNumbers st) Hlen) as H27.
    assert (27 <= length (concat (columnNumbers st)))
      by (apply H27; intros; apply Hfull; lia).
    lia.
  - unfold targetNumbers.
    pose proof (Selecting_count st c Hst) as Hcount.
    destruct (Z.ltb_spec (nth c (columnCounts st) 0%Z) 3) as [Hroom|Hno];
      destruct (Z.ltb_spec (totalNumbers st) 15) as [_|?]; try lia; simpl.
    + set (chosen := nth c (columnNumbers st) []) in *.
      pose proof (availableNumbers_many c chosen) as Hmany.
      destruct (Nat.ltb_spec 0 (length (availableNumbers c chosen))) as [Hsome|?];
        [|lia].
      simpl.
      set (randomNum :=
             nth (rnd 0 mod length (availableNumbers c chosen))
                 (availableNumbers c chosen) 0%Z).
      assert (Hin : In randomNum (availableNumbers c chosen)).
      { apply nth_In. apply Nat.mod_upper_bound. lia. }
      apply availableNumbers_In in Hin.
      split; [|reflexivity].
      apply (Selecting_update st c _ [randomNum]); auto; try lia.
      * apply sortNumbers_perm.
      * repeat constructor. intros [].
      * intros x [<-|[]]. exact Hin.
      * fold chosen. simpl. lia.
      * simpl. lia.
    + apply IH; auto; try lia.
      intros c' Hc'. destruct (Nat.eq_dec c' c) as [->|]; [lia|].
      apply Hfull. lia.
Qed.

Lemma addLoop_spec fuel : forall st rnd,
  Selecting st -> (15 - totalNumbers st <= Z.of_nat fuel)%Z ->
  exists st' rnd',
    addLoop fuel st rnd = Some (st', rnd') /\ Selecting st' /\
    totalNumbers st' = 15%Z.
Proof.
  induction fuel as [|fuel IH]; intros st rnd Hst Hfuel;
    pose proof Hst as (_ & _ & _ & Hle & _); cbn [addLoop]; unfold targetNumbers;
    destruct (Z.ltb_spec (totalNumbers st) 15) as [Hlt|Hge].
  - lia.
  - exists st, rnd. split; [reflexivity|split; [assumption|lia]].
  - pose proof (addOne_spec 9 0 st rnd eq_refl Hst Hlt) as Hone.
    destruct (addOne (seq 0 9) st rnd) as [st1 rnd1]. simpl in Hone.
    destruct Hone as (Hst1 & Htot1); [intros; lia|].
    apply IH; auto. lia.
  - exists st, rnd. split; [reflexivity|split; [assumption|lia]].
Qed.

Lemma removeLoop_done fuel st :
  totalNumbers st = 15%Z -> removeLoop fuel st = Some st.
Proof.
  intros H. destruct fuel; simpl; rewrite H; reflexivity.
Qed.

Lemma inColumnRange_nonzero col num :
  col < 9 -> inColumnRange col num -> (1 <= num <= 90)%Z.
Proof.
  unfold inColumnRange. intros Hcol.
  do 9 (destruct col as [|col]; [simpl; lia|]). lia.
Qed.

Lemma in_concat_column (numbers : list (list Z)) num :
  In num (concat numbers) ->
  exists col, col < length numbers /\ In num (nth col numbers []).
Proof.
  intros H. apply in_concat in H. destruct H as (ns & Hns & Hnum).
  destruct (In_nth _ _ [] Hns) as (col & Hcol & E).
  exists col. split; auto. now rewrite E.
Qed.

Lemma Selecting_WellChosen st :
  Selecting st -> totalNumbers st = 15%Z -> WellChosen (columnNumbers st).
Proof.
  intros (Hlen & Hcounts & Htot & Hle & Hcols) H15.
  split; [split|..]; auto.
  - intros col Hcol. now apply Hcols.
  - lia.
  - intros num Hnum. apply in_concat_column in Hnum.
    destruct Hnum as (col & Hcol & Hin). rewrite Hlen in Hcol.
    apply Hcols in Hin; auto.
    apply inColumnRange_nonzero in Hin; auto. lia.
  - intros col num Hcol. now apply Hcols.
  - intros col Hcol. now apply Hcols.
Qed.

(** The selection loops end, with a well-chosen selection. *)
Lemma selection_spec fuel rnd :
  15 <= fuel ->
  exists st1 rnd1 st2 rnd2,
    selectLoop fuel initialSelection rnd = Some (st1, rnd1) /\
    addLoop fuel st1 rnd1 = Some (st2, rnd2) /\
    removeLoop fuel st2 = Some st2 /\
    WellChosen (columnNumbers st2).
Proof.
  intros Hfuel.
  destruct (selectLoop_spec fuel rnd) as (st1 & rnd1 & E1 & Hst1); [lia|].
  destruct (addLoop_spec fuel st1 rnd1 Hst1) as (st2 & rnd2 & E2 & Hst2 & H15).
  { destruct Hst1 as (_ & _ & Htot & _). lia. }
  exists st1, rnd1, st2, rnd2.
  split; [assumption|split; [assumption|split]].
  - now apply removeLoop_done.
  - now apply Selecting_WellChosen.
Qed.

(** ** Both placement loops are round-robin *)

Import RoundRobin.

(** Case analysis on a count below fifteen. *)
Ltac below n k :=
  lazymatch n with
  | O => exfalso; lia
  | S ?m => let k' := fresh "k" in destruct k as [|k']; [|below m k']
  end.

Ltac first_fifteen k := below 15 k.

Lemma counts_step k :
  k < 15 ->
  assign (counts k) (k mod 3) (nth (k mod 3) (counts k) 0 + 1)%Z = counts (S k).
Proof. intros H. first_fifteen k; reflexivity. Qed.

Lemma findBestRow_counts k grid col :
  k < 15 -> length grid = 3 -> cell 0%Z grid (k mod 3) col = 0%Z ->
  findBestRow grid (counts k) col = Some (k mod 3).
Proof.
  intros Hk Hlen.
  destruct grid as [|r0 [|r1 [|r2 [|]]]]; try discriminate.
  unfold findBestRow, cell.
  first_fifteen k; cbn; intros ->; cbn;
    repeat match goal with
           | |- context [(?x =? 0)%Z] => destruct (x =? 0)%Z; cbn
           end; reflexivity.
Qed.

Lemma leastFilledRow_counts k :
  k < 15 ->
  Display.leastFilledRow (counts k) = k mod 3 /\
  (nth (k mod 3) (counts k) 0 <? 5)%Z = true.
Proof. intros H. first_fifteen k; split; reflexivity. Qed.

Lemma setCell_length {A : Type} (grid : list (list A)) row col v :
  length (setCell grid row col v) = length grid.
Proof. unfold setCell. apply assign_length. Qed.

Lemma placeNumber_step k grid num col :
  k < 15 -> length grid = 3 -> cell 0%Z grid (k mod 3) col = 0%Z ->
  placeNumber (grid, counts k) (num, col) =
  (setCell grid (k mod 3) col num, counts (S k)).
Proof.
  intros Hk Hlen Hcell. unfold placeNumber.
  rewrite findBestRow_counts by assumption. now rewrite counts_step.
Qed.

Lemma placeManually_step k (grid : list (list number)) num col :
  k < 15 ->
  Display.placeManually (grid, counts k) (num, col) =
  (setCell grid (k mod 3) col num, counts (S k)).
Proof.
  intros Hk. unfold Display.placeManually.
  destruct (leastFilledRow_counts k Hk) as [-> ->]. now rewrite counts_step.
Qed.

Lemma placeNumber_roundRobin entries : forall k grid,
  k + length entries <= 15 -> length grid = 3 ->
  NoDup (positions k entries) ->
  (forall p, In p (positions k entries) -> cell 0%Z grid (fst p) (snd p) = 0%Z) ->
  fold_left placeNumber entries (grid, counts k) =
  (place k grid entries, counts (k + length entries)).
Proof.
  induction entries as [|[num col] rest IH]; intros k grid Hk Hlen Hnd Hempty;
    cbn [fold_left place positions length] in *.
  - now rewrite Nat.add_0_r.
  - inversion Hnd as [|? ? Hnotin Hnd']; subst.
    rewrite placeNumber_step; auto; try lia.
    + rewrite IH; auto; try lia.
      * now rewrite Nat.add_succ_r.
      * now rewrite setCell_length.
      * intros p Hp. rewrite cell_setCell_other.
        -- apply Hempty. now right.
        -- intros E. apply Hnotin. destruct p. simpl in E. now rewrite E in Hp.
    + apply (Hempty (k mod 3, col)). now left.
Qed.

Lemma placeManually_roundRobin entries : forall k (grid : list (list number)),
  k + length entries <= 15 ->
  fold_left Display.placeManually entries (grid, counts k) =
  (place k grid entries, counts (k + length entries)).
Proof.
  induction entries as [|[num col] rest IH]; intros k grid Hk;
    cbn [fold_left place length] in *.
  - now rewrite Nat.add_0_r.
  - rewrite placeManually_step by lia.
    rewrite IH by lia. now rewrite Nat.add_succ_r.
Qed.

(** ** What round-robin placement leaves in the grid *)

Section PlaceFacts.

Context {A : Type} (empty : A) (filled : A -> bool).

Lemma setCell_numbers (grid : list (list A)) row col v :
  shaped grid -> row < 3 -> col < 9 ->
  filled (cell empty grid row col) = false -> filled v = true ->
  Permutation (filter filled (concat (setCell grid row col v)))
              (v :: filter filled (concat grid)).
Proof.
  intros [H3 H9] Hrow Hcol Hfree Hv. unfold setCell, cell in *.
  assert (Hr : row < length grid) by lia.
  assert (Hc : col < length (nth row grid []))
    by (rewrite H9; [lia|now apply nth_In]).
  destruct (assign_split grid row [] Hr) as (b & a & E & _ & W).
  destruct (assign_split (nth row grid []) col empty Hc)
    as (b' & a' & E' & _ & W').
  rewrite W, W'. set (old := nth col (nth row grid []) empty) in *.
  set (line := nth row grid []) in *. clearbody old line. subst grid line.
  rewrite !concat_app. simpl. rewrite !filter_app. simpl.
  rewrite Hfree, Hv.
  rewrite <- ?app_assoc. simpl.
  rewrite !(app_assoc (filter filled (concat b))).
  symmetry. apply Permutation_middle.
Qed.

Lemma setCell_row (grid : list (list A)) row col v r :
  shaped grid -> row < 3 -> col < 9 ->
  filled (cell empty grid row col) = false -> filled v = true ->
  length (filter filled (nth r (setCell grid row col v) [])) =
  length (filter filled (nth r grid [])) + (if r =? row then 1 else 0).
Proof.
  intros [H3 H9] Hrow Hcol Hfree Hv. unfold setCell, cell in *.
  destruct (Nat.eqb_spec r row) as [->|Hne].
  - rewrite nth_assign_same by lia.
    assert (Hc : col < length (nth row grid []))
      by (rewrite H9; [lia|apply nth_In; lia]).
    destruct (assign_split (nth row grid []) col empty Hc)
      as (b' & a' & E' & _ & W').
    rewrite W'. set (old := nth col (nth row grid []) empty) in *.
    rewrite E'. clearbody old.
    rewrite !filter_app. simpl. rewrite Hfree, Hv.
    rewrite !length_app. simpl. lia.
  - rewrite nth_assign_other by auto. lia.
Qed.

Lemma Ready_step k (grid : list (list A)) num col rest :
  Ready empty filled k grid ((num, col) :: rest) ->
  k mod 3 < 3 /\ col < 9 /\ filled num = true /\
  filled (cell empty grid (k mod 3) col) = false /\
  Ready empty filled (S k) (setCell grid (k mod 3) col num) rest.
Proof.
  intros (Hshape & Hnd & Hfree & Hentries). cbn [positions] in *.
  inversion Hnd as [|? ? Hnotin Hnd']; subst.
  destruct (Hentries (num, col)) as [Hnum Hcol]; [now left|]. cbn [fst snd] in *.
  split; [apply Nat.mod_upper_bound; lia|].
  split; [assumption|]. split; [assumption|].
  split; [apply (Hfree (k mod 3, col)); now left|].
  split; [now apply shaped_setCell|].
  split; [assumption|]. split.
  - intros p Hp. rewrite cell_setCell_other.
    + apply Hfree. now right.
    + intros E. apply Hnotin. destruct p. cbn [fst snd] in E. now rewrite E in Hp.
  - intros e He. apply Hentries. now right.
Qed.

Lemma place_shaped entries : forall k (grid : list (list A)),
  shaped grid -> shaped (place k grid entries).
Proof.
  induction entries as [|[num col] rest IH]; intros k grid H; simpl; auto.
  apply IH. now apply shaped_setCell.
Qed.

Lemma place_numbers entries : forall k (grid : list (list A)),
  Ready empty filled k grid entries ->
  Permutation (filter filled (concat (place k grid entries)))
              (map fst entries ++ filter filled (concat grid)).
Proof.
  induction entries as [|[num col] rest IH]; intros k grid Hready;
    cbn [place map fst app].
  - reflexivity.
  - pose proof Hready as (Hshape & _).
    apply Ready_step in Hready.
    destruct Hready as (Hrow & Hcol & Hnum & Hfree & Hready).
    rewrite (IH _ _ Hready).
    rewrite (setCell_numbers grid (k mod 3) col num); auto.
    symmetry. apply Permutation_middle.
Qed.

Lemma place_rows entries : forall k (grid : list (list A)) r,
  Ready empty filled k grid entries ->
  length (filter filled (nth r (place k grid entries) [])) =
  length (filter filled (nth r grid []))
  + length (filter (fun i => i mod 3 =? r) (seq k (length entries))).
Proof.
  induction entries as [|[num col] rest IH]; intros k grid r Hready;
    cbn [place length seq filter].
  - simpl. lia.
  - pose proof Hready as (Hshape & _).
    apply Ready_step in Hready.
    destruct Hready as (Hrow & Hcol & Hnum & Hfree & Hready).
    rewrite (IH _ _ _ Hready).
    rewrite (setCell_row grid (k mod 3) col num r); auto.
    rewrite (Nat.eqb_sym r). destruct (k mod 3 =? r); simpl; lia.
Qed.

Lemma place_cells entries : forall k (grid : list (list A)) r c,
  Ready empty filled k grid entries ->
  cell empty (place k grid entries) r c = cell empty grid r c \/
  In (cell empty (place k grid entries) r c, c) entries.
Proof.
  induction entries as [|[num col] rest IH]; intros k grid r c Hready;
    cbn [place].
  - now left.
  - pose proof Hready as ((H3 & H9) & _).
    apply Ready_step in Hready.
    destruct Hready as (Hrow & Hcol & Hnum & Hfree & Hready).
    destruct (IH _ _ r c Hready) as [E|Hin].
    + rewrite E.
      destruct (Nat.eq_dec r (k mod 3)) as [->|Hr];
        [destruct (Nat.eq_dec c col) as [->|Hc]|].
      * right. left. rewrite cell_setCell_same; auto; try lia.
        rewrite H9; [lia|apply nth_In; lia].
      * left. apply cell_setCell_other. congruence.
      * left. apply cell_setCell_other. congruence.
    + right. now right.
Qed.

End PlaceFacts.

(** ** The positions of a per-column selection do not repeat *)

Lemma mod3_next k :
  k mod 3 < 3 /\ S k mod 3 <> k mod 3 /\ S (S k) mod 3 <> k mod 3 /\
  S (S k) mod 3 <> S k mod 3.
Proof.
  pose proof (Nat.div_mod_eq k 3). pose proof (Nat.div_mod_eq (S k) 3).
  pose proof (Nat.div_mod_eq (S (S k)) 3).
  pose proof (Nat.mod_upper_bound k 3). pose proof (Nat.mod_upper_bound (S k) 3).
  pose proof (Nat.mod_upper_bound (S (S k)) 3). lia.
Qed.

Section Positions.

Context {A : Type}.

Lemma positions_app (l1 l2 : list (A * nat)) : forall k,
  positions k (l1 ++ l2) = positions k l1 ++ positions (k + length l1) l2.
Proof.
  induction l1 as [|[x c] t IH]; intros k; cbn [positions app length].
  - now rewrite Nat.add_0_r.
  - rewrite IH. now rewrite Nat.add_succ_r.
Qed.

Lemma positions_column k col (ns : list A) :
  length ns <= 3 ->
  NoDup (positions k (map (fun num => (num, col)) ns)) /\
  forall p, In p (positions k (map (fun num => (num, col)) ns)) -> snd p = col.
Proof.
  intros Hlen. destruct (mod3_next k) as (_ & H1 & H2 & H3).
  destruct ns as [|a [|b [|c [|d ns]]]]; cbn [map positions];
    [..|simpl in Hlen; lia]; split;
    repeat (constructor; [cbn [In]; intuition congruence|]);
    try constructor;
    cbn [In]; intros p Hp; intuition (subst; reflexivity).
Qed.

Lemma positions_entries (numbers : list (list A)) cols : forall k,
  NoDup cols ->
  (forall c, In c cols -> length (nth c numbers []) <= 3) ->
  NoDup (positions k (entriesOf numbers cols)) /\
  forall p, In p (positions k (entriesOf numbers cols)) -> In (snd p) cols.
Proof.
  induction cols as [|col cols IH]; intros k Hnd Hcap; cbn [entriesOf flat_map].
  - split; [constructor|intros p []].
  - inversion Hnd as [|? ? Hnotin Hnd']; subst.
    rewrite positions_app.
    destruct (positions_column k col (nth col numbers [])) as [Hc1 Hc2];
      [apply Hcap; now left|].
    destruct (IH (k + length (map (fun num => (num, col)) (nth col numbers [])))
                Hnd') as [Hr1 Hr2]; [intros; apply Hcap; now right|].
    split.
    + apply NoDup_app; auto.
      intros p Hp Hp'. apply Hc2 in Hp. apply Hr2 in Hp'. congruence.
    + intros p Hp. apply in_app_or in Hp. destruct Hp as [Hp|Hp].
      * left. symmetry. now apply Hc2.
      * right. now apply Hr2.
Qed.

Lemma entriesOf_In (numbers : list (list A)) cols num col :
  In (num, col) (entriesOf numbers cols) <->
  In col cols /\ In num (nth col numbers []).
Proof.
  unfold entriesOf. rewrite in_flat_map. split.
  - intros (c & Hc & Hin). apply in_map_iff in Hin.
    destruct Hin as (n & E & Hn). inversion E; subst. auto.
  - intros [Hc Hn]. exists col. split; auto. apply in_map_iff. now exists num.
Qed.

Lemma entriesOf_numbers (numbers : list (list A)) :
  length numbers = 9 -> map fst (entriesOf numbers (seq 0 9)) = concat numbers.
Proof.
  intros Hlen.
  do 9 (destruct numbers as [|? numbers]; [discriminate|]).
  destruct numbers; [|discriminate].
  cbn [entriesOf flat_map seq nth concat].
  rewrite !map_app, !map_map. cbn [fst]. now rewrite !map_id.
Qed.

Lemma cell_blank (e : A) row col : cell e (repeat (repeat e 9) 3) row col = e.
Proof.
  unfold cell.
  do 3 (destruct row as [|row]; [apply (nth_repeat e 9 col)|]).
  simpl. destruct row, col; reflexivity.
Qed.

Lemma shaped_blank (e : A) : shaped (repeat (repeat e 9) 3).
Proof.
  split; [reflexivity|]. intros row Hrow. apply repeat_spec in Hrow. now subst.
Qed.

(** The entries of a selection are ready to be placed on the empty grid. *)
Lemma Ready_blank (e : A) (filled : A -> bool) (numbers : list (list A)) :
  filled e = false ->
  (forall c, c < 9 -> length (nth c numbers []) <= 3) ->
  (forall num, In num (concat numbers) -> filled num = true) ->
  Ready e filled 0 (repeat (repeat e 9) 3) (entriesOf numbers (seq 0 9)).
Proof.
  intros He Hcap Hfilled.
  destruct (positions_entries numbers (seq 0 9) 0 (seq_NoDup 9 0)) as [Hnd _].
  { intros c Hc. apply Hcap. apply in_seq in Hc. lia. }
  split; [apply shaped_blank|]. split; [assumption|]. split.
  - intros p _. now rewrite cell_blank.
  - intros [num col] Hin. apply entriesOf_In in Hin. destruct Hin as [Hc Hn].
    apply in_seq in Hc. cbn [fst snd]. split; [|lia].
    apply Hfilled. apply in_concat. exists (nth col numbers []). split; auto.
    destruct (Nat.lt_ge_cases col (length numbers)).
    + now apply nth_In.
    + rewrite nth_overflow in Hn by assumption. destruct Hn.
Qed.

End Positions.

Lemma rows_of_fifteen r :
  r < 3 -> length (filter (fun i => i mod 3 =? r) (seq 0 15)) = 5.
Proof. intros H. do 3 (destruct r as [|r]; [reflexivity|]). lia. Qed.

(** ** The generator's placement and its self-check *)

Lemma insertByCol_front x l :
  (forall y, In y l -> snd x <= snd y) -> insertByCol x l = x :: l.
Proof.
  destruct l as [|y t]; simpl; auto. intros H.
  specialize (H y (or_introl eq_refl)). apply Nat.leb_le in H. now rewrite H.
Qed.

Lemma sortByCol_column (ns : list Z) c rest :
  sortByCol rest = rest -> (forall y, In y rest -> c <= snd y) ->
  sortByCol (map (fun num => (num, c)) ns ++ rest) =
  map (fun num => (num, c)) ns ++ rest.
Proof.
  intros Hrest Hge. induction ns as [|x t IH]; cbn [map app]; auto.
  change (sortByCol ((x, c) :: map (fun num => (num, c)) t ++ rest))
    with (insertByCol (x, c) (sortByCol (map (fun num => (num, c)) t ++ rest))).
  rewrite IH. apply insertByCol_front.
  intros y Hy. apply in_app_or in Hy. destruct Hy as [Hy|Hy].
  - apply in_map_iff in Hy. destruct Hy as (n & <- & _). simpl. lia.
  - simpl. now apply Hge.
Qed.

Lemma sortByCol_entries (numbers : list (list Z)) n : forall c,
  sortByCol (entriesOf numbers (seq c n)) = entriesOf numbers (seq c n).
Proof.
  induction n as [|n IH]; intros c; cbn [seq entriesOf flat_map]; auto.
  apply sortByCol_column; [apply IH|].
  intros [num col] Hin. apply entriesOf_In in Hin. destruct Hin as [Hc _].
  apply in_seq in Hc. simpl. lia.
Qed.

(** [allNumbers] is built in column order: its sort changes nothing. *)
Lemma sortByCol_collect numbers : sortByCol (collect numbers) = collect numbers.
Proof. apply (sortByCol_entries numbers 9 0). Qed.

Lemma nonEmpty_true v : nonEmpty v = true <-> v <> 0%Z.
Proof. unfold nonEmpty. rewrite negb_true_iff. apply Z.eqb_neq. Qed.

Lemma Selected_entries numbers :
  Selected numbers -> length (entriesOf numbers (seq 0 9)) = 15.
Proof.
  intros H. rewrite <- (length_map fst), entriesOf_numbers.
  - apply (selected_total _ H).
  - apply (selected_columns _ H).
Qed.

Lemma Selected_Ready numbers :
  Selected numbers ->
  Ready 0%Z nonEmpty 0 emptyGrid (entriesOf numbers (seq 0 9)).
Proof.
  intros H. apply Ready_blank; [reflexivity|apply (selected_capacity _ H)|].
  intros num Hnum. apply nonEmpty_true. now apply (selected_nonzero _ H).
Qed.

(** The placement loop of the generator is the round-robin placement. *)
Lemma placeAll_roundRobin numbers :
  Selected numbers ->
  placeAll numbers =
  (place 0 emptyGrid (entriesOf numbers (seq 0 9)), [5; 5; 5]%Z).
Proof.
  intros H. unfold placeAll. rewrite sortByCol_collect.
  change (collect numbers) with (entriesOf numbers (seq 0 9)).
  change [0; 0; 0]%Z with (counts 0).
  destruct (Selected_Ready numbers H) as (Hshape & Hnd & Hfree & _).
  rewrite placeNumber_roundRobin; auto.
  - now rewrite (Selected_entries numbers H).
  - rewrite (Selected_entries numbers H). lia.
  - intros p Hp. specialize (Hfree p Hp).
    unfold nonEmpty in Hfree. apply negb_false_iff in Hfree.
    now apply Z.eqb_eq.
Qed.

Lemma placed_numbers numbers :
  Selected numbers ->
  Permutation (numbersOf (fst (placeAll numbers))) (concat numbers).
Proof.
  intros H. rewrite placeAll_roundRobin by assumption. unfold numbersOf. cbn [fst].
  rewrite (place_numbers 0%Z nonEmpty _ _ _ (Selected_Ready numbers H)).
  rewrite entriesOf_numbers by apply (selected_columns _ H).
  change (filter nonEmpty (concat emptyGrid)) with (@nil Z).
  now rewrite app_nil_r.
Qed.

Lemma placed_rows numbers row :
  Selected numbers -> row < 3 ->
  length (rowNumbers (fst (placeAll numbers)) row) = 5.
Proof.
  intros H Hrow. rewrite placeAll_roundRobin by assumption. unfold rowNumbers.
  cbn [fst].
  rewrite (place_rows 0%Z nonEmpty _ _ _ _ (Selected_Ready numbers H)).
  rewrite (Selected_entries numbers H), rows_of_fifteen by assumption.
  unfold emptyGrid. 
  do 3 (destruct row as [|row]; [reflexivity|]). lia.
Qed.

Lemma placed_cells numbers row col :
  Selected numbers -> col < 9 ->
  cell 0%Z (fst (placeAll numbers)) row col <> 0%Z ->
  In (cell 0%Z (fst (placeAll numbers)) row col) (nth col numbers []).
Proof.
  intros H Hcol. rewrite placeAll_roundRobin by assumption. cbn [fst].
  intros Hne.
  destruct (place_cells 0%Z nonEmpty _ 0 emptyGrid row col
              (Selected_Ready numbers H)) as [E|Hin].
  - rewrite E in Hne. unfold emptyGrid in Hne. now rewrite cell_blank in Hne.
  - now apply entriesOf_In in Hin.
Qed.

Lemma placed_shaped numbers : Selected numbers -> shaped (fst (placeAll numbers)).
Proof.
  intros H. rewrite placeAll_roundRobin by assumption. cbn [fst].
  apply place_shaped, shaped_blank.
Qed.

Lemma inColumnRange_bounds col num :
  col < 9 -> inColumnRange col num ->
  (10 * Z.of_nat col <= num)%Z /\
  ((num <= 10 * Z.of_nat col + 9)%Z \/ col = 8) /\ (1 <= num <= 90)%Z.
Proof.
  unfold inColumnRange. intros Hcol.
  do 9 (destruct col as [|col]; [simpl; lia|]). lia.
Qed.

Lemma NoDup_columns (l : list (list Z)) : forall c,
  c + length l <= 9 ->
  (forall i, i < length l ->
     NoDup (nth i l []) /\
     forall num, In num (nth i l []) -> inColumnRange (c + i) num) ->
  NoDup (concat l).
Proof.
  induction l as [|x t IH]; intros c Hlen Hcols; simpl in *.
  - constructor.
  - apply NoDup_app.
    + apply (Hcols 0). lia.
    + apply (IH (S c)); [lia|]. intros i Hi.
      destruct (Hcols (S i)) as [Hnd Hin]; [lia|].
      split; auto. intros num Hnum. rewrite Nat.add_succ_comm. now apply Hin.
    + intros a Ha Hat. apply in_concat_column in Hat.
      destruct Hat as (i & Hi & Hai).
      destruct (Hcols 0) as [_ H0]; [lia|]. apply H0 in Ha.
      destruct (Hcols (S i)) as [_ HS]; [lia|]. apply HS in Hai.
      apply inColumnRange_bounds in Ha; [|lia].
      apply inColumnRange_bounds in Hai; [|lia]. lia.
Qed.

Lemma WellChosen_NoDup numbers : WellChosen numbers -> NoDup (concat numbers).
Proof.
  intros [Hsel Hranges Hdistinct].
  pose proof (selected_columns _ Hsel) as Hlen.
  apply (NoDup_columns numbers 0); [lia|].
  intros i Hi. rewrite Hlen in Hi. split; [now apply Hdistinct|].
  intros num Hnum. now apply Hranges.
Qed.

Lemma filter_map_length {A B : Type} (f : B -> bool) (g : A -> B) (l : list A) :
  length (filter f (map g l)) = length (filter (fun x => f (g x)) l).
Proof.
  induction l as [|x t IH]; simpl; auto.
  destruct (f (g x)); simpl; now rewrite IH.
Qed.

(** A well-chosen selection is laid out as a valid ticket. *)
Lemma placed_Valid numbers :
  WellChosen numbers -> Valid (fst (placeAll numbers)).
Proof.
  intros Hwc. pose proof (chosen_selected _ Hwc) as Hsel.
  pose proof (placed_numbers numbers Hsel) as Hperm.
  split.
  - now apply placed_shaped.
  - rewrite (Permutation_length Hperm). apply (selected_total _ Hsel).
  - intros row Hrow. now apply placed_rows.
  - intros col _. unfold columnValues.
    etransitivity; [apply filter_length_le|].
    rewrite length_map. now rewrite (proj1 (placed_shaped numbers Hsel)).
  - intros row col _ Hcol Hne.
    apply (chosen_ranges _ Hwc); auto. now apply placed_cells.
  - apply (Permutation_NoDup (Permutation_sym Hperm)).
    now apply WellChosen_NoDup.
Qed.

(** ** A valid grid passes [validateTicket] *)

Lemma firstError_none {A : Type} (check : A -> option string) l :
  (forall x, In x l -> check x = None) -> firstError check l = None.
Proof.
  induction l as [|x t IH]; intros H; simpl; auto.
  rewrite (H x) by now left. apply IH. intros y Hy. apply H. now right.
Qed.

Lemma distinct_NoDup l : NoDup l -> distinct l = l.
Proof.
  induction 1 as [|x l Hx Hnd IH]; simpl; auto.
  destruct (includes l x) eqn:E.
  - apply includes_In in E. contradiction.
  - now rewrite IH.
Qed.

Lemma validateTicket_Valid grid : Valid grid -> validateTicket grid = None.
Proof.
  intros [Hshape Htotal Hrows Hcols Hranges Hdistinct].
  unfold validateTicket.
  rewrite firstError_none.
  2:{ intros row Hrow. apply in_seq in Hrow.
      change (filter nonEmpty (nth row grid [])) with (rowNumbers grid row).
      rewrite Hrows by lia. reflexivity. }
  rewrite firstError_none.
  2:{ intros col Hcol. apply in_seq in Hcol.
      rewrite <- (filter_map_length nonEmpty (fun row => nth col row 0%Z)).
      change (filter nonEmpty (map (fun row => nth col row 0%Z) grid))
        with (columnValues grid col).
      specialize (Hcols col ltac:(lia)).
      destruct (Nat.ltb_spec 3 (length (columnValues grid col)));
        [lia|reflexivity]. }
  change (filter nonEmpty (concat grid)) with (numbersOf grid).
  rewrite Htotal. cbn [Nat.eqb negb].
  rewrite firstError_none.
  2:{ intros col Hcol. apply in_seq in Hcol.
      destruct (nth col columnRanges (0, 0)%Z) as [min max] eqn:Erange.
      apply firstError_none. intros row Hrow. apply in_seq in Hrow.
      destruct (nonEmpty (cell 0%Z grid row col)) eqn:Ecell; [|reflexivity].
      apply nonEmpty_true in Ecell.
      specialize (Hranges row col ltac:(lia) ltac:(lia) Ecell).
      unfold inColumnRange in Hranges. rewrite Erange in Hranges. simpl in Hranges.
      destruct (Z.ltb_spec (cell 0%Z grid row col) min); [lia|].
      destruct (Z.ltb_spec max (cell 0%Z grid row col)); [lia|]. reflexivity. }
  rewrite (distinct_NoDup _ Hdistinct), ?Htotal. reflexivity.
Qed.

(** ** The flat list *)

Lemma nth_all {A : Type} (d : A) (l : list A) :
  map (fun i => nth i l d) (seq 0 (length l)) = l.
Proof.
  induction l as [|x t IH]; simpl; auto.
  f_equal. rewrite <- seq_shift, map_map. exact IH.
Qed.

Lemma filter_flat_map {A : Type} (p : A -> bool) (l : list A) :
  flat_map (fun x => if p x then [x] else []) l = filter p l.
Proof.
  induction l as [|x t IH]; simpl; auto.
  destruct (p x); simpl; now rewrite IH.
Qed.

Lemma flat_map_nth {A B : Type} (f : A -> list B) (d : A) (l : list A) :
  flat_map (fun i => f (nth i l d)) (seq 0 (length l)) = flat_map f l.
Proof.
  transitivity (flat_map f (map (fun i => nth i l d) (seq 0 (length l)))).
  - rewrite !flat_map_concat_map. now rewrite map_map.
  - now rewrite nth_all.
Qed.

Lemma flatten_numbersOf grid : shaped grid -> flatten grid = numbersOf grid.
Proof.
  intros [H3 H9]. unfold flatten, numbersOf, cell.
  destruct grid as [|r0 [|r1 [|r2 [|]]]]; try discriminate.
  assert (Hrow : forall row, length row = 9 ->
            flat_map (fun col => if nonEmpty (nth col row 0%Z)
                                 then [nth col row 0%Z] else []) (seq 0 9)
            = filter nonEmpty row).
  { intros row Hlen. rewrite <- Hlen, <- filter_flat_map.
    apply (flat_map_nth (fun x => if nonEmpty x then [x] else [])). }
  change (seq 0 3) with [0; 1; 2]. cbn [flat_map nth concat].
  rewrite !Hrow by (apply H9; simpl; auto).
  now rewrite !filter_app, !app_nil_r.
Qed.

(** ** The generator *)

Lemma selectLoop_sound fuel rnd st rnd' :
  selectLoop fuel initialSelection rnd = Some (st, rnd') -> Selecting st.
Proof.
  destruct fuel as [|fuel]; [discriminate|].
  destruct (selectLoop_spec (S fuel) rnd) as (st1 & rnd1 & E & Hst); [lia|].
  rewrite E. now intros [= <- <-].
Qed.

Lemma addLoop_sound fuel : forall st rnd st' rnd',
  Selecting st -> addLoop fuel st rnd = Some (st', rnd') ->
  Selecting st' /\ totalNumbers st' = 15%Z.
Proof.
  induction fuel as [|fuel IH]; intros st rnd st' rnd' Hst;
    pose proof Hst as (_ & _ & _ & Hle & _); cbn [addLoop]; unfold targetNumbers;
    destruct (Z.ltb_spec (totalNumbers st) 15) as [Hlt|Hge];
    try discriminate; try (intros [= <- <-]; split; [assumption|lia]).
  pose proof (addOne_spec 9 0 st rnd eq_refl Hst Hlt) as Hone.
  destruct (addOne (seq 0 9) st rnd) as [st1 rnd1]. simpl in Hone.
  destruct Hone as (Hst1 & _); [intros; lia|].
  now apply IH.
Qed.

(** The ticket laid out from a selection. *)
Lemma generate_cases fuel rnd :
  generateHousieTicket fuel rnd = OutOfFuel \/
  exists numbers rnd',
    WellChosen numbers /\
    generateHousieTicket fuel rnd =
    Normal {| grid := fst (placeAll numbers);
              flatNumbers := sortNumbers (flatten (fst (placeAll numbers))) |}
           rnd'.
Proof.
  unfold generateHousieTicket.
  destruct (selectLoop fuel initialSelection rnd) as [[st1 rnd1]|] eqn:E1;
    [|now left].
  apply selectLoop_sound in E1.
  destruct (addLoop fuel st1 rnd1) as [[st2 rnd2]|] eqn:E2; [|now left].
  apply addLoop_sound in E2; [|assumption]. destruct E2 as [Hst2 H15].
  rewrite (removeLoop_done fuel st2 H15).
  pose proof (Selecting_WellChosen st2 Hst2 H15) as Hwc.
  right. exists (columnNumbers st2), rnd2. split; [assumption|].
  pose proof (validateTicket_Valid _ (placed_Valid _ Hwc)) as Hok.
  destruct (placeAll (columnNumbers st2)) as [grid rowCounts].
  cbn [fst] in *. now rewrite Hok.
Qed.

Lemma generate_total fuel rnd :
  15 <= fuel -> generateHousieTicket fuel rnd <> OutOfFuel.
Proof.
  intros Hfuel. unfold generateHousieTicket.
  destruct (selection_spec fuel rnd Hfuel)
    as (st1 & rnd1 & st2 & rnd2 & -> & -> & -> & _).
  destruct (placeAll (columnNumbers st2)) as [grid rowCounts].
  now destruct (validateTicket grid).
Qed.

(** Fifteen turns of each loop are enough, and the self-check never throws. *)
Lemma generate_returns fuel rnd :
  15 <= fuel ->
  exists ticket rnd', generateHousieTicket fuel rnd = Normal ticket rnd'.
Proof.
  intros Hfuel. destruct (generate_cases fuel rnd) as [E|(numbers & rnd' & _ & E)].
  - now apply generate_total in E.
  - eauto.
Qed.

Lemma generate_valid fuel rnd ticket rnd' :
  generateHousieTicket fuel rnd = Normal ticket rnd' -> Valid (grid ticket).
Proof.
  intros E.
  destruct (generate_cases fuel rnd) as [E'|(numbers & rnd'' & Hwc & E')];
    rewrite E' in E; [discriminate|].
  injection E as <- _. cbn [grid]. now apply placed_Valid.
Qed.

(** C1: every grid that generateHousieTicket returns satisfies invariants 1
    to 5 (fifteen numbers, five in each row, at most three in each column,
    each inside the range of its column, all distinct); and with fifteen
    turns of fuel for its loops the generator does return a grid. *)
Theorem generated_grid_valid fuel rnd :
  (forall ticket rnd',
     generateHousieTicket fuel rnd = Normal ticket rnd' -> Valid (grid ticket)) /\
  (15 <= fuel ->
   exists ticket rnd', generateHousieTicket fuel rnd = Normal ticket rnd').
Proof.
  split; [|apply generate_returns].
  intros ticket rnd'. apply generate_valid.
Qed.

Lemma generated_grid_valid_witness :
  Valid (grid sampleTicket) /\
  exists ticket rnd', generateHousieTicket 15 alwaysOne = Normal ticket rnd'.
Proof.
  destruct (generated_grid_valid 15 alwaysOne) as [Hvalid Hreturns].
  split; [|apply Hreturns; lia].
  apply (Hvalid sampleTicket alwaysOne). vm_compute. reflexivity.
Defined.

Lemma sampleSelection_Selected : Selected sampleSelection.
Proof.
  split; [reflexivity| |reflexivity|].
  - intros col Hcol. do 9 (destruct col as [|col]; [simpl; lia|]). lia.
  - intros num Hnum. simpl in Hnum. intuition (subst; discriminate).
Qed.

(** C3: whatever the selection (nine columns, at most three numbers in a
    column, fifteen numbers in all), the greedy row placement places every
    number, in its own column, and leaves five numbers in each row. *)
Theorem greedy_placement_fills_rows numbers :
  Selected numbers ->
  snd (placeAll numbers) = [5; 5; 5]%Z /\
  Permutation (numbersOf (fst (placeAll numbers))) (concat numbers) /\
  (forall row, row < 3 -> length (rowNumbers (fst (placeAll numbers)) row) = 5) /\
  (forall row col, col < 9 ->
     cell 0%Z (fst (placeAll numbers)) row col <> 0%Z ->
     In (cell 0%Z (fst (placeAll numbers)) row col) (nth col numbers [])).
Proof.
  intros H. split; [now rewrite placeAll_roundRobin|].
  split; [now apply placed_numbers|].
  split; [intros; now apply placed_rows|].
  intros row col Hcol. now apply placed_cells.
Qed.

Lemma greedy_placement_fills_rows_witness :
  snd (placeAll sampleSelection) = [5; 5; 5]%Z /\
  Permutation (numbersOf (fst (placeAll sampleSelection))) (concat sampleSelection).
Proof.
  destruct (greedy_placement_fills_rows sampleSelection sampleSelection_Selected)
    as (Hcounts & Hperm & _).
  now split.
Defined.

(** C4: the source announces numbers in ascending order within each column;
    with a random source whose draws are all 1 the generator returns a grid
    whose second column reads 12, empty, 10 from top to bottom. *)
Theorem generated_columns_not_ascending :
  generateHousieTicket 15 alwaysOne = Normal sampleTicket alwaysOne /\
  columnValues (grid sampleTicket) 1 = [12; 10]%Z /\
  columnsAscending (grid sampleTicket) = false.
Proof. repeat split; vm_compute; reflexivity. Qed.

(** C10: a list whose length is not 15 makes convertFlatToGrid throw, with
    the length in the message, whatever the fuel and with the random source
    untouched: the generator has not run.  A list of fifteen elements gets
    the grid of a generated ticket. *)
Theorem convertFlatToGrid_length fuel flatNumbers rnd :
  (length flatNumbers <> 15 ->
   convertFlatToGrid fuel flatNumbers rnd =
   Throw ("Expected 15 numbers, got " ++ showNat (length flatNumbers))%string rnd) /\
  (length flatNumbers = 15 ->
   convertFlatToGrid fuel flatNumbers rnd =
   match generateHousieTicket fuel rnd with
   | Normal properTicket rnd' => Normal (grid properTicket) rnd'
   | Throw message rnd' => Throw message rnd'
   | OutOfFuel => OutOfFuel
   end).
Proof.
  unfold convertFlatToGrid. split; intros H.
  - apply Nat.eqb_neq in H. now rewrite H.
  - now rewrite H.
Qed.

Lemma convertFlatToGrid_length_witness :
  convertFlatToGrid 0 [ofZ 1; ofZ 2] alwaysOne =
  Throw "Expected 15 numbers, got 2" alwaysOne /\
  convertFlatToGrid 15 (repeat (ofZ 1) 15) alwaysOne =
  Normal (grid sampleTicket) alwaysOne.
Proof.
  split.
  - apply (proj1 (convertFlatToGrid_length 0 [ofZ 1; ofZ 2] alwaysOne)).
    simpl. lia.
  - rewrite (proj2 (convertFlatToGrid_length 15 (repeat (ofZ 1) 15) alwaysOne)).
    + vm_compute. reflexivity.
    + reflexivity.
Defined.

(** What convertFlatToGrid gives for fifteen numbers: never an error, and a
    grid with invariants 1 to 5. *)
Lemma convertFlatToGrid_valid fuel flatNumbers rnd :
  length flatNumbers = 15 -> 15 <= fuel ->
  exists grid rnd',
    convertFlatToGrid fuel flatNumbers rnd = Normal grid rnd' /\ Valid grid.
Proof.
  intros Hlen Hfuel. unfold convertFlatToGrid. rewrite Hlen. cbn [Nat.eqb negb].
  destruct (generate_returns fuel rnd Hfuel) as (ticket & rnd' & E).
  rewrite E. exists (grid ticket), rnd'. split; [reflexivity|].
  now apply (generate_valid fuel rnd ticket rnd').
Qed.

(** C6: the grid convertFlatToGrid returns for a list with four numbers in
    the first column has invariants 1 to 5, but its second column reads 12,
    empty, 10: invariant 6 fails. *)
Theorem convertFlatToGrid_not_ascending :
  convertFlatToGrid 15
    (map ofZ [1; 2; 3; 4; 10; 11; 20; 21; 30; 31; 40; 41; 50; 60; 70]%Z)
    alwaysOne
  = Normal (grid sampleTicket) alwaysOne /\
  Valid (grid sampleTicket) /\
  columnsAscending (grid sampleTicket) = false.
Proof.
  split; [vm_compute; reflexivity|].
  split; [|vm_compute; reflexivity].
  apply (generate_valid 15 alwaysOne sampleTicket alwaysOne).
  vm_compute. reflexivity.
Qed.

(** ** Numbers *)

Import Validator.

Lemma leNum_ofZ a b : leNum (ofZ a) (ofZ b) = (a <=? b)%Z.
Proof.
  unfold leNum, ofZ, Qle_bool, inject_Z; simpl. now rewrite !Z.mul_1_r.
Qed.

Lemma ltNum_ofZ a b : ltNum (ofZ a) (ofZ b) = (a <? b)%Z.
Proof.
  unfold ltNum, ofZ, Qle_bool, inject_Z; simpl. rewrite !Z.mul_1_r.
  now rewrite Z.ltb_antisym.
Qed.

Lemma sameValueZero_ofZ a b : sameValueZero (ofZ a) (ofZ b) = (a =? b)%Z.
Proof.
  unfold sameValueZero, ofZ. destruct (Z.eqb_spec a b) as [->|Hne].
  - apply Qeq_bool_refl.
  - apply not_true_is_false. intros H. apply Qeq_bool_eq in H.
    apply (proj1 (inject_Z_injective a b)) in H. contradiction.
Qed.

Lemma findColumn_bound ranges : forall start num col,
  findColumn ranges start num = Some col ->
  start <= col < start + length ranges.
Proof.
  induction ranges as [|[min max] rest IH]; intros start num col;
    cbn [findColumn length].
  - discriminate.
  - destruct (leNum (ofZ min) num && leNum num (ofZ max)).
    + intros H. injection H as H. lia.
    + intros H. apply IH in H. lia.
Qed.

Lemma columnOf_bound num col : columnOf num = Some col -> col < 9.
Proof. intros H. apply findColumn_bound in H. simpl in H. lia. Qed.

Ltac split_comparisons :=
  repeat match goal with
         | |- context [(?a <=? ?b)%Z] =>
             destruct (Z.leb_spec a b); try lia; cbn [andb]
         end.

Lemma columnOf_ofZ z col :
  col < 9 -> inColumnRange col z -> columnOf (ofZ z) = Some col.
Proof.
  intros Hcol H.
  unfold columnOf, columnRanges, Generator.columnRanges. cbn [findColumn].
  rewrite !leNum_ofZ.
  unfold inColumnRange, Generator.columnRanges in H.
  do 9 (destruct col as [|col];
        [cbn [nth fst snd] in H; split_comparisons; reflexivity|]).
  lia.
Qed.

Lemma columnOf_ofZ_range z col :
  columnOf (ofZ z) = Some col -> inColumnRange col z.
Proof.
  unfold columnOf, columnRanges, Generator.columnRanges. cbn [findColumn].
  rewrite !leNum_ofZ. unfold inColumnRange, Generator.columnRanges.
  split_comparisons; intros Hsome; try discriminate; injection Hsome as <-;
    cbn [nth fst snd]; lia.
Qed.

(** ** The column counts of the validators *)

Lemma countColumns_fold l : countColumns l = fold_left countStep l (repeat 0 9).
Proof. reflexivity. Qed.

Lemma countStep_length counts num :
  length (countStep counts num) = length counts.
Proof.
  unfold countStep. destruct (columnOf num); auto. apply assign_length.
Qed.

Lemma count_fold_length l : forall acc,
  length (fold_left countStep l acc) = length acc.
Proof.
  induction l as [|x t IH]; intros acc; simpl; auto.
  now rewrite IH, countStep_length.
Qed.

Lemma countColumns_length l : length (countColumns l) = 9.
Proof. rewrite countColumns_fold, count_fold_length. reflexivity. Qed.

Lemma count_fold_nth l col : forall acc,
  length acc = 9 ->
  nth col (fold_left countStep l acc) 0 =
  nth col acc 0 + length (filter (inColumn col) l).
Proof.
  induction l as [|x t IH]; intros acc Hacc; simpl; [lia|].
  rewrite IH by now rewrite countStep_length.
  unfold countStep, inColumn.
  destruct (columnOf x) as [c|] eqn:E; [|simpl; lia].
  apply columnOf_bound in E.
  destruct (Nat.eqb_spec c col) as [->|Hne]; simpl.
  - rewrite nth_assign_same by lia. lia.
  - rewrite nth_assign_other by assumption. lia.
Qed.

Lemma countColumns_nth l col :
  nth col (countColumns l) 0 = length (filter (inColumn col) l).
Proof.
  rewrite countColumns_fold, count_fold_nth by reflexivity.
  replace (nth col (repeat 0 9) 0) with 0; [reflexivity|].
  symmetry. apply nth_repeat.
Qed.

Lemma list_sum_assign (l : list nat) i :
  i < length l -> list_sum (assign l i (nth i l 0 + 1)) = list_sum l + 1.
Proof.
  revert i. induction l as [|x t IH]; intros [|i] H; simpl in *; try lia.
  rewrite IH by lia. lia.
Qed.

Lemma count_fold_sum l : forall acc,
  length acc = 9 ->
  list_sum (fold_left countStep l acc) =
  list_sum acc + length (filter hasColumn l).
Proof.
  induction l as [|x t IH]; intros acc Hacc; simpl; [lia|].
  rewrite IH by now rewrite countStep_length.
  unfold countStep, hasColumn.
  destruct (columnOf x) as [c|] eqn:E; [|simpl; lia].
  apply columnOf_bound in E.
  rewrite list_sum_assign by lia. simpl. lia.
Qed.

Lemma countColumns_sum l :
  list_sum (countColumns l) = length (filter hasColumn l).
Proof. rewrite countColumns_fold, count_fold_sum by reflexivity. reflexivity. Qed.

(** ** A flat list of integers before the validator *)

Lemma validNumbersOf_numbers (l : list Z) :
  (forall z, In z l -> (0 < z)%Z) ->
  validNumbersOf (map (fun z => JSNumber (ofZ z)) l) = map ofZ l.
Proof.
  induction l as [|x t IH]; intros H; simpl; auto.
  unfold positive. rewrite ltNum_ofZ.
  destruct (Z.ltb_spec 0 x) as [_|Hle].
  - simpl. f_equal. apply IH. intros z Hz. apply H. now right.
  - specialize (H x (or_introl eq_refl)). lia.
Qed.

Lemma distinct_ofZ (l : list Z) :
  NoDup l -> Validator.distinct (map ofZ l) = map ofZ l.
Proof.
  induction 1 as [|x l Hx Hnd IH]; simpl; auto.
  assert (E : existsb (sameValueZero (ofZ x)) (map ofZ l) = false).
  { apply not_true_is_false. intros H. apply existsb_exists in H.
    destruct H as (n & Hn & Hs). apply in_map_iff in Hn.
    destruct Hn as (z & <- & Hz). rewrite sameValueZero_ofZ in Hs.
    apply Z.eqb_eq in Hs. now subst. }
  now rewrite E, IH.
Qed.

Lemma flat_map_nothing {A B : Type} (f : A -> list B) (l : list A) :
  (forall x, In x l -> f x = []) -> flat_map f l = [].
Proof.
  induction l as [|x t IH]; intros H; simpl; auto.
  rewrite (H x) by now left. apply IH. intros y Hy. apply H. now right.
Qed.

Lemma columnIssues_none counts :
  (forall col, nth col counts 0 <= 3) ->
  columnIssues counts = [] /\ hasColumnIssues counts = false.
Proof.
  intros H. split.
  - apply flat_map_nothing. intros col _.
    destruct (Nat.ltb_spec 3 (nth col counts 0)); [specialize (H col); lia|reflexivity].
  - apply not_true_is_false. intros E. apply existsb_exists in E.
    destruct E as (col & _ & E). apply Nat.ltb_lt in E. specialize (H col). lia.
Qed.

Section CleanList.

Variable JSON_parse : string -> option JSValue.
Variable showNumber : number -> string.
Variable showError : Exception -> string.

(** Fifteen distinct integers of 1-90, at most three to a column, pass. *)
Lemma validateExistingTicket_clean (l : list Z) :
  length l = 15 -> NoDup l -> (forall z, In z l -> (1 <= z <= 90)%Z) ->
  (forall col, length (filter (fun z => inColumn col (ofZ z)) l) <= 3) ->
  validateExistingTicket JSON_parse showNumber showError (arrayOfNumbers l) =
  {| isValid := true; issues := [] |}.
Proof.
  intros Hlen Hnd Hrange Hcols.
  unfold validateExistingTicket, validateExistingTicketBody, arrayOfNumbers.
  assert (Hfirst : isArray (nth 0 (map (fun z => JSNumber (ofZ z)) l) JSUndefined)
                   = false) by (destruct l; reflexivity).
  rewrite Hfirst.
  rewrite validNumbersOf_numbers by (intros z Hz; apply Hrange in Hz; lia).
  assert (Hnone : allIssues showNumber
                    "Ticket needs regeneration for proper Housie format"
                    (map ofZ l) = []).
  { unfold allIssues, countIssue, duplicateIssue.
    rewrite distinct_ofZ by assumption. rewrite length_map, Hlen, Nat.eqb_refl.
    cbn [negb app].
    assert (Hr : rangeIssues showNumber (map ofZ l) = []).
    { apply flat_map_nothing. intros n Hn. apply in_map_iff in Hn.
      destruct Hn as (z & <- & Hz). rewrite !ltNum_ofZ.
      apply Hrange in Hz.
      destruct (Z.ltb_spec z 1); [lia|]. destruct (Z.ltb_spec 90 z); [lia|].
      reflexivity. }
    rewrite Hr.
    destruct (columnIssues_none (countColumns (map ofZ l))) as [-> ->];
      [|reflexivity].
    intros col. rewrite countColumns_nth, filter_map_length. apply Hcols. }
  now rewrite Hnone.
Qed.

End CleanList.

(** ** The flat list of a generated ticket *)

Lemma filter_length_perm {A : Type} (f : A -> bool) (l l' : list A) :
  Permutation l l' -> length (filter f l) = length (filter f l').
Proof.
  induction 1 as [|x l l' _ IH|x y l|l l' l'' _ IH1 _ IH2]; simpl; auto.
  - destruct (f x); simpl; now rewrite IH.
  - destruct (f x), (f y); reflexivity.
  - now rewrite IH1.
Qed.

Lemma column_count (l : list (list Z)) col : forall c,
  c + length l <= 9 ->
  (forall i num, i < length l -> In num (nth i l []) -> inColumnRange (c + i) num) ->
  (forall i, i < length l -> length (nth i l []) <= 3) ->
  length (filter (fun z => inColumn col (ofZ z)) (concat l)) <= 3.
Proof.
  induction l as [|x t IH]; intros c Hlen Hranges Hcap; simpl in *; [lia|].
  rewrite filter_app, length_app.
  assert (Hx : forall z, In z x -> inColumn col (ofZ z) = (c =? col)).
  { intros z Hz. unfold inColumn.
    rewrite (columnOf_ofZ z c); [reflexivity|lia|].
    specialize (Hranges 0 z). rewrite Nat.add_0_r in Hranges.
    apply Hranges; [lia|assumption]. }
  assert (Ht : forall z, In z (concat t) -> (c =? col) = true ->
                         inColumn col (ofZ z) = false).
  { intros z Hz Hc. apply Nat.eqb_eq in Hc. subst col.
    apply in_concat_column in Hz. destruct Hz as (i & Hi & Hz).
    unfold inColumn. rewrite (columnOf_ofZ z (c + S i)); [|lia|].
    - apply Nat.eqb_neq. lia.
    - apply (Hranges (S i) z); [lia|assumption]. }
  destruct (c =? col) eqn:Ec.
  - rewrite (filter_ext_in _ (fun _ => true) x) by (intros; now apply Hx).
    rewrite (filter_ext_in _ (fun _ => false) (concat t))
      by (intros; now apply Ht).
    assert (Hall : forall (A : Type) (l : list A), filter (fun _ => true) l = l)
      by (intros A l; induction l; simpl; congruence).
    assert (Hnone : forall (A : Type) (l : list A), filter (fun _ => false) l = [])
      by (intros A l; induction l; simpl; congruence).
    rewrite Hall, Hnone. simpl. specialize (Hcap 0). simpl in Hcap. lia.
  - rewrite (filter_ext_in _ (fun _ => false) x) by (intros; now apply Hx).
    assert (Hnone : forall (A : Type) (l : list A), filter (fun _ => false) l = [])
      by (intros A l; induction l; simpl; congruence).
    rewrite Hnone. simpl.
    apply (IH (S c)); [lia| |].
    + intros i num Hi Hnum. rewrite Nat.add_succ_comm.
      apply (Hranges (S i) num); [lia|assumption].
    + intros i Hi. apply (Hcap (S i)). lia.
Qed.

Lemma generated_flat fuel rnd ticket rnd' :
  generateHousieTicket fuel rnd = Normal ticket rnd' ->
  exists numbers,
    WellChosen numbers /\ Permutation (flatNumbers ticket) (concat numbers).
Proof.
  intros E.
  destruct (generate_cases fuel rnd) as [E'|(numbers & rnd'' & Hwc & E')];
    rewrite E' in E; [discriminate|].
  injection E as <- _. exists numbers. split; [assumption|]. cbn [flatNumbers].
  pose proof (chosen_selected _ Hwc) as Hsel.
  rewrite sortNumbers_perm, flatten_numbersOf by now apply placed_shaped.
  now apply placed_numbers.
Qed.

(** What the validator looks at in the flat list of a generated ticket. *)
Lemma generated_flat_clean fuel rnd ticket rnd' :
  generateHousieTicket fuel rnd = Normal ticket rnd' ->
  length (flatNumbers ticket) = 15 /\ NoDup (flatNumbers ticket) /\
  (forall z, In z (flatNumbers ticket) -> (1 <= z <= 90)%Z) /\
  (forall col,
     length (filter (fun z => inColumn col (ofZ z)) (flatNumbers ticket)) <= 3).
Proof.
  intros E. destruct (generated_flat _ _ _ _ E) as (numbers & Hwc & Hperm).
  pose proof Hwc as [Hsel Hranges Hdistinct].
  pose proof (selected_columns _ Hsel) as Hlen.
  split; [|split; [|split]].
  - rewrite (Permutation_length Hperm). apply (selected_total _ Hsel).
  - apply (Permutation_NoDup (Permutation_sym Hperm)). now apply WellChosen_NoDup.
  - intros z Hz. apply (Permutation_in _ Hperm) in Hz.
    apply in_concat_column in Hz. destruct Hz as (col & Hcol & Hz).
    rewrite Hlen in Hcol.
    apply (inColumnRange_bounds col z Hcol). now apply Hranges.
  - intros col. rewrite (filter_length_perm _ _ _ Hperm).
    apply (column_count numbers col 0); [lia| |].
    + intros i num Hi Hnum. rewrite Hlen in Hi. now apply Hranges.
    + intros i Hi. rewrite Hlen in Hi. now apply (selected_capacity _ Hsel).
Qed.

(** C2: the flat list that generateHousieTicket returns with a grid passes
    validateExistingTicket: valid, with no issue. *)
Theorem generated_flat_passes_validator
  (JSON_parse : string -> option JSValue) (showNumber : number -> string)
  (showError : Exception -> string) fuel rnd ticket rnd' :
  generateHousieTicket fuel rnd = Normal ticket rnd' ->
  validateExistingTicket JSON_parse showNumber showError
    (arrayOfNumbers (flatNumbers ticket))
  = {| isValid := true; issues := [] |}.
Proof.
  intros E.
  destruct (generated_flat_clean _ _ _ _ E) as (Hlen & Hnd & Hrange & Hcols).
  now apply validateExistingTicket_clean.
Qed.

Lemma generated_flat_passes_validator_witness :
  validateExistingTicket (fun _ => None) (fun _ => "") (fun _ => "")
    (arrayOfNumbers (flatNumbers sampleTicket))
  = {| isValid := true; issues := [] |}.
Proof.
  apply (generated_flat_passes_validator _ _ _ 15 alwaysOne sampleTicket alwaysOne).
  vm_compute. reflexivity.
Defined.

(** ** The columns and their ranges *)

Import Ranges.

Lemma leNum_between a b num :
  leNum (ofZ a) num = true -> leNum num (ofZ b) = true -> (a <= b)%Z.
Proof.
  destruct num as [q| | |]; cbn [leNum ofZ]; try discriminate.
  rewrite !Qle_bool_iff. intros Ha Hb. rewrite Zle_Qle.
  now apply Qle_trans with q.
Qed.

Lemma findColumn_some ranges num : forall start col,
  findColumn ranges start num = Some col ->
  exists i, col = start + i /\ i < length ranges /\
    leNum (ofZ (fst (nth i ranges (0, 0)%Z))) num
    && leNum num (ofZ (snd (nth i ranges (0, 0)%Z))) = true.
Proof.
  induction ranges as [|[min max] rest IH]; intros start col;
    cbn [findColumn]; [discriminate|].
  destruct (leNum (ofZ min) num && leNum num (ofZ max)) eqn:Hhit.
  - intros [= <-]. exists 0. cbn [nth fst snd length]. repeat split; [lia|lia|].
    assumption.
  - intros H. destruct (IH _ _ H) as (i & -> & Hi & Hhere).
    exists (S i). cbn [nth length]. repeat split; [lia|lia|assumption].
Qed.

Lemma findColumn_none ranges num : forall start,
  findColumn ranges start num = None ->
  forall i, i < length ranges ->
    leNum (ofZ (fst (nth i ranges (0, 0)%Z))) num
    && leNum num (ofZ (snd (nth i ranges (0, 0)%Z))) = false.
Proof.
  induction ranges as [|[min max] rest IH]; intros start;
    cbn [findColumn length]; [intros _ i Hi; lia|].
  destruct (leNum (ofZ min) num && leNum num (ofZ max)) eqn:Hhit;
    [discriminate|].
  intros H [|i] Hi; cbn [nth fst snd]; [assumption|].
  apply (IH _ H). lia.
Qed.

Lemma columnRanges_nth col :
  col < 9 -> nth col columnRanges (0, 0)%Z = (lowest col, highest col).
Proof.
  intros Hcol. do 9 (destruct col as [|col]; [reflexivity|]). lia.
Qed.

Lemma ranges_apart c col num :
  c < col -> col < 9 -> inRange c num = true -> inRange col num = false.
Proof.
  intros Hlt Hcol Hc. apply not_true_is_false. intros Hhere.
  unfold inRange in *. apply andb_true_iff in Hc, Hhere.
  destruct Hc as [_ Hhigh]. destruct Hhere as [Hlow _].
  pose proof (leNum_between _ _ _ Hlow Hhigh) as Hle.
  unfold lowest, highest in Hle.
  destruct (Nat.eqb_spec col 0); [lia|].
  destruct (Nat.eqb_spec c 8); lia.
Qed.

(** The loop of the validators finds a number in column [col] exactly when
    the number lies in the range of that column. *)
Lemma inColumn_inRange col num :
  col < 9 -> inColumn col num = inRange col num.
Proof.
  intros Hcol. unfold inColumn, columnOf.
  destruct (findColumn columnRanges 0 num) as [c|] eqn:E.
  - apply findColumn_some in E. destruct E as (i & -> & Hi & Hhit).
    change (length columnRanges) with 9 in Hi.
    rewrite columnRanges_nth in Hhit by assumption. cbn [fst snd] in Hhit.
    change (0 + i) with i. fold (inRange i num) in Hhit.
    destruct (Nat.eqb_spec i col) as [->|Hne]; [now symmetry|].
    symmetry. destruct (Nat.lt_ge_cases i col) as [Hlt|Hge].
    + now apply (ranges_apart i col).
    + apply not_true_is_false. intros Hhere.
      rewrite (ranges_apart col i num) in Hhit by (assumption || lia).
      discriminate.
  - pose proof (findColumn_none _ _ _ E col Hcol) as Hmiss.
    rewrite columnRanges_nth in Hmiss by assumption. now symmetry.
Qed.

Lemma hasColumn_inSomeRange num : hasColumn num = inSomeRange num.
Proof.
  unfold inSomeRange.
  destruct (existsb (fun col => inRange col num) (seq 0 9)) eqn:E.
  - apply existsb_exists in E. destruct E as (col & Hcol & Hhere).
    apply in_seq in Hcol. rewrite <- inColumn_inRange in Hhere by lia.
    unfold inColumn in Hhere. unfold hasColumn.
    now destruct (columnOf num).
  - unfold hasColumn. destruct (columnOf num) as [c|] eqn:Ec; [|reflexivity].
    pose proof (columnOf_bound _ _ Ec) as Hc.
    assert (Hhere : inColumn c num = true).
    { unfold inColumn. rewrite Ec. apply Nat.eqb_refl. }
    rewrite inColumn_inRange in Hhere by assumption.
    rewrite <- E. symmetry. apply existsb_exists. exists c.
    split; [apply in_seq; lia|assumption].
Qed.

Lemma countColumns_ranges validNumbers col :
  col < 9 ->
  nth col (countColumns validNumbers) 0
  = length (filter (inRange col) validNumbers).
Proof.
  intros Hcol. rewrite countColumns_nth. f_equal. apply filter_ext.
  intros num. now apply inColumn_inRange.
Qed.

(** ** Column overflow *)

Section Reports.

Variable JSON_parse : string -> option JSValue.
Variable showNumber : number -> string.
Variable showError : Exception -> string.

Lemma validateExistingTicket_checks numbers ticketNumbers :
  candidateList JSON_parse numbers = Some ticketNumbers ->
  validateExistingTicket JSON_parse showNumber showError numbers =
  {| isValid :=
       length (allIssues showNumber regenerationNeeded
                 (validNumbersOf ticketNumbers)) =? 0;
     issues := allIssues showNumber regenerationNeeded
                 (validNumbersOf ticketNumbers) |}.
Proof.
  unfold candidateList, validateExistingTicket, validateExistingTicketBody.
  destruct numbers as [| | | |text|elements|]; try discriminate.
  - destruct (JSON_parse text) as [[| | | | |parsed|]|]; try discriminate.
    now intros [= <-].
  - intros [= <-]. now destruct (isArray (nth 0 elements JSUndefined)).
Qed.

Lemma overflow_issues summary validNumbers col :
  col < 9 -> 3 < nth col (countColumns validNumbers) 0 ->
  let found := allIssues showNumber summary validNumbers in
  In (columnIssue col (nth col (countColumns validNumbers) 0)) found /\
  (length found =? 0) = false /\
  last found "" = summary.
Proof.
  intros Hcol Hover found.
  assert (Hin : In col (seq 0 (length (countColumns validNumbers)))).
  { rewrite countColumns_length. apply in_seq. lia. }
  apply Nat.ltb_lt in Hover.
  assert (Hhas : hasColumnIssues (countColumns validNumbers) = true).
  { apply existsb_exists. now exists col. }
  assert (Hissue : In (columnIssue col (nth col (countColumns validNumbers) 0))
                      (columnIssues (countColumns validNumbers))).
  { apply in_flat_map. exists col. split; [assumption|].
    rewrite Hover. now left. }
  subst found. unfold allIssues. rewrite Hhas.
  split; [|split].
  - apply in_or_app; right. apply in_or_app; right. apply in_or_app; right.
    apply in_or_app; now left.
  - apply Nat.eqb_neq. rewrite !length_app. simpl. lia.
  - rewrite !app_assoc. apply last_last.
Qed.

Lemma first_column_count validNumbers :
  nth 0 (countColumns validNumbers) 0 =
  length (filter (fun n => leNum (ofZ 1) n && leNum n (ofZ 9)) validNumbers).
Proof.
  rewrite countColumns_nth. f_equal. apply filter_ext.
  intros n. unfold inColumn.
  change (columnOf n)
    with (if leNum (ofZ 1) n && leNum n (ofZ 9) then Some 0
          else findColumn (tl Generator.columnRanges) 1 n).
  destruct (leNum (ofZ 1) n && leNum n (ofZ 9)); [reflexivity|].
  destruct (findColumn (tl Generator.columnRanges) 1 n) as [c|] eqn:E;
    [|reflexivity].
  apply findColumn_bound in E. apply Nat.eqb_neq. lia.
Qed.

(** C7: when more than three of the valid numbers lie in the range of a
    column (1-9 for column 1, 10-19 for column 2, ..., 80-90 for column 9),
    the report of validateExistingTicket is invalid, holds the issue of
    that column (1-indexed, with the count of the numbers in its range) and
    ends with the regeneration summary; with four valid numbers in 1-9 the
    issue reads "Column 1 has 4 numbers (max 3 allowed)".  The report of
    validateTicketFormat holds the same column issue and ends with its own
    summary, "Not proper Housie format". *)
Theorem column_overflow_reported numbers ticketNumbers :
  candidateList JSON_parse numbers = Some ticketNumbers ->
  let report := validateExistingTicket JSON_parse showNumber showError numbers in
  let format := validateTicketFormat showNumber showError (JSArray ticketNumbers) in
  let validNumbers := validNumbersOf ticketNumbers in
  (forall col, col < 9 -> 3 < length (filter (inRange col) validNumbers) ->
     In (columnIssue col (length (filter (inRange col) validNumbers)))
        (issues report) /\
     isValid report = false /\
     last (issues report) "" = regenerationNeeded) /\
  (length (filter (fun n => leNum (ofZ 1) n && leNum n (ofZ 9)) validNumbers) = 4 ->
     In "Column 1 has 4 numbers (max 3 allowed)" (issues report) /\
     isValid report = false /\
     last (issues report) "" = regenerationNeeded) /\
  (forall col, col < 9 -> 3 < length (filter (inRange col) validNumbers) ->
     In (columnIssue col (length (filter (inRange col) validNumbers)))
        (formatIssues format) /\
     formatIsValid format = false /\
     last (formatIssues format) "" = notProperFormat).
Proof.
  intros Hlist report format validNumbers. subst report format.
  rewrite (validateExistingTicket_checks numbers ticketNumbers Hlist).
  cbn [isValid issues validateTicketFormat formatIssues formatIsValid].
  fold validNumbers.
  split; [|split].
  - intros col Hcol Hover.
    rewrite <- (countColumns_ranges validNumbers col Hcol) in *.
    now apply overflow_issues.
  - intros Hfour. rewrite <- first_column_count in Hfour.
    destruct (overflow_issues regenerationNeeded validNumbers 0)
      as (Hin & Hinvalid & Hlast); [lia|lia|].
    rewrite Hfour in Hin. now split.
  - intros col Hcol Hover.
    rewrite <- (countColumns_ranges validNumbers col Hcol) in *.
    now apply overflow_issues.
Qed.

End Reports.

Lemma column_overflow_reported_witness :
  In "Column 1 has 4 numbers (max 3 allowed)"
     (issues (validateExistingTicket (fun _ => None) (fun _ => "") (fun _ => "")
                (arrayOfNumbers
                   [1; 2; 3; 4; 10; 11; 20; 21; 30; 31; 40; 41; 50; 60; 70]%Z))) /\
  In "Column 2 has 5 numbers (max 3 allowed)"
     (issues (validateExistingTicket (fun _ => None) (fun _ => "") (fun _ => "")
                (arrayOfNumbers
                   [1; 10; 11; 12; 13; 14; 20; 21; 30; 31; 40; 41; 50; 60; 70]%Z))) /\
  isValid (validateExistingTicket (fun _ => None) (fun _ => "") (fun _ => "")
             (arrayOfNumbers
                [1; 10; 11; 12; 13; 14; 20; 21; 30; 31; 40; 41; 50; 60; 70]%Z))
  = false.
Proof.
  split.
  - destruct (column_overflow_reported
                (fun _ => None) (fun _ => "") (fun _ => "")
                (arrayOfNumbers
                   [1; 2; 3; 4; 10; 11; 20; 21; 30; 31; 40; 41; 50; 60; 70]%Z)
                _ eq_refl) as (_ & Hfour & _).
    apply Hfour. vm_compute. reflexivity.
  - destruct (column_overflow_reported
                (fun _ => None) (fun _ => "") (fun _ => "")
                (arrayOfNumbers
                   [1; 10; 11; 12; 13; 14; 20; 21; 30; 31; 40; 41; 50; 60; 70]%Z)
                _ eq_refl) as (Hover & _).
    destruct (Hover 1) as (Hin & Hinvalid & _);
      [lia|vm_compute; lia|].
    split; [exact Hin|exact Hinvalid].
Defined.

(** ** The sum of the column counts *)

Lemma leNum_lower a b num :
  (a <= b)%Z -> leNum (ofZ b) num = true -> leNum (ofZ a) num = true.
Proof.
  intros Hab. destruct num as [q| | |]; cbn [leNum ofZ]; auto.
  rewrite !Qle_bool_iff. intros H.
  apply Qle_trans with (inject_Z b); [|assumption]. now rewrite <- Zle_Qle.
Qed.

Lemma leNum_upper a b num :
  (a <= b)%Z -> leNum num (ofZ a) = true -> leNum num (ofZ b) = true.
Proof.
  intros Hab. destruct num as [q| | |]; cbn [leNum ofZ]; auto.
  rewrite !Qle_bool_iff. intros H.
  apply Qle_trans with (inject_Z a); [assumption|]. now rewrite <- Zle_Qle.
Qed.

Lemma findColumn_within ranges num : forall start col,
  (forall r, In r ranges -> (1 <= fst r)%Z /\ (snd r <= 90)%Z) ->
  findColumn ranges start num = Some col -> withinRange num = true.
Proof.
  induction ranges as [|[min max] rest IH]; intros start col Hranges;
    cbn [findColumn]; [discriminate|].
  destruct (leNum (ofZ min) num && leNum num (ofZ max)) eqn:Hhit.
  - intros _. apply andb_true_iff in Hhit. destruct Hhit as [Hlo Hhi].
    destruct (Hranges (min, max)) as [H1 H90]; [now left|]. cbn [fst snd] in *.
    unfold withinRange. apply andb_true_iff. split.
    + now apply (leNum_lower 1 min).
    + now apply (leNum_upper max 90).
  - apply IH. intros r Hr. apply Hranges. now right.
Qed.

Lemma columnOf_within num col : columnOf num = Some col -> withinRange num = true.
Proof.
  apply findColumn_within. intros r Hr. simpl in Hr.
  repeat (destruct Hr as [<-|Hr]; [simpl; lia|]). destruct Hr.
Qed.

Lemma isInteger_ofZ num :
  isInteger num = true -> exists z, forall a,
    leNum (ofZ a) num = leNum (ofZ a) (ofZ z) /\
    leNum num (ofZ a) = leNum (ofZ z) (ofZ a).
Proof.
  destruct num as [q| | |]; try discriminate. cbn [isInteger].
  intros H. apply Qeq_bool_eq in H. exists (Qfloor q). intros a.
  unfold leNum, ofZ. split.
  - now rewrite H at 1.
  - now rewrite H at 1.
Qed.

Lemma findColumn_integer num z :
  (forall a, leNum (ofZ a) num = leNum (ofZ a) (ofZ z) /\
             leNum num (ofZ a) = leNum (ofZ z) (ofZ a)) ->
  forall ranges start, findColumn ranges start num = findColumn ranges start (ofZ z).
Proof.
  intros H ranges. induction ranges as [|[min max] rest IH]; intros start;
    cbn [findColumn]; auto.
  rewrite (proj1 (H min)), (proj2 (H max)), IH. reflexivity.
Qed.

Lemma integer_hasColumn num :
  isInteger num = true -> withinRange num = true -> hasColumn num = true.
Proof.
  intros Hint Hrange. destruct (isInteger_ofZ num Hint) as (z & Hz).
  unfold hasColumn, columnOf. rewrite (findColumn_integer num z Hz).
  unfold withinRange in Hrange.
  rewrite (proj1 (Hz 1%Z)), (proj2 (Hz 90%Z)), !leNum_ofZ in Hrange.
  apply andb_true_iff in Hrange. destruct Hrange as [H1 H90].
  apply Z.leb_le in H1, H90.
  unfold columnRanges, Generator.columnRanges. cbn [findColumn].
  rewrite !leNum_ofZ. split_comparisons; reflexivity.
Qed.

Lemma filter_whole {A : Type} (f : A -> bool) (l : list A) :
  length (filter f l) = length l <-> forall x, In x l -> f x = true.
Proof.
  induction l as [|x rest IH]; cbn [filter length].
  - split; [intros _ x []|reflexivity].
  - pose proof (filter_length_le f rest) as Hle.
    destruct (f x) eqn:E; cbn [length].
    + split.
      * intros H y [<-|Hy]; [assumption|]. apply IH; [lia|assumption].
      * intros H. f_equal. apply IH. intros y Hy. apply H. now right.
    + split; [lia|]. intros H. specialize (H x (or_introl eq_refl)). congruence.
Qed.

Lemma inSomeRange_within num : inSomeRange num = true -> withinRange num = true.
Proof.
  rewrite <- hasColumn_inSomeRange. unfold hasColumn.
  destruct (columnOf num) as [col|] eqn:E; [|discriminate].
  intros _. now apply columnOf_within in E.
Qed.

Lemma filter_narrower {A : Type} (f g : A -> bool) (l : list A) :
  (forall x, f x = true -> g x = true) ->
  filter f (filter g l) = filter f l.
Proof.
  intros H. induction l as [|x rest IH]; [reflexivity|]. cbn [filter].
  destruct (g x) eqn:Eg; cbn [filter].
  - now rewrite IH.
  - destruct (f x) eqn:Ef; [|assumption]. apply H in Ef. congruence.
Qed.

Section Format.

Variable showNumber : number -> string.
Variable showError : Exception -> string.

(** C8, as the code has it: for every candidate the column counts of
    validateTicketFormat add up to the number of its entries that are
    numbers, positive and in the range of one of the nine columns (1-9,
    10-19, ..., 70-79, 80-90).  The sum is the number of the entries that
    are numbers, positive and within 1-90 exactly when each of these lies
    in the range of a column.  There are nine counts for an array, and none
    for any other candidate. *)
Theorem columnCounts_sum_in_ranges candidate :
  let counts :=
    formatColumnCounts (validateTicketFormat showNumber showError candidate) in
  list_sum counts = length (rangedEntries candidate) /\
  (list_sum counts = length (validEntries candidate) <->
   forall num, In num (validEntries candidate) -> inSomeRange num = true) /\
  length counts = (if isArray candidate then 9 else 0).
Proof.
  cbv zeta.
  assert (Hsum : list_sum (formatColumnCounts
                   (validateTicketFormat showNumber showError candidate))
                 = length (rangedEntries candidate)).
  { unfold validateTicketFormat, rangedEntries.
    destruct candidate as [| | | | |elements|]; try reflexivity.
    cbn [formatColumnCounts]. rewrite countColumns_sum. f_equal.
    apply filter_ext. apply hasColumn_inSomeRange. }
  split; [assumption|]. split.
  - rewrite Hsum. unfold rangedEntries, validEntries.
    destruct candidate as [| | | | |elements|];
      try (split; [intros _ num []|reflexivity]).
    rewrite <- (filter_narrower inSomeRange withinRange) by apply inSomeRange_within.
    apply filter_whole.
  - unfold validateTicketFormat.
    destruct candidate as [| | | | |elements|]; try reflexivity.
    apply countColumns_length.
Qed.

End Format.

Lemma columnCounts_sum_in_ranges_witness :
  list_sum (formatColumnCounts
              (validateTicketFormat (fun _ => "") (fun _ => "")
                 (JSArray [JSNumber (Finite (11 # 2)); JSNumber (ofZ 95);
                           JSNumber (Finite (21 # 2)); JSNumber (ofZ 0);
                           JSNumber (ofZ 42)])))
  = length (validEntries
              (JSArray [JSNumber (Finite (11 # 2)); JSNumber (ofZ 95);
                        JSNumber (Finite (21 # 2)); JSNumber (ofZ 0);
                        JSNumber (ofZ 42)])).
Proof.
  apply (proj1 (proj2 (columnCounts_sum_in_ranges (fun _ => "") (fun _ => "")
           (JSArray [JSNumber (Finite (11 # 2)); JSNumber (ofZ 95);
                     JSNumber (Finite (21 # 2)); JSNumber (ofZ 0);
                     JSNumber (ofZ 42)])))).
  intros num Hnum. vm_compute in Hnum.
  repeat (destruct Hnum as [<-|Hnum]; [reflexivity|]). destruct Hnum.
Defined.

(** C8, as stated, fails on a fraction: 9.5 is a positive number within
    1-90, and no column counts it.  Nor are there always nine counts: for a
    candidate that is not an array, such as a string, the error of the
    filter call is caught and the counts returned are empty. *)
Lemma columnCounts_sum_misses_fraction :
  (list_sum (formatColumnCounts
               (validateTicketFormat (fun _ => "") (fun _ => "")
                  (JSArray [JSNumber (Finite (19 # 2))]))) = 0 /\
   length (validEntries (JSArray [JSNumber (Finite (19 # 2))])) = 1) /\
  formatColumnCounts
    (validateTicketFormat (fun _ => "") (fun _ => "") (JSString "[5, 17]"))
  = [].
Proof. repeat split; reflexivity. Qed.

(** ** Malformed input *)

(** C9: a candidate that is neither a string nor an array, a string that
    JSON.parse rejects, and a string that parses to something else than an
    array each get an invalid report with exactly one issue; the exception
    of the last two is caught. *)
Theorem malformed_input_single_issue
  (JSON_parse : string -> option JSValue) (showNumber : number -> string)
  (showError : Exception -> string) (numbers : JSValue) :
  (isString numbers = false -> isArray numbers = false ->
   validateExistingTicket JSON_parse showNumber showError numbers =
   {| isValid := false; issues := ["Invalid number format"] |}) /\
  (forall text, numbers = JSString text -> JSON_parse text = None ->
   validateExistingTicket JSON_parse showNumber showError numbers =
   {| isValid := false;
      issues := [("Error validating ticket: "
                  ++ showError (SyntaxError text))%string] |}) /\
  (forall text parsed, numbers = JSString text ->
   JSON_parse text = Some parsed -> isArray parsed = false ->
   validateExistingTicket JSON_parse showNumber showError numbers =
   {| isValid := false;
      issues := [("Error validating ticket: "
                  ++ showError (TypeError parsed))%string] |}).
Proof.
  unfold validateExistingTicket, validateExistingTicketBody.
  split; [|split].
  - intros Hs Ha. destruct numbers; try discriminate; reflexivity.
  - intros text -> Hparse. now rewrite Hparse.
  - intros text parsed -> Hparse Harray. rewrite Hparse.
    destruct parsed; try discriminate; reflexivity.
Qed.

Lemma malformed_input_single_issue_witness :
  validateExistingTicket (fun _ => None) (fun _ => "") (fun _ => "SyntaxError")
    (JSNumber (ofZ 7))
  = {| isValid := false; issues := ["Invalid number format"] |} /\
  validateExistingTicket (fun _ => None) (fun _ => "") (fun _ => "SyntaxError")
    (JSString "1,2,")
  = {| isValid := false; issues := ["Error validating ticket: SyntaxError"] |}.
Proof.
  split.
  - apply (proj1 (malformed_input_single_issue
                    (fun _ => None) (fun _ => "") (fun _ => "SyntaxError")
                    (JSNumber (ofZ 7)))); reflexivity.
  - apply (proj1 (proj2 (malformed_input_single_issue
                    (fun _ => None) (fun _ => "") (fun _ => "SyntaxError")
                    (JSString "1,2,"))) "1,2,"); reflexivity.
Defined.

(** ** The grid laid out from a stored list *)

Import Display.

Lemma insertNum_perm x l : Permutation (insertNum x l) (x :: l).
Proof.
  induction l as [|y t IH]; simpl; auto.
  destruct (leNum x y); auto.
  rewrite IH. apply perm_swap.
Qed.

Lemma sortNums_perm l : Permutation (sortNums l) l.
Proof.
  induction l as [|x t IH]; simpl; auto.
  rewrite insertNum_perm. now constructor.
Qed.

Lemma groupStep_length byColumn num :
  length (groupStep byColumn num) = length byColumn.
Proof.
  unfold groupStep. destruct (columnOf num); auto. apply assign_length.
Qed.

Lemma group_fold_nth l col : forall acc,
  length acc = 9 ->
  length (fold_left groupStep l acc) = 9 /\
  nth col (fold_left groupStep l acc) [] = nth col acc [] ++ filter (inColumn col) l.
Proof.
  induction l as [|x t IH]; intros acc Hacc; simpl.
  - now rewrite app_nil_r.
  - destruct (IH (groupStep acc x)) as [Hlen Hnth];
      [now rewrite groupStep_length|].
    split; [assumption|]. rewrite Hnth.
    unfold groupStep, inColumn.
    destruct (columnOf x) as [c|] eqn:E; [|reflexivity].
    apply columnOf_bound in E.
    destruct (Nat.eqb_spec c col) as [->|Hne].
    + rewrite nth_assign_same by lia. now rewrite <- app_assoc.
    + now rewrite nth_assign_other by assumption.
Qed.

Lemma groupByColumn_nth l col :
  nth col (groupByColumn l) [] = filter (inColumn col) l.
Proof.
  unfold groupByColumn.
  rewrite (proj2 (group_fold_nth l col (repeat [] 9) eq_refl)).
  replace (nth col (repeat [] 9) []) with (@nil number); [reflexivity|].
  symmetry. apply (nth_repeat (@nil number) 9 col).
Qed.

Lemma groupByColumn_length l : length (groupByColumn l) = 9.
Proof. apply (proj1 (group_fold_nth l 0 (repeat [] 9) eq_refl)). Qed.

Lemma concat_append_perm (acc : list (list number)) i num :
  i < length acc ->
  Permutation (concat (assign acc i (nth i acc [] ++ [num])))
              (concat acc ++ [num]).
Proof.
  intros Hi. destruct (assign_split acc i [] Hi) as (b & a & E & _ & W).
  rewrite W. set (x := nth i acc []) in *. clearbody x. subst acc.
  rewrite !concat_app. simpl. rewrite <- !app_assoc.
  apply Permutation_app_head, Permutation_app_head, Permutation_app_comm.
Qed.

Lemma group_fold_perm l : forall acc,
  length acc = 9 ->
  Permutation (concat (fold_left groupStep l acc))
              (concat acc ++ filter hasColumn l).
Proof.
  induction l as [|x t IH]; intros acc Hacc; simpl.
  - now rewrite app_nil_r.
  - rewrite IH by now rewrite groupStep_length.
    unfold groupStep, hasColumn.
    destruct (columnOf x) as [c|] eqn:E; [|reflexivity].
    apply columnOf_bound in E.
    rewrite concat_append_perm by lia.
    now rewrite <- app_assoc.
Qed.

Lemma groupByColumn_perm l :
  Permutation (concat (groupByColumn l)) (filter hasColumn l).
Proof. apply (group_fold_perm l (repeat [] 9) eq_refl). Qed.

Lemma overflow_stays l : forall counts,
  snd (fold_left overflowStep l (counts, true)) = true.
Proof.
  induction l as [|x t IH]; intros counts; simpl; auto.
  destruct (columnOf x); [|apply IH].
  match goal with |- context [if ?c then true else true] => destruct c end;
    apply IH.
Qed.

Lemma overflow_counts l : forall counts,
  length counts = 9 -> (forall col, nth col counts 0 <= 3) ->
  snd (fold_left overflowStep l (counts, false)) = false ->
  forall col, nth col counts 0 + length (filter (inColumn col) l) <= 3.
Proof.
  induction l as [|x t IH]; intros counts Hlen Hsmall Hflag col;
    cbn [fold_left overflowStep filter] in *.
  - specialize (Hsmall col). simpl. lia.
  - destruct (columnOf x) as [c|] eqn:E.
    + pose proof (columnOf_bound _ _ E) as Hc.
      assert (Hx : inColumn col x = (c =? col))
        by (unfold inColumn; now rewrite E).
      rewrite Hx.
      destruct (3 <? nth c (assign counts c (nth c counts 0 + 1)) 0) eqn:Hover.
      * now rewrite overflow_stays in Hflag.
      * apply Nat.ltb_ge in Hover. rewrite nth_assign_same in Hover by lia.
        specialize (IH (assign counts c (nth c counts 0 + 1))).
        rewrite assign_length in IH. specialize (IH Hlen).
        assert (Hsmall' : forall col,
                  nth col (assign counts c (nth c counts 0 + 1)) 0 <= 3).
        { intros col'. destruct (Nat.eq_dec c col') as [<-|Hne].
          - rewrite nth_assign_same by lia. lia.
          - rewrite nth_assign_other by assumption. apply Hsmall. }
        specialize (IH Hsmall' Hflag col).
        destruct (Nat.eqb_spec c col) as [->|Hne]; cbn [length].
        -- rewrite nth_assign_same in IH by lia. lia.
        -- now rewrite nth_assign_other in IH by assumption.
    + assert (Hx : inColumn col x = false) by (unfold inColumn; now rewrite E).
      rewrite Hx. now apply IH.
Qed.

Lemma columnOverflow_capacity l col :
  columnOverflow l = false -> length (filter (inColumn col) l) <= 3.
Proof.
  intros H. apply (overflow_counts l (repeat 0 9) eq_refl) with (col := col) in H.
  - lia.
  - intros c. replace (nth c (repeat 0 9) 0) with 0; [lia|].
    symmetry. apply nth_repeat.
Qed.

Lemma hasColumn_filled num : hasColumn num = true -> filledNumber num = true.
Proof.
  unfold hasColumn. destruct (columnOf num) as [col|] eqn:E; [|discriminate].
  intros _. apply columnOf_within in E. unfold withinRange in E.
  apply andb_true_iff in E. destruct E as [Hlo _].
  unfold filledNumber.
  destruct num as [q| | |]; cbn [sameValueZero ofZ leNum negb] in *;
    try reflexivity; try discriminate.
  apply negb_true_iff. apply not_true_is_false. intros H.
  apply Qeq_bool_eq in H. apply Qle_bool_iff in Hlo.
  rewrite H in Hlo. revert Hlo. unfold Qle, inject_Z. simpl. lia.
Qed.

Lemma hasColumn_positive num : hasColumn num = true -> positive num = true.
Proof.
  unfold hasColumn. destruct (columnOf num) as [col|] eqn:E; [|discriminate].
  intros _. apply columnOf_within in E. unfold withinRange in E.
  apply andb_true_iff in E. destruct E as [Hlo _].
  unfold positive.
  destruct num as [q| | |]; cbn [ltNum ofZ leNum] in *;
    try reflexivity; try discriminate.
  apply negb_true_iff. apply not_true_is_false. intros H.
  apply Qle_bool_iff in H. apply Qle_bool_iff in Hlo.
  pose proof (Qle_trans _ _ _ Hlo H) as Hbad.
  revert Hbad. unfold Qle, inject_Z. simpl. lia.
Qed.

Lemma filter_everything {A : Type} (f : A -> bool) (l : list A) :
  (forall x, In x l -> f x = true) -> filter f l = l.
Proof.
  induction l as [|x t IH]; intros H; simpl; auto.
  rewrite (H x) by now left. f_equal. apply IH. intros y Hy. apply H. now right.
Qed.

Lemma concat_map_perm {A : Type} (f : list A -> list A) (l : list (list A)) :
  (forall x, Permutation (f x) x) -> Permutation (concat (map f l)) (concat l).
Proof.
  intros Hf. induction l as [|x t IH]; simpl; auto.
  now rewrite Hf, IH.
Qed.

Section LaidOut.

Variable validNumbers : list number.
Hypothesis fifteen : length validNumbers = 15.
Hypothesis columns : forall num, In num validNumbers -> hasColumn num = true.
Hypothesis capacity : columnOverflow validNumbers = false.

Lemma sortedColumns_nth col :
  nth col (sortedColumns validNumbers) [] =
  sortNums (filter (inColumn col) validNumbers).
Proof.
  unfold sortedColumns. rewrite <- groupByColumn_nth.
  exact (map_nth sortNums (groupByColumn validNumbers) [] col).
Qed.

Lemma sortedColumns_perm :
  Permutation (concat (sortedColumns validNumbers)) validNumbers.
Proof.
  unfold sortedColumns. rewrite (concat_map_perm sortNums _ sortNums_perm).
  rewrite groupByColumn_perm. now rewrite filter_everything.
Qed.

Lemma sortedColumns_Ready :
  Ready (ofZ 0) filledNumber 0 Display.emptyGrid
        (RoundRobin.entriesOf (sortedColumns validNumbers) (seq 0 9)).
Proof.
  apply Ready_blank; [reflexivity| |].
  - intros col _. rewrite sortedColumns_nth.
    rewrite (Permutation_length (sortNums_perm _)).
    now apply columnOverflow_capacity.
  - intros num Hnum. apply hasColumn_filled, columns.
    now apply (Permutation_in _ sortedColumns_perm).
Qed.

Lemma sortedColumns_entries :
  length (RoundRobin.entriesOf (sortedColumns validNumbers) (seq 0 9)) = 15.
Proof.
  rewrite <- (length_map fst), entriesOf_numbers.
  - now rewrite (Permutation_length sortedColumns_perm).
  - unfold sortedColumns. now rewrite length_map, groupByColumn_length.
Qed.

Lemma layOut_roundRobin :
  layOut (sortedColumns validNumbers) =
  (place 0 Display.emptyGrid
     (RoundRobin.entriesOf (sortedColumns validNumbers) (seq 0 9)),
   [5; 5; 5]%Z).
Proof.
  unfold layOut.
  change (Display.entriesOf (sortedColumns validNumbers))
    with (RoundRobin.entriesOf (sortedColumns validNumbers) (seq 0 9)).
  change [0; 0; 0]%Z with (counts 0).
  rewrite placeManually_roundRobin by (rewrite sortedColumns_entries; lia).
  now rewrite sortedColumns_entries.
Qed.

Lemma analyzeTicketGrid_laidOut fuel rnd :
  analyzeTicketGrid fuel validNumbers rnd =
  Some (fst (layOut (sortedColumns validNumbers)), rnd).
Proof.
  unfold analyzeTicketGrid.
  rewrite (filter_everything positive validNumbers)
    by (intros num Hnum; now apply hasColumn_positive, columns).
  now rewrite fifteen, capacity.
Qed.

Lemma laidOut_numbers :
  Permutation
    (filter filledNumber (concat (fst (layOut (sortedColumns validNumbers)))))
    validNumbers.
Proof.
  rewrite layOut_roundRobin. cbn [fst].
  rewrite (place_numbers (ofZ 0) filledNumber _ _ _ sortedColumns_Ready).
  rewrite entriesOf_numbers
    by (unfold sortedColumns; now rewrite length_map, groupByColumn_length).
  change (filter filledNumber (concat Display.emptyGrid)) with (@nil number).
  rewrite app_nil_r. apply sortedColumns_perm.
Qed.

Lemma laidOut_rows row :
  row < 3 ->
  length (filter filledNumber
            (nth row (fst (layOut (sortedColumns validNumbers))) [])) = 5.
Proof.
  intros Hrow. rewrite layOut_roundRobin. cbn [fst].
  rewrite (place_rows (ofZ 0) filledNumber _ _ _ _ sortedColumns_Ready).
  rewrite sortedColumns_entries, rows_of_fifteen by assumption.
  do 3 (destruct row as [|row]; [reflexivity|]). lia.
Qed.

Lemma laidOut_columns row col :
  col < 9 ->
  filledNumber
    (cell (ofZ 0) (fst (layOut (sortedColumns validNumbers))) row col) = true ->
  inColumn col
    (cell (ofZ 0) (fst (layOut (sortedColumns validNumbers))) row col) = true.
Proof.
  intros Hcol. rewrite layOut_roundRobin. cbn [fst]. intros Hfilled.
  destruct (place_cells (ofZ 0) filledNumber _ 0 Display.emptyGrid row col
              sortedColumns_Ready) as [E|Hin].
  - rewrite E in Hfilled. unfold Display.emptyGrid in Hfilled.
    rewrite cell_blank in Hfilled. discriminate.
  - apply entriesOf_In in Hin. destruct Hin as [_ Hin].
    rewrite sortedColumns_nth in Hin.
    apply (Permutation_in _ (sortNums_perm _)) in Hin.
    now apply filter_In in Hin.
Qed.

End LaidOut.

(** C5, as the code has it: fifteen numbers that each lie in the range of a
    column, at most three to a column, are all placed, each in its column,
    five to a row, and every call gives the same grid. *)
Theorem reconstruction_places_input ticketNumbers :
  length ticketNumbers = 15 ->
  (forall num, In num ticketNumbers -> hasColumn num = true) ->
  columnOverflow ticketNumbers = false ->
  exists grid,
    (forall fuel rnd, analyzeTicketGrid fuel ticketNumbers rnd = Some (grid, rnd)) /\
    Permutation (filter filledNumber (concat grid)) ticketNumbers /\
    (forall row, row < 3 -> length (filter filledNumber (nth row grid [])) = 5) /\
    (forall row col, col < 9 ->
       filledNumber (cell (ofZ 0) grid row col) = true ->
       inColumn col (cell (ofZ 0) grid row col) = true).
Proof.
  intros Hlen Hcols Hcap.
  exists (fst (layOut (sortedColumns ticketNumbers))).
  split; [|split; [|split]].
  - intros fuel rnd. now apply analyzeTicketGrid_laidOut.
  - now apply laidOut_numbers.
  - intros row Hrow. now apply laidOut_rows.
  - intros row col Hcol. now apply laidOut_columns.
Qed.

Lemma validTicketNumbers_facts :
  length (map ofZ (flatNumbers sampleTicket)) = 15 /\
  (forall num, In num (map ofZ (flatNumbers sampleTicket)) ->
     hasColumn num = true) /\
  columnOverflow (map ofZ (flatNumbers sampleTicket)) = false.
Proof.
  split; [reflexivity|split; [|reflexivity]].
  intros num Hnum. vm_compute in Hnum.
  repeat (destruct Hnum as [<-|Hnum]; [reflexivity|]). destruct Hnum.
Qed.

Lemma reconstruction_places_input_witness :
  exists grid,
    (forall fuel rnd,
       analyzeTicketGrid fuel (map ofZ (flatNumbers sampleTicket)) rnd
       = Some (grid, rnd)) /\
    Permutation (filter filledNumber (concat grid))
                (map ofZ (flatNumbers sampleTicket)).
Proof.
  destruct validTicketNumbers_facts as (Hlen & Hcols & Hcap).
  destruct (reconstruction_places_input _ Hlen Hcols Hcap)
    as (grid & Hsame & Hperm & _).
  now exists grid.
Defined.

(** C5, as stated, fails on a number outside every column: 95 is dropped,
    and the grid holds fourteen of the fifteen numbers. *)
Lemma reconstruction_drops_out_of_range :
  length legacyNumbers = 15 /\
  columnOverflow legacyNumbers = false /\
  exists grid,
    analyzeTicketGrid 0 legacyNumbers alwaysOne = Some (grid, alwaysOne) /\
    length (filter filledNumber (concat grid)) = 14 /\
    ~ Permutation (filter filledNumber (concat grid)) legacyNumbers.
Proof.
  split; [reflexivity|split; [reflexivity|]].
  eexists. split; [vm_compute; reflexivity|].
  split; [reflexivity|].
  intros H. apply Permutation_length in H. vm_compute in H. discriminate.
Qed.

(** ** Further properties *)

(** For a list of fifteen elements convertFlatToGrid never throws: with
    fifteen turns of fuel it returns a grid, and the grid has invariants 1
    to 5. *)
Theorem convertFlatToGrid_fifteen fuel flatNumbers rnd :
  length flatNumbers = 15 -> 15 <= fuel ->
  exists grid rnd',
    convertFlatToGrid fuel flatNumbers rnd = Normal grid rnd' /\ Valid grid.
Proof. apply convertFlatToGrid_valid. Qed.

Lemma convertFlatToGrid_fifteen_witness :
  exists grid rnd',
    convertFlatToGrid 15 legacyNumbers alwaysOne = Normal grid rnd' /\ Valid grid.
Proof.
  apply convertFlatToGrid_fifteen; [reflexivity|lia].
Defined.

(** shuffleArray rearranges its array: nothing is lost and nothing is
    repeated, whatever the random source. *)
Theorem shuffleArray_rearranges array rnd :
  Permutation array (fst (shuffleArray array rnd)).
Proof. apply shuffleArray_perm. Qed.

(** The self-check at the end of generateHousieTicket never throws. *)
Theorem generateHousieTicket_never_throws fuel rnd message rnd' :
  generateHousieTicket fuel rnd <> Throw message rnd'.
Proof.
  destruct (generate_cases fuel rnd) as [E|(numbers & rnd'' & _ & E)];
    rewrite E; discriminate.
Qed.
(** ** The flat list of a generated ticket *)

Lemma ascending_cons x y l :
  ascending (x :: y :: l) = (x <? y)%Z && ascending (y :: l).
Proof. reflexivity. Qed.

Lemma ascending_tail x l : ascending (x :: l) = true -> ascending l = true.
Proof.
  destruct l as [|y t]; [reflexivity|]. rewrite ascending_cons.
  intros H. apply andb_prop in H. apply H.
Qed.

Lemma insertNumber_ascending x l :
  ascending l = true -> ~ In x l -> ascending (insertNumber x l) = true.
Proof.
  induction l as [|y t IH]; intros Hl Hx; [reflexivity|].
  cbn [insertNumber]. destruct (Z.leb_spec x y) as [Hle|Hgt].
  - rewrite ascending_cons, Hl, andb_true_r. apply Z.ltb_lt.
    assert (x <> y) by (intros ->; apply Hx; now left). lia.
  - pose proof (ascending_tail _ _ Hl) as Ht.
    specialize (IH Ht (fun H => Hx (or_intror H))).
    destruct t as [|z t'].
    + cbn [insertNumber]. rewrite ascending_cons. cbn [ascending].
      rewrite andb_true_r. now apply Z.ltb_lt.
    + rewrite ascending_cons in Hl. apply andb_prop in Hl.
      destruct Hl as [Hyz _]. cbn [insertNumber] in *.
      destruct (Z.leb_spec x z).
      * rewrite ascending_cons, IH, andb_true_r. now apply Z.ltb_lt.
      * now rewrite ascending_cons, Hyz, IH.
Qed.

Lemma sortNumbers_ascending l : NoDup l -> ascending (sortNumbers l) = true.
Proof.
  induction 1 as [|x l Hx Hl IH]; [reflexivity|].
  cbn [sortNumbers fold_right]. apply insertNumber_ascending; [exact IH|].
  intros Hin. apply Hx. now apply (Permutation_in _ (sortNumbers_perm l)).
Qed.

(** The flatNumbers of a returned ticket are the fifteen numbers of its
    grid, in strictly ascending order. *)
Theorem generated_flat_ascending fuel rnd ticket rnd' :
  generateHousieTicket fuel rnd = Normal ticket rnd' ->
  length (flatNumbers ticket) = 15 /\
  ascending (flatNumbers ticket) = true /\
  Permutation (flatNumbers ticket) (numbersOf (grid ticket)).
Proof.
  intros E.
  destruct (generate_cases fuel rnd) as [E'|(numbers & rnd'' & Hwc & E')];
    rewrite E' in E; [discriminate|].
  injection E as <- _. cbn [grid flatNumbers].
  pose proof (placed_Valid _ Hwc) as [Hshape Htotal _ _ _ Hdistinct].
  rewrite (flatten_numbersOf _ Hshape).
  split; [|split].
  - now rewrite (Permutation_length (sortNumbers_perm _)).
  - now apply sortNumbers_ascending.
  - apply sortNumbers_perm.
Qed.

Lemma generated_flat_ascending_witness :
  length (flatNumbers sampleTicket) = 15 /\
  ascending (flatNumbers sampleTicket) = true /\
  Permutation (flatNumbers sampleTicket) (numbersOf (grid sampleTicket)).
Proof.
  apply (generated_flat_ascending 15 alwaysOne sampleTicket alwaysOne).
  vm_compute. reflexivity.
Defined.
(** ** The self-check, on any 3x9 grid *)

Lemma firstError_found {A : Type} (check : A -> option string) l message :
  firstError check l = Some message ->
  exists x, In x l /\ check x = Some message.
Proof.
  induction l as [|x rest IH]; [discriminate|]. cbn [firstError].
  destruct (check x) as [m|] eqn:E.
  - intros [= <-]. exists x. split; [now left|assumption].
  - intros H. destruct (IH H) as (y & Hy & Ey). exists y. split; [now right|assumption].
Qed.

Lemma firstError_passed {A : Type} (check : A -> option string) l :
  firstError check l = None -> forall x, In x l -> check x = None.
Proof.
  induction l as [|y rest IH]; intros H x []; cbn [firstError] in H;
    destruct (check y) eqn:E; try discriminate; subst; auto.
Qed.

Lemma firstError_first (check : nat -> option string) len message :
  forall start,
  firstError check (seq start len) = Some message ->
  exists x, start <= x < start + len /\ check x = Some message /\
    forall y, start <= y < x -> check y = None.
Proof.
  induction len as [|len IH]; intros start; cbn [seq firstError];
    [discriminate|].
  destruct (check start) as [m|] eqn:E.
  - intros [= <-]. exists start. repeat split; [lia|lia|assumption|].
    intros y Hy. lia.
  - intros H. destruct (IH _ H) as (x & Hx & Ex & Hbefore).
    exists x. repeat split; [lia|lia|assumption|].
    intros y Hy. destruct (Nat.eq_dec y start) as [->|Hne]; [assumption|].
    apply Hbefore. lia.
Qed.

Lemma distinct_shorter l : length (Generator.distinct l) <= length l.
Proof.
  induction l as [|x rest IH]; [reflexivity|]. cbn [Generator.distinct].
  destruct (includes rest x); simpl; lia.
Qed.

Lemma distinct_full l : length (Generator.distinct l) = length l -> NoDup l.
Proof.
  induction l as [|x rest IH]; [constructor|]. cbn [Generator.distinct].
  pose proof (distinct_shorter rest).
  destruct (includes rest x) eqn:E; simpl; intros Hlen; [lia|].
  constructor; [|apply IH; lia].
  intros Hin. apply includes_In in Hin. congruence.
Qed.

Lemma column_of_three (grid : list (list Z)) col :
  length grid = 3 -> length (columnValues grid col) <= 3.
Proof.
  intros H. unfold columnValues.
  pose proof (filter_length_le nonEmpty (map (fun row => nth col row 0%Z) grid)) as Hle.
  rewrite length_map in Hle. lia.
Qed.

Lemma total_of_rows (grid : list (list Z)) :
  length grid = 3 ->
  length (numbersOf grid) =
  length (rowNumbers grid 0) + length (rowNumbers grid 1) + length (rowNumbers grid 2).
Proof.
  intros H. destruct grid as [|r0 [|r1 [|r2 [|]]]]; try discriminate.
  unfold numbersOf, rowNumbers. cbn [concat nth].
  rewrite app_nil_r, !filter_app, !length_app. lia.
Qed.

(** What is left of the checks on a grid of three rows: the rows, the
    ranges and the duplicates. *)
Lemma validateTicket_cases grid :
  length grid = 3 ->
  validateTicket grid =
  match
    firstError
      (fun row =>
         if length (rowNumbers grid row) =? 5 then None
         else Some (TicketError.row row (length (rowNumbers grid row))))
      (seq 0 3)
  with
  | Some message => Some message
  | None =>
  match
    firstError
      (fun col =>
         firstError
           (fun row =>
              let num := cell 0%Z grid row col in
              if nonEmpty num
                 && ((num <? fst (nth col Generator.columnRanges (0, 0)))%Z
                     || (snd (nth col Generator.columnRanges (0, 0)) <? num)%Z)
              then Some (TicketError.range num col) else None)
           (seq 0 3))
      (seq 0 9)
  with
  | Some message => Some message
  | None =>
      if length (numbersOf grid) =? length (Generator.distinct (numbersOf grid)) then None
      else Some TicketError.duplicates
  end end.
Proof.
  intros Hlen.
  assert (Hrows : forall row, row < 3 ->
            firstError
              (fun row =>
                 if length (rowNumbers grid row) =? 5 then None
                 else Some (TicketError.row row (length (rowNumbers grid row))))
              (seq 0 3) = None ->
            length (rowNumbers grid row) = 5).
  { intros row Hrow Erows.
    pose proof (firstError_passed _ _ Erows row) as Hp. cbv beta in Hp.
    destruct (Nat.eqb_spec (length (rowNumbers grid row)) 5); [assumption|].
    discriminate Hp. apply in_seq. lia. }
  unfold validateTicket, TicketError.row, TicketError.range, rowNumbers in *.
  destruct (firstError _ (seq 0 3)) as [message|] eqn:Erows; [reflexivity|].
  rewrite firstError_none.
  2:{ intros col _.
      rewrite <- (filter_map_length nonEmpty (fun row => nth col row 0%Z)).
      pose proof (column_of_three grid col Hlen) as Hcol. unfold columnValues in Hcol.
      destruct (Nat.ltb_spec 3 (length (filter nonEmpty
                  (map (fun row => nth col row 0%Z) grid)))); [lia|reflexivity]. }
  change (filter nonEmpty (concat grid)) with (numbersOf grid).
  assert (Htotal : length (numbersOf grid) = 15).
  { rewrite (total_of_rows grid Hlen). unfold rowNumbers.
    rewrite !Hrows by (reflexivity || lia). reflexivity. }
  rewrite Htotal at 1. cbn [Nat.eqb negb].
  match goal with
  | |- match firstError ?f ?l with _ => _ end =
       match firstError ?g ?l with _ => _ end =>
      assert (Eranges : forall cols, firstError f cols = firstError g cols)
  end.
  { induction cols as [|col cols IH]; [reflexivity|]. cbn [firstError].
    rewrite IH. now destruct (nth col Generator.columnRanges (0, 0)%Z). }
  rewrite Eranges.
  destruct (firstError _ (seq 0 9)); [reflexivity|].
  now destruct (length (numbersOf grid)
                =? length (Generator.distinct (numbersOf grid))).
Qed.

Lemma validateTicket_passed grid :
  shaped grid -> validateTicket grid = None -> Valid grid.
Proof.
  intros Hshape Hok. pose proof Hshape as [Hlen Hwide].
  rewrite (validateTicket_cases grid Hlen) in Hok.
  destruct (firstError _ (seq 0 3)) eqn:Erows; [discriminate|].
  destruct (firstError _ (seq 0 9)) eqn:Eranges; [discriminate|].
  destruct (Nat.eqb_spec (length (numbersOf grid))
              (length (Generator.distinct (numbersOf grid)))) as [Hdistinct|];
    [|discriminate].
  assert (Hrows : forall row, row < 3 -> length (rowNumbers grid row) = 5).
  { intros row Hrow.
    pose proof (firstError_passed _ _ Erows row) as Hp. cbv beta in Hp.
    destruct (Nat.eqb_spec (length (rowNumbers grid row)) 5); [assumption|].
    discriminate Hp. apply in_seq. lia. }
  constructor.
  - assumption.
  - rewrite (total_of_rows grid Hlen), !Hrows by lia. reflexivity.
  - assumption.
  - intros col _. now apply column_of_three.
  - intros row col Hrow Hcol Hfilled.
    pose proof (firstError_passed _ _ Eranges col) as Hp. cbv beta in Hp.
    specialize (Hp ltac:(apply in_seq; lia)).
    pose proof (firstError_passed _ _ Hp row) as Hq. cbv beta zeta in Hq.
    specialize (Hq ltac:(apply in_seq; lia)).
    apply nonEmpty_true in Hfilled. rewrite Hfilled in Hq. cbn [andb] in Hq.
    unfold inColumnRange.
    destruct (Z.ltb_spec (cell 0%Z grid row col)
                (fst (nth col Generator.columnRanges (0, 0)%Z)));
      [discriminate|].
    destruct (Z.ltb_spec (snd (nth col Generator.columnRanges (0, 0)%Z))
                (cell 0%Z grid row col)); [discriminate|].
    lia.
  - apply distinct_full. now symmetry.
Qed.

Lemma sampleTicket_shaped : shaped (grid sampleTicket).
Proof.
  split; [reflexivity|]. intros row [<-|[<-|[<-|[]]]]; reflexivity.
Qed.

(** On a 3x9 grid validateTicket throws nothing exactly when the grid has
    invariants 1 to 5. *)
Theorem validateTicket_exact grid :
  shaped grid -> (validateTicket grid = None <-> Valid grid).
Proof.
  intros Hshape. split.
  - now apply validateTicket_passed.
  - apply validateTicket_Valid.
Qed.

Lemma validateTicket_exact_witness :
  validateTicket (grid sampleTicket) = None <-> Valid (grid sampleTicket).
Proof. apply validateTicket_exact, sampleTicket_shaped. Defined.

(** On a 3x9 grid the column check and the total check of validateTicket
    never throw, and an error is the first that the checks meet in their
    order: the error of the first row that has not five numbers; or, every
    row having five, the error of the first number outside the range of its
    column, going through the columns from the left and down each column;
    or, every number being in its range, the error of a repeated number. *)
Theorem validateTicket_errors grid message :
  shaped grid -> validateTicket grid = Some message ->
  (exists row, row < 3 /\ length (rowNumbers grid row) <> 5 /\
     (forall above, above < row -> length (rowNumbers grid above) = 5) /\
     message = TicketError.row row (length (rowNumbers grid row))) \/
  ((forall row, row < 3 -> length (rowNumbers grid row) = 5) /\
   exists row col, row < 3 /\ col < 9 /\ cell 0%Z grid row col <> 0%Z /\
     ~ inColumnRange col (cell 0%Z grid row col) /\
     (forall r c, r < 3 -> c < 9 -> c < col \/ (c = col /\ r < row) ->
        cell 0%Z grid r c <> 0%Z -> inColumnRange c (cell 0%Z grid r c)) /\
     message = TicketError.range (cell 0%Z grid row col) col) \/
  ((forall row, row < 3 -> length (rowNumbers grid row) = 5) /\
   (forall row col, row < 3 -> col < 9 ->
      cell 0%Z grid row col <> 0%Z -> inColumnRange col (cell 0%Z grid row col)) /\
   message = TicketError.duplicates /\ ~ NoDup (numbersOf grid)).
Proof.
  intros [Hlen _] Hfail.
  rewrite (validateTicket_cases grid Hlen) in Hfail.
  assert (Hcell : forall r c,
            (if nonEmpty (cell 0%Z grid r c)
                && ((cell 0%Z grid r c <? fst (nth c Generator.columnRanges (0, 0)%Z))%Z
                    || (snd (nth c Generator.columnRanges (0, 0)%Z)
                        <? cell 0%Z grid r c)%Z)
             then Some (TicketError.range (cell 0%Z grid r c) c) else None) = None ->
            cell 0%Z grid r c <> 0%Z -> inColumnRange c (cell 0%Z grid r c)).
  { intros r c Hq Hfilled. unfold inColumnRange.
    destruct (nonEmpty (cell 0%Z grid r c)) eqn:Hne.
    - cbn [andb] in Hq.
      destruct (Z.ltb_spec (cell 0%Z grid r c)
                  (fst (nth c Generator.columnRanges (0, 0)%Z)));
        [discriminate|].
      destruct (Z.ltb_spec (snd (nth c Generator.columnRanges (0, 0)%Z))
                  (cell 0%Z grid r c)); [discriminate|].
      lia.
    - unfold nonEmpty in Hne. apply negb_false_iff, Z.eqb_eq in Hne. contradiction. }
  destruct (firstError _ (seq 0 3)) eqn:Erows.
  - left. injection Hfail as ->.
    apply firstError_first in Erows.
    destruct Erows as (row & Hrow & E & Hbefore). exists row.
    destruct (Nat.eqb_spec (length (rowNumbers grid row)) 5); [discriminate|].
    injection E as <-. repeat split; [lia|assumption|].
    intros above Habove.
    specialize (Hbefore above ltac:(lia)). cbv beta in Hbefore.
    destruct (Nat.eqb_spec (length (rowNumbers grid above)) 5);
      [assumption|discriminate].
  - assert (Hrows : forall row, row < 3 -> length (rowNumbers grid row) = 5).
    { intros row Hrow.
      pose proof (firstError_passed _ _ Erows row) as Hp. cbv beta in Hp.
      destruct (Nat.eqb_spec (length (rowNumbers grid row)) 5); [assumption|].
      discriminate Hp. apply in_seq. lia. }
    right. destruct (firstError _ (seq 0 9)) eqn:Eranges.
    + left. split; [assumption|]. injection Hfail as ->.
      apply firstError_first in Eranges.
      destruct Eranges as (col & Hcol & E & Hleft).
      apply firstError_first in E. destruct E as (row & Hrow & E & Habove).
      cbv zeta in E. exists row, col.
      destruct (nonEmpty (cell 0%Z grid row col)) eqn:Hfilled; [|discriminate].
      apply nonEmpty_true in Hfilled. cbn [andb] in E.
      assert (Hearlier : forall r c, r < 3 -> c < 9 ->
                c < col \/ (c = col /\ r < row) ->
                cell 0%Z grid r c <> 0%Z -> inColumnRange c (cell 0%Z grid r c)).
      { intros r c Hr Hc [Hlt|[-> Hlt]].
        - specialize (Hleft c ltac:(lia)). cbv beta in Hleft.
          pose proof (firstError_passed _ _ Hleft r) as Hq. cbv beta zeta in Hq.
          specialize (Hq ltac:(apply in_seq; lia)). now apply Hcell.
        - specialize (Habove r ltac:(lia)). cbv beta zeta in Habove.
          now apply Hcell. }
      unfold inColumnRange.
      destruct (Z.ltb_spec (cell 0%Z grid row col)
                  (fst (nth col Generator.columnRanges (0, 0)%Z)));
        [|destruct (Z.ltb_spec (snd (nth col Generator.columnRanges (0, 0)%Z))
                      (cell 0%Z grid row col)); [|discriminate]];
        injection E as <-;
        (split; [lia|]; split; [lia|]; split; [assumption|];
         split; [lia|]; split; [exact Hearlier|reflexivity]).
    + right. split; [assumption|].
      destruct (Nat.eqb_spec (length (numbersOf grid))
                  (length (Generator.distinct (numbersOf grid)))) as [|Hne];
        [discriminate|].
      injection Hfail as <-. split; [|split; [reflexivity|]].
      * intros row col Hrow Hcol.
        pose proof (firstError_passed _ _ Eranges col) as Hp. cbv beta in Hp.
        specialize (Hp ltac:(apply in_seq; lia)).
        pose proof (firstError_passed _ _ Hp row) as Hq. cbv beta zeta in Hq.
        specialize (Hq ltac:(apply in_seq; lia)). now apply Hcell.
      * intros Hnd. apply Hne. now rewrite (distinct_NoDup _ Hnd).
Qed.

(** The grid of the sample ticket with the number of its first row's first
    cell and the last number of its third row taken out: rows 0 and 2 are
    short, and the error names row 0. *)
Lemma validateTicket_errors_witness :
  let grid := setCell (setCell (grid sampleTicket) 0 0 0%Z) 2 7 0%Z in
  validateTicket grid = Some "Invalid ticket: Row 0 has 4 numbers instead of 5" /\
  length (rowNumbers grid 2) = 4 /\
  ((exists row, row < 3 /\ length (rowNumbers grid row) <> 5 /\
      (forall above, above < row -> length (rowNumbers grid above) = 5) /\
      "Invalid ticket: Row 0 has 4 numbers instead of 5" =
      TicketError.row row (length (rowNumbers grid row))) \/
   ((forall row, row < 3 -> length (rowNumbers grid row) = 5) /\
    exists row col, row < 3 /\ col < 9 /\ cell 0%Z grid row col <> 0%Z /\
      ~ inColumnRange col (cell 0%Z grid row col) /\
      (forall r c, r < 3 -> c < 9 -> c < col \/ (c = col /\ r < row) ->
         cell 0%Z grid r c <> 0%Z -> inColumnRange c (cell 0%Z grid r c)) /\
      "Invalid ticket: Row 0 has 4 numbers instead of 5" =
      TicketError.range (cell 0%Z grid row col) col) \/
   ((forall row, row < 3 -> length (rowNumbers grid row) = 5) /\
    (forall row col, row < 3 -> col < 9 ->
       cell 0%Z grid row col <> 0%Z -> inColumnRange col (cell 0%Z grid row col)) /\
    "Invalid ticket: Row 0 has 4 numbers instead of 5" = TicketError.duplicates /\
    ~ NoDup (numbersOf grid))).
Proof.
  cbv zeta. split; [reflexivity|]. split; [reflexivity|].
  apply (validateTicket_errors
           (setCell (setCell (grid sampleTicket) 0 0 0%Z) 2 7 0%Z)).
  - split; [reflexivity|]. intros row [<-|[<-|[<-|[]]]]; reflexivity.
  - reflexivity.
Defined.
(** ** Which columns a generated ticket uses *)

Lemma addToColumn_grows col st rnd :
  Selecting st -> col < 9 ->
  (nth col (columnCounts st) 0 < 3)%Z -> (totalNumbers st < 15)%Z ->
  let old := length (nth col (columnNumbers st) []) in
  let new := length (nth col (columnNumbers (fst (addToColumn col st rnd))) []) in
  old + 1 <= new <= old + 2.
Proof.
  intros Hst Hcol Hroom Hneed.
  pose proof (Selecting_count st col Hst) as Hcount.
  pose proof Hst as (Hlen & _).
  unfold addToColumn, targetNumbers, randomInt.
  pose proof (Nat.mod_upper_bound (rnd 0) 2 ltac:(lia)) as Hr.
  set (r := rnd 0 mod 2) in *.
  set (chosen := nth col (columnNumbers st) []) in *.
  set (available := availableNumbers col chosen).
  pose proof (availableNumbers_many col chosen Hcol) as Hmany. fold available in Hmany.
  set (numbersToAdd :=
         (Z.min (Z.min (3 - nth col (columnCounts st) 0) (15 - totalNumbers st))
                (Z.of_nat r + 1))%Z).
  assert (Hk : (1 <= numbersToAdd <= 2)%Z) by (unfold numbersToAdd; lia).
  clearbody numbersToAdd.
  destruct (Z.leb_spec numbersToAdd (Z.of_nat (length available))) as [Hle|Hgt];
    [|lia].
  destruct (shuffleArray available _) as [shuffled rnd2] eqn:Hsh.
  pose proof (shuffleArray_perm available (fun k => rnd (S k))) as Hperm.
  rewrite Hsh in Hperm. cbn [fst] in Hperm.
  cbn [fst columnNumbers]. rewrite nth_assign_same by lia.
  rewrite length_app, (Permutation_length (sortNumbers_perm _)).
  rewrite firstn_length_le by (rewrite <- (Permutation_length Hperm); lia).
  lia.
Qed.

Lemma concat_bound (l : list (list Z)) : forall c,
  (forall i, i < length l ->
     length (nth i l []) <= (if i <? c then 2 else 0)) ->
  length (concat l) <= 2 * c.
Proof.
  induction l as [|x t IH]; intros c H; [simpl; lia|].
  cbn [concat]. rewrite length_app.
  pose proof (H 0 ltac:(simpl; lia)) as H0. cbn [nth] in H0.
  destruct c as [|c].
  - change (0 <? 0) with false in H0. cbv iota in H0.
    assert (length (concat t) <= 2 * 0); [|lia].
    apply IH. intros i Hi. specialize (H (S i) ltac:(simpl; lia)).
    cbn [nth] in H. exact H.
  - assert (length (concat t) <= 2 * c).
    { apply IH. intros i Hi. apply (H (S i)). simpl. lia. }
    change (0 <? S c) with true in H0. cbv iota in H0. lia.
Qed.

(** The first sweep gives one or two numbers to a column after the other;
    fifteen numbers need at least eight columns. *)
Lemma sweep_fills n : forall c st rnd,
  c + n = 9 -> Selecting st ->
  (forall c', c <= c' -> nth c' (columnNumbers st) [] = []) ->
  (forall c', c' < c -> 1 <= length (nth c' (columnNumbers st) []) <= 2) ->
  forall c', c' < 8 ->
    1 <= length (nth c' (columnNumbers (fst (sweep (seq c n) st rnd))) []).
Proof.
  induction n as [|n IH]; intros c st rnd Hc Hst Hempty Hfilled c' Hc'.
  - apply Hfilled. lia.
  - cbn [seq sweep]. unfold targetNumbers.
    destruct (Z.ltb_spec (totalNumbers st) 15) as [Hlt|Hge].
    + pose proof (Selecting_count st c Hst) as Hcount.
      rewrite (Hempty c (le_n c)) in Hcount. simpl in Hcount.
      rewrite Hcount. cbn [Z.ltb Z.compare].
      pose proof (addToColumn_spec c st rnd Hst) as Hadd.
      pose proof (addToColumn_grows c st rnd Hst) as Hgrow.
      destruct (addToColumn c st rnd) as [st1 rnd1]. cbn [fst] in Hadd, Hgrow.
      destruct Hadd as (Hst1 & _ & Hother); try lia.
      specialize (Hgrow ltac:(lia) ltac:(lia) Hlt).
      rewrite (Hempty c (le_n c)) in Hgrow. simpl in Hgrow.
      apply IH; auto; try lia.
      * intros c2 Hc2. rewrite Hother by lia. apply Hempty. lia.
      * intros c2 Hc2. destruct (Nat.eq_dec c2 c) as [->|Hne]; [lia|].
        rewrite Hother by lia. apply Hfilled. lia.
    + cbn [fst]. apply Hfilled.
      destruct Hst as (Hlen & _ & Htotal & _).
      assert (length (concat (columnNumbers st)) <= 2 * c); [|lia].
      apply concat_bound. intros i Hi.
      destruct (Nat.ltb_spec i c) as [Hic|Hic].
      * apply Hfilled. assumption.
      * rewrite Hempty by assumption. simpl. lia.
Qed.

Lemma selectLoop_first fuel rnd st rnd' :
  selectLoop fuel initialSelection rnd = Some (st, rnd') ->
  st = fst (sweep (seq 0 9) initialSelection rnd).
Proof.
  destruct fuel as [|fuel]; [discriminate|].
  pose proof (sweep_first 9 0 initialSelection rnd eq_refl Selecting_initial eq_refl)
    as Hsweep.
  cbn [selectLoop].
  change (totalNumbers initialSelection <? targetNumbers)%Z with true.
  cbv iota.
  destruct (sweep (seq 0 9) initialSelection rnd) as [st1 rnd1]. cbn [fst] in *.
  destruct Hsweep as (Hst1 & Hdone).
  { intros c' _. apply initialSelection_empty. }
  destruct (Nat.eqb_spec (length (columnsToUse st1)) 9) as [_|Hne].
  - now intros [= <- _].
  - destruct Hdone as [Hdone|Hdone].
    + destruct fuel; simpl; rewrite Hdone; now intros [= <- _].
    + rewrite Hdone in Hne. now elim Hne.
Qed.

Lemma nth_assign_longer (l : list (list Z)) i v c :
  length (nth i l []) <= length v ->
  length (nth c l []) <= length (nth c (assign l i v) []).
Proof.
  intros Hv. destruct (Nat.eq_dec i c) as [->|Hne].
  - destruct (Nat.lt_ge_cases c (length l)).
    + now rewrite nth_assign_same.
    + now rewrite assign_overflow.
  - now rewrite nth_assign_other.
Qed.

Lemma addOne_keeps cols : forall st rnd c,
  length (nth c (columnNumbers st) []) <=
  length (nth c (columnNumbers (fst (addOne cols st rnd))) []).
Proof.
  induction cols as [|col cols IH]; intros st rnd c; [reflexivity|].
  cbn [addOne].
  destruct ((nth col (columnCounts st) 0 <? 3)%Z
            && (totalNumbers st <? targetNumbers)%Z); [|apply IH].
  destruct (0 <? length (availableNumbers col (nth col (columnNumbers st) [])));
    [|apply IH].
  destruct (randomInt _ rnd) as [k rnd1]. cbn [fst columnNumbers].
  apply nth_assign_longer.
  rewrite (Permutation_length (sortNumbers_perm _)), length_app. lia.
Qed.

Lemma addLoop_keeps fuel : forall st rnd st' rnd' c,
  addLoop fuel st rnd = Some (st', rnd') ->
  length (nth c (columnNumbers st) []) <= length (nth c (columnNumbers st') []).
Proof.
  induction fuel as [|fuel IH]; intros st rnd st' rnd' c; cbn [addLoop];
    destruct (totalNumbers st <? targetNumbers)%Z;
    try discriminate; try (intros [= <- _]; reflexivity).
  pose proof (addOne_keeps (seq 0 9) st rnd c) as Hone.
  destruct (addOne (seq 0 9) st rnd) as [st1 rnd1]. cbn [fst] in Hone.
  intros H. specialize (IH _ _ _ _ c H). lia.
Qed.

(** The selection a returned ticket is laid out from. *)
Lemma generate_selection fuel rnd ticket rnd' :
  generateHousieTicket fuel rnd = Normal ticket rnd' ->
  exists numbers,
    WellChosen numbers /\
    (forall col, col < 8 -> 1 <= length (nth col numbers [])) /\
    grid ticket = fst (placeAll numbers).
Proof.
  unfold generateHousieTicket.
  destruct (selectLoop fuel initialSelection rnd) as [[st1 rnd1]|] eqn:E1;
    [|discriminate].
  pose proof (selectLoop_first _ _ _ _ E1) as Hfirst.
  apply selectLoop_sound in E1.
  destruct (addLoop fuel st1 rnd1) as [[st2 rnd2]|] eqn:E2; [|discriminate].
  pose proof (fun c => addLoop_keeps _ _ _ _ _ c E2) as Hkeep.
  apply addLoop_sound in E2; [|assumption]. destruct E2 as [Hst2 H15].
  rewrite (removeLoop_done fuel st2 H15).
  pose proof (Selecting_WellChosen st2 Hst2 H15) as Hwc.
  destruct (placeAll (columnNumbers st2)) as [cells rowCounts] eqn:Eplace.
  destruct (validateTicket cells); [discriminate|].
  intros [= <- _]. exists (columnNumbers st2).
  rewrite Eplace. split; [assumption|split; [|reflexivity]].
  intros col Hcol. specialize (Hkeep col).
  assert (1 <= length (nth col (columnNumbers st1) [])); [|lia].
  rewrite Hfirst.
  apply (sweep_fills 9 0 initialSelection rnd eq_refl Selecting_initial); auto.
  - intros c' _. apply initialSelection_empty.
  - intros c' Hc'. lia.
Qed.

Lemma numbersOf_cell (cells : list (list Z)) num :
  shaped cells -> In num (numbersOf cells) ->
  exists row col, row < 3 /\ col < 9 /\ cell 0%Z cells row col = num /\ num <> 0%Z.
Proof.
  intros [Hlen Hwide] Hin. apply filter_In in Hin. destruct Hin as [Hin Hfilled].
  apply in_concat in Hin. destruct Hin as (line & Hline & Hin).
  destruct (In_nth _ _ [] Hline) as (row & Hrow & Eline).
  destruct (In_nth _ _ 0%Z Hin) as (col & Hcol & Enum).
  exists row, col. rewrite (Hwide _ Hline) in Hcol. unfold cell.
  rewrite Eline. split; [lia|]. split; [lia|]. split; [assumption|].
  now apply nonEmpty_true.
Qed.

Lemma inColumnRange_column c1 c2 num :
  c1 < 9 -> c2 < 9 -> inColumnRange c1 num -> inColumnRange c2 num -> c1 = c2.
Proof.
  intros H1 H2 R1 R2.
  apply inColumnRange_bounds in R1, R2; try assumption. lia.
Qed.

Lemma columnValues_cell (cells : list (list Z)) row col :
  row < length cells -> cell 0%Z cells row col <> 0%Z ->
  1 <= length (columnValues cells col).
Proof.
  intros Hrow Hfilled.
  assert (Hin : In (cell 0%Z cells row col) (columnValues cells col)).
  { apply filter_In. split; [|now apply nonEmpty_true].
    apply in_map_iff. exists (nth row cells []). split; [reflexivity|].
    now apply nth_In. }
  destruct (columnValues cells col); [destruct Hin|simpl; lia].
Qed.

Lemma generated_column_filled fuel rnd ticket rnd' col :
  generateHousieTicket fuel rnd = Normal ticket rnd' -> col < 8 ->
  1 <= length (columnValues (grid ticket) col).
Proof.
  intros E Hcol.
  destruct (generate_selection _ _ _ _ E) as (numbers & Hwc & Hfilled & ->).
  pose proof Hwc as [Hsel Hranges _].
  specialize (Hfilled col Hcol).
  destruct (nth col numbers []) as [|num rest] eqn:Ecol; [simpl in Hfilled; lia|].
  assert (Hnum : In num (nth col numbers [])) by (rewrite Ecol; now left).
  assert (Hall : In num (concat numbers)).
  { apply in_concat. exists (nth col numbers []). split; [|assumption].
    apply nth_In. rewrite (selected_columns _ Hsel). lia. }
  apply (Permutation_in _ (Permutation_sym (placed_numbers _ Hsel))) in Hall.
  destruct (numbersOf_cell _ _ (placed_shaped _ Hsel) Hall)
    as (row & c & Hrow & Hc & Ecell & Hnz).
  assert (c = col).
  { apply (inColumnRange_column c col num); try lia.
    - apply Hranges; [assumption|]. rewrite <- Ecell.
      apply placed_cells; auto. now rewrite Ecell.
    - apply Hranges; [lia|assumption]. }
  subst c. apply (columnValues_cell _ row).
  - destruct (placed_shaped _ Hsel) as [-> _]. assumption.
  - now rewrite Ecell.
Qed.

(** Every returned ticket has a number in each of its first eight columns;
    the ninth column, 80-90, can stay empty, as in the ticket generated when
    every draw is 1. *)
Theorem generated_first_columns_filled :
  (forall fuel rnd ticket rnd' col,
     generateHousieTicket fuel rnd = Normal ticket rnd' -> col < 8 ->
     1 <= length (columnValues (grid ticket) col)) /\
  generateHousieTicket 15 alwaysOne = Normal sampleTicket alwaysOne /\
  columnValues (grid sampleTicket) 8 = [].
Proof.
  split; [apply generated_column_filled|].
  split; [vm_compute|]; reflexivity.
Qed.

Lemma generated_first_columns_filled_witness :
  1 <= length (columnValues (grid sampleTicket) 7).
Proof.
  apply (proj1 generated_first_columns_filled 15 alwaysOne sampleTicket alwaysOne 7);
    [vm_compute; reflexivity|lia].
Defined.
(** ** What the validators accept *)

Import Accepted.

Lemma distinct_shorter_num l : length (Validator.distinct l) <= length l.
Proof.
  induction l as [|x rest IH]; [reflexivity|]. cbn [Validator.distinct].
  destruct (existsb (sameValueZero x) rest); simpl; lia.
Qed.

Lemma distinct_allDifferent l :
  length (Validator.distinct l) = length l <-> allDifferent l.
Proof.
  induction l as [|x rest IH]; [now split|].
  cbn [Validator.distinct allDifferent].
  pose proof (distinct_shorter_num rest).
  destruct (existsb (sameValueZero x) rest) eqn:E.
  - split; [simpl; lia|]. intros [Hx _]. exfalso.
    apply existsb_exists in E. destruct E as (y & Hy & E).
    rewrite (Hx y Hy) in E. discriminate.
  - simpl. split.
    + intros Hlen. split; [|apply IH; lia].
      intros y Hy. apply not_true_is_false. intros Hxy.
      assert (existsb (sameValueZero x) rest = true); [|congruence].
      apply existsb_exists. now exists y.
    + intros [_ Hrest]. f_equal. now apply IH.
Qed.

Lemma validNumbersOf_positive ticketNumbers num :
  In num (validNumbersOf ticketNumbers) -> positive num = true.
Proof.
  unfold validNumbersOf. intros H. apply in_flat_map in H.
  destruct H as (v & _ & H). destruct v; try destruct H.
  destruct (positive n) eqn:E; [|destruct H].
  destruct H as [<-|[]]. assumption.
Qed.

Lemma outside_range num :
  positive num = true ->
  ltNum num (ofZ 1) || ltNum (ofZ 90) num = negb (withinRange num).
Proof.
  unfold positive, withinRange, ofZ.
  destruct num as [q| | |]; cbn [ltNum leNum]; try discriminate; [|reflexivity].
  intros _. now rewrite negb_andb.
Qed.

Lemma flat_map_empty {A B : Type} (f : A -> list B) (l : list A) :
  flat_map f l = [] -> forall x, In x l -> f x = [].
Proof.
  induction l as [|y t IH]; intros H x []; cbn [flat_map] in H;
    apply app_eq_nil in H; destruct H; subst; auto.
Qed.

Section Acceptance.

Variable JSON_parse : string -> option JSValue.
Variable showNumber : number -> string.
Variable showError : Exception -> string.

Lemma countIssue_none validNumbers :
  countIssue validNumbers = [] <-> length validNumbers = 15.
Proof.
  unfold countIssue. destruct (Nat.eqb_spec (length validNumbers) 15);
    cbn [negb]; split; auto; [discriminate|contradiction].
Qed.

Lemma duplicateIssue_none validNumbers :
  duplicateIssue validNumbers = [] <-> allDifferent validNumbers.
Proof.
  rewrite <- distinct_allDifferent. unfold duplicateIssue.
  destruct (Nat.eqb_spec (length (Validator.distinct validNumbers))
              (length validNumbers));
    cbn [negb]; split; auto; [discriminate|contradiction].
Qed.

Lemma rangeIssues_none validNumbers :
  (forall num, In num validNumbers -> positive num = true) ->
  rangeIssues showNumber validNumbers = [] <->
  forall num, In num validNumbers -> withinRange num = true.
Proof.
  intros Hpos. unfold rangeIssues. split.
  - intros H num Hnum.
    pose proof (flat_map_empty _ _ H num Hnum) as E. cbv beta in E.
    rewrite (outside_range num (Hpos num Hnum)) in E.
    now destruct (withinRange num).
  - intros H. apply flat_map_nothing. intros num Hnum.
    rewrite (outside_range num (Hpos num Hnum)), (H num Hnum). reflexivity.
Qed.

Lemma columnIssues_found validNumbers :
  columnIssues (countColumns validNumbers) = [] <->
  forall col, col < 9 -> length (filter (inColumn col) validNumbers) <= 3.
Proof.
  split.
  - intros H col Hcol.
    pose proof (flat_map_empty _ _ H col) as E. cbv beta in E.
    rewrite countColumns_length in E. specialize (E ltac:(apply in_seq; lia)).
    rewrite countColumns_nth in E.
    destruct (Nat.ltb_spec 3 (length (filter (inColumn col) validNumbers)));
      [discriminate|assumption].
  - intros H. apply columnIssues_none. intros col.
    destruct (Nat.lt_ge_cases col 9) as [Hcol|Hcol].
    + rewrite countColumns_nth. now apply H.
    + rewrite nth_overflow by (now rewrite countColumns_length). lia.
Qed.

Lemma summary_follows counts :
  columnIssues counts = [] -> hasColumnIssues counts = false.
Proof.
  intros H. apply not_true_is_false. intros E. apply existsb_exists in E.
  destruct E as (col & Hcol & E).
  pose proof (flat_map_empty _ _ H col Hcol) as E'. cbv beta in E'.
  rewrite E in E'. discriminate.
Qed.

Lemma allIssues_none summary validNumbers :
  (forall num, In num validNumbers -> positive num = true) ->
  (length (allIssues showNumber summary validNumbers) =? 0) = true <->
  Acceptable validNumbers.
Proof.
  intros Hpos. rewrite Nat.eqb_eq, length_zero_iff_nil. unfold allIssues.
  split.
  - intros H.
    apply app_eq_nil in H. destruct H as [Hcount H].
    apply app_eq_nil in H. destruct H as [Hdup H].
    apply app_eq_nil in H. destruct H as [Hrange H].
    apply app_eq_nil in H. destruct H as [Hcols _].
    constructor.
    + now apply countIssue_none.
    + now apply duplicateIssue_none.
    + now apply rangeIssues_none.
    + now apply columnIssues_found.
  - intros [Hcount Hdup Hrange Hcols].
    apply countIssue_none in Hcount. apply duplicateIssue_none in Hdup.
    apply rangeIssues_none in Hrange; [|assumption].
    apply columnIssues_found in Hcols.
    now rewrite Hcount, Hdup, Hrange, Hcols, (summary_follows _ Hcols).
Qed.

(** validateExistingTicket accepts a candidate list exactly when its valid
    numbers are fifteen, no two the same, each within 1-90, at most three
    in the range of a column. *)
Theorem validateExistingTicket_accepts numbers ticketNumbers :
  candidateList JSON_parse numbers = Some ticketNumbers ->
  isValid (validateExistingTicket JSON_parse showNumber showError numbers) = true
  <-> Acceptable (validNumbersOf ticketNumbers).
Proof.
  intros Hlist.
  rewrite (validateExistingTicket_checks JSON_parse showNumber showError _ _ Hlist).
  cbn [isValid]. apply allIssues_none. apply validNumbersOf_positive.
Qed.

End Acceptance.

Lemma validateExistingTicket_accepts_witness :
  isValid (validateExistingTicket (fun _ => None) (fun _ => "") (fun _ => "")
             (arrayOfNumbers (flatNumbers sampleTicket))) = true
  <-> Acceptable (validNumbersOf
                    (map (fun z => JSNumber (ofZ z)) (flatNumbers sampleTicket))).
Proof.
  apply (validateExistingTicket_accepts (fun _ => None) (fun _ => "") (fun _ => "")
           (arrayOfNumbers (flatNumbers sampleTicket))).
  reflexivity.
Defined.
(** ** The two validators side by side *)

Section SideBySide.

Variable JSON_parse : string -> option JSValue.
Variable showNumber : number -> string.
Variable showError : Exception -> string.

Lemma allIssues_summary summary validNumbers :
  allIssues showNumber summary validNumbers =
  (countIssue validNumbers ++ duplicateIssue validNumbers
   ++ rangeIssues showNumber validNumbers
   ++ columnIssues (countColumns validNumbers))
  ++ (if hasColumnIssues (countColumns validNumbers) then [summary] else []).
Proof. unfold allIssues. now rewrite !app_assoc. Qed.

Lemma allIssues_length summary summary' validNumbers :
  length (allIssues showNumber summary validNumbers) =
  length (allIssues showNumber summary' validNumbers).
Proof.
  rewrite !allIssues_summary, !length_app.
  now destruct (hasColumnIssues (countColumns validNumbers)).
Qed.

(** The two flags of validateTicketFormat are one: isProperFormat is true
    exactly when isValid is. *)
Theorem isProperFormat_is_isValid candidate :
  isProperFormat (validateTicketFormat showNumber showError candidate) =
  formatIsValid (validateTicketFormat showNumber showError candidate).
Proof.
  destruct candidate; try reflexivity. cbn [validateTicketFormat isProperFormat formatIsValid].
  set (validNumbers := validNumbersOf elements).
  destruct (hasColumnIssues (countColumns validNumbers)) eqn:Ehas;
    [|reflexivity].
  cbn [negb andb]. symmetry. apply Nat.eqb_neq.
  rewrite allIssues_summary, Ehas, length_app. simpl. lia.
Qed.

(** On an array whose first element is not an array, validateTicketFormat
    and validateExistingTicket give the same verdict and the same issues up
    to the summary that ends the list after a column issue. *)
Theorem validators_agree elements :
  isArray (nth 0 elements JSUndefined) = false ->
  let report :=
    validateExistingTicket JSON_parse showNumber showError (JSArray elements) in
  let format := validateTicketFormat showNumber showError (JSArray elements) in
  formatIsValid format = isValid report /\
  removelast (formatIssues format) = removelast (issues report) /\
  (hasColumnIssues (formatColumnCounts format) = false ->
   formatIssues format = issues report).
Proof.
  intros Hflat report format.
  assert (Hlist : candidateList JSON_parse (JSArray elements) = Some elements).
  { unfold candidateList. now rewrite Hflat. }
  subst report.
  rewrite (validateExistingTicket_checks JSON_parse showNumber showError _ _ Hlist).
  subst format. cbn [validateTicketFormat formatIsValid formatIssues isValid issues
                     formatColumnCounts].
  split; [|split].
  - now rewrite (allIssues_length _ regenerationNeeded).
  - rewrite !allIssues_summary.
    destruct (hasColumnIssues (countColumns (validNumbersOf elements))).
    + now rewrite !removelast_last.
    + reflexivity.
  - intros Hnone. now rewrite !allIssues_summary, Hnone.
Qed.

End SideBySide.

Lemma validators_agree_witness :
  let elements := map (fun z => JSNumber (ofZ z)) [1; 2; 3; 4; 95]%Z in
  let report :=
    validateExistingTicket (fun _ => None) (fun _ => "") (fun _ => "")
      (JSArray elements) in
  let format := validateTicketFormat (fun _ => "") (fun _ => "") (JSArray elements) in
  formatIsValid format = isValid report /\
  removelast (formatIssues format) = removelast (issues report) /\
  (hasColumnIssues (formatColumnCounts format) = false ->
   formatIssues format = issues report).
Proof.
  apply (validators_agree (fun _ => None) (fun _ => "") (fun _ => "")
           (map (fun z => JSNumber (ofZ z)) [1; 2; 3; 4; 95]%Z)).
  reflexivity.
Defined.
(** ** The manual layout, for any ticket without a crowded column *)

Lemma rows_in_turn k row :
  k <= 15 -> row < 3 ->
  length (filter (fun i => i mod 3 =? row) (seq 0 k)) = (k + 2 - row) / 3.
Proof.
  intros Hk Hrow.
  do 3 (destruct row as [|row]; [below 16 k; reflexivity|]). lia.
Qed.

Section LaidOutAny.

Variable validNumbers : list number.
Hypothesis atMost : length validNumbers <= 15.
Hypothesis capacity : columnOverflow validNumbers = false.

Lemma grouped_perm :
  Permutation (concat (sortedColumns validNumbers)) (filter hasColumn validNumbers).
Proof.
  unfold sortedColumns. rewrite (concat_map_perm sortNums _ sortNums_perm).
  apply groupByColumn_perm.
Qed.

Lemma grouped_length : length (sortedColumns validNumbers) = 9.
Proof. unfold sortedColumns. now rewrite length_map, groupByColumn_length. Qed.

Lemma grouped_Ready :
  Ready (ofZ 0) filledNumber 0 Display.emptyGrid
        (RoundRobin.entriesOf (sortedColumns validNumbers) (seq 0 9)).
Proof.
  apply Ready_blank; [reflexivity| |].
  - intros col _. rewrite sortedColumns_nth.
    rewrite (Permutation_length (sortNums_perm _)).
    now apply columnOverflow_capacity.
  - intros num Hnum. apply hasColumn_filled.
    apply (Permutation_in _ grouped_perm) in Hnum.
    now apply filter_In in Hnum.
Qed.

Lemma grouped_entries :
  length (RoundRobin.entriesOf (sortedColumns validNumbers) (seq 0 9)) =
  length (filter hasColumn validNumbers).
Proof.
  rewrite <- (length_map fst), entriesOf_numbers by apply grouped_length.
  apply (Permutation_length grouped_perm).
Qed.

Lemma grouped_few : length (filter hasColumn validNumbers) <= 15.
Proof. pose proof (filter_length_le hasColumn validNumbers). lia. Qed.

Lemma layOut_inTurn :
  fst (layOut (sortedColumns validNumbers)) =
  place 0 Display.emptyGrid
    (RoundRobin.entriesOf (sortedColumns validNumbers) (seq 0 9)).
Proof.
  unfold layOut.
  change (Display.entriesOf (sortedColumns validNumbers))
    with (RoundRobin.entriesOf (sortedColumns validNumbers) (seq 0 9)).
  change [0; 0; 0]%Z with (counts 0).
  rewrite placeManually_roundRobin; [reflexivity|].
  rewrite grouped_entries. pose proof grouped_few. lia.
Qed.

Lemma grouped_numbers :
  Permutation
    (filter filledNumber (concat (fst (layOut (sortedColumns validNumbers)))))
    (filter hasColumn validNumbers).
Proof.
  rewrite layOut_inTurn.
  rewrite (place_numbers (ofZ 0) filledNumber _ _ _ grouped_Ready).
  rewrite entriesOf_numbers by apply grouped_length.
  change (filter filledNumber (concat Display.emptyGrid)) with (@nil number).
  rewrite app_nil_r. apply grouped_perm.
Qed.

Lemma grouped_rows row :
  row < 3 ->
  length (filter filledNumber
            (nth row (fst (layOut (sortedColumns validNumbers))) [])) =
  (length (filter hasColumn validNumbers) + 2 - row) / 3.
Proof.
  intros Hrow. rewrite layOut_inTurn.
  rewrite (place_rows (ofZ 0) filledNumber _ _ _ _ grouped_Ready).
  rewrite grouped_entries, rows_in_turn by (assumption || apply grouped_few).
  do 3 (destruct row as [|row]; [reflexivity|]). lia.
Qed.

Lemma grouped_columns row col :
  col < 9 ->
  filledNumber
    (cell (ofZ 0) (fst (layOut (sortedColumns validNumbers))) row col) = true ->
  inColumn col
    (cell (ofZ 0) (fst (layOut (sortedColumns validNumbers))) row col) = true.
Proof.
  intros Hcol. rewrite layOut_inTurn. intros Hfilled.
  destruct (place_cells (ofZ 0) filledNumber _ 0 Display.emptyGrid row col
              grouped_Ready) as [E|Hin].
  - rewrite E in Hfilled. unfold Display.emptyGrid in Hfilled.
    rewrite cell_blank in Hfilled. discriminate.
  - apply entriesOf_In in Hin. destruct Hin as [_ Hin].
    rewrite sortedColumns_nth in Hin.
    apply (Permutation_in _ (sortNums_perm _)) in Hin.
    now apply filter_In in Hin.
Qed.

Lemma grouped_shaped : shaped (fst (layOut (sortedColumns validNumbers))).
Proof. rewrite layOut_inTurn. apply place_shaped, shaped_blank. Qed.

End LaidOutAny.

(** What analyzeTicket lays out from fifteen positive numbers with no
    crowded column: exactly the numbers that lie in the range of a column,
    each in its column, dealt to the rows in turn; the others are left out. *)
Theorem analyzeTicket_lays_out_columns ticketNumbers :
  length (filter positive ticketNumbers) = 15 ->
  columnOverflow (filter positive ticketNumbers) = false ->
  exists grid,
    (forall fuel rnd, analyzeTicketGrid fuel ticketNumbers rnd = Some (grid, rnd)) /\
    Permutation (filter filledNumber (concat grid))
                (filter hasColumn (filter positive ticketNumbers)) /\
    (forall row, row < 3 ->
       length (filter filledNumber (nth row grid [])) =
       (length (filter hasColumn (filter positive ticketNumbers)) + 2 - row) / 3) /\
    (forall row col, col < 9 ->
       filledNumber (cell (ofZ 0) grid row col) = true ->
       inColumn col (cell (ofZ 0) grid row col) = true).
Proof.
  intros Hlen Hcap.
  exists (fst (layOut (sortedColumns (filter positive ticketNumbers)))).
  assert (Hfew : length (filter positive ticketNumbers) <= 15) by lia.
  split; [|split; [|split]].
  - intros fuel rnd. unfold analyzeTicketGrid. now rewrite Hlen, Hcap.
  - now apply grouped_numbers.
  - intros row Hrow. now apply grouped_rows.
  - intros row col Hcol. now apply grouped_columns.
Qed.

Lemma analyzeTicket_lays_out_columns_witness :
  exists grid,
    (forall fuel rnd, analyzeTicketGrid fuel legacyNumbers rnd = Some (grid, rnd)) /\
    Permutation (filter filledNumber (concat grid))
                (filter hasColumn (filter positive legacyNumbers)) /\
    (forall row, row < 3 ->
       length (filter filledNumber (nth row grid [])) =
       (length (filter hasColumn (filter positive legacyNumbers)) + 2 - row) / 3) /\
    (forall row col, col < 9 ->
       filledNumber (cell (ofZ 0) grid row col) = true ->
       inColumn col (cell (ofZ 0) grid row col) = true).
Proof.
  apply (analyzeTicket_lays_out_columns legacyNumbers); reflexivity.
Defined.
(** ** The 3x5 fallback *)

Lemma fallback_prefix ticketNumbers n :
  n <= 15 ->
  let grid :=
    fold_left
      (fun grid i =>
         if (i / 5 <? 3) && positive (nth i ticketNumbers NaN)
         then setCell grid (i / 5) (i mod 5) (nth i ticketNumbers NaN) else grid)
      (seq 0 n) Display.emptyGrid in
  shaped grid /\
  forall row col, row < 3 -> col < 9 ->
    cell (ofZ 0) grid row col =
    if (col <? 5) && (5 * row + col <? n)
       && positive (nth (5 * row + col) ticketNumbers NaN)
    then nth (5 * row + col) ticketNumbers NaN else ofZ 0.
Proof.
  induction n as [|n IH]; intros Hn; cbv zeta.
  - split; [apply shaped_blank|]. intros row col _ _. cbn [seq fold_left].
    unfold Display.emptyGrid. rewrite cell_blank.
    change (5 * row + col <? 0) with false. now rewrite andb_false_r.
  - rewrite seq_S, fold_left_app. cbn [fold_left Nat.add].
    destruct (IH ltac:(lia)) as [Hshape Hcells]. cbv zeta in Hshape, Hcells.
    set (grid := fold_left _ (seq 0 n) Display.emptyGrid) in *.
    pose proof (Nat.div_mod_eq n 5) as Hdiv.
    pose proof (Nat.mod_upper_bound n 5 ltac:(lia)) as Hmod.
    assert (Hrow : n / 5 < 3) by lia.
    apply Nat.ltb_lt in Hrow. rewrite Hrow. cbn [andb]. apply Nat.ltb_lt in Hrow.
    destruct (positive (nth n ticketNumbers NaN)) eqn:Hpos.
    + split; [now apply shaped_setCell|]. intros row col Hr Hc.
      destruct (Nat.eq_dec (5 * row + col) n) as [E|Hne];
        [destruct (Nat.ltb_spec col 5) as [Hc5|Hc5]|].
      * assert (row = n / 5 /\ col = n mod 5) as [-> ->] by lia.
        rewrite cell_setCell_same.
        -- rewrite <- Hdiv. rewrite Hpos.
           destruct (Nat.ltb_spec n (S n)); [reflexivity|lia].
        -- destruct Hshape as [-> _]. assumption.
        -- destruct Hshape as [Hlen Hwide]. rewrite Hwide; [lia|].
           apply nth_In. lia.
      * rewrite cell_setCell_other
          by (intros H; apply pair_equal_spec in H; destruct H; lia).
        rewrite Hcells by assumption.
        destruct (Nat.ltb_spec col 5); [lia|reflexivity].
      * rewrite cell_setCell_other
          by (intros H; apply pair_equal_spec in H; destruct H; lia).
        rewrite Hcells by assumption.
        destruct (Nat.ltb_spec (5 * row + col) n), (Nat.ltb_spec (5 * row + col) (S n));
          try lia; reflexivity.
    + split; [assumption|]. intros row col Hr Hc. rewrite Hcells by assumption.
      destruct (Nat.eq_dec (5 * row + col) n) as [E|Hne].
      * rewrite E, Hpos, !andb_false_r. reflexivity.
      * destruct (Nat.ltb_spec (5 * row + col) n), (Nat.ltb_spec (5 * row + col) (S n));
          try lia; reflexivity.
Qed.

Lemma fallback_cells ticketNumbers row col :
  row < 3 -> col < 9 ->
  cell (ofZ 0) (fallbackGrid ticketNumbers) row col =
  if (col <? 5) && positive (nth (5 * row + col) ticketNumbers NaN)
  then nth (5 * row + col) ticketNumbers NaN else ofZ 0.
Proof.
  intros Hrow Hcol. unfold fallbackGrid.
  destruct (fallback_prefix ticketNumbers (Nat.min 15 (length ticketNumbers))
              ltac:(lia)) as [_ Hcells].
  cbv zeta in Hcells. rewrite Hcells by assumption.
  destruct (Nat.ltb_spec col 5) as [Hc5|Hc5]; [|reflexivity]. cbn [andb].
  destruct (Nat.ltb_spec (5 * row + col) (Nat.min 15 (length ticketNumbers)));
    [reflexivity|].
  rewrite nth_overflow by lia. reflexivity.
Qed.

(** A ticket that has not fifteen positive numbers is analysed on the 3x5
    fallback: the first fifteen entries fill the first five columns row
    after row, whatever their values, and an entry that is not positive
    leaves its cell empty. *)
Theorem analyzeTicket_fallback_cells fuel ticketNumbers rnd :
  length (filter positive ticketNumbers) <> 15 ->
  exists grid,
    analyzeTicketGrid fuel ticketNumbers rnd = Some (grid, rnd) /\
    forall row col, row < 3 -> col < 9 ->
      cell (ofZ 0) grid row col =
      if (col <? 5) && positive (nth (5 * row + col) ticketNumbers NaN)
      then nth (5 * row + col) ticketNumbers NaN else ofZ 0.
Proof.
  intros Hlen. exists (fallbackGrid ticketNumbers). split.
  - unfold analyzeTicketGrid.
    destruct (Nat.eqb_spec (length (filter positive ticketNumbers)) 15);
      [contradiction|reflexivity].
  - intros row col. apply fallback_cells.
Qed.

Lemma analyzeTicket_fallback_cells_witness :
  exists grid,
    analyzeTicketGrid 0 (map ofZ [7; 0; 81; 45]%Z) alwaysOne
    = Some (grid, alwaysOne) /\
    forall row col, row < 3 -> col < 9 ->
      cell (ofZ 0) grid row col =
      if (col <? 5) && positive (nth (5 * row + col) (map ofZ [7; 0; 81; 45]%Z) NaN)
      then nth (5 * row + col) (map ofZ [7; 0; 81; 45]%Z) NaN else ofZ 0.
Proof.
  apply (analyzeTicket_fallback_cells 0 (map ofZ [7; 0; 81; 45]%Z) alwaysOne).
  vm_compute. discriminate.
Defined.
(** ** analyzeTicket *)

Import Analysis.

Lemma sameValueZero_refl a : sameValueZero a a = true.
Proof. destruct a; try reflexivity. apply Qeq_bool_refl. Qed.

Lemma sameValueZero_sym a b : sameValueZero a b = sameValueZero b a.
Proof.
  destruct a, b; try reflexivity. cbn [sameValueZero].
  destruct (Qeq_bool q q0) eqn:E, (Qeq_bool q0 q) eqn:E'; try reflexivity.
  - apply Qeq_bool_iff in E. symmetry in E. apply Qeq_bool_iff in E. congruence.
  - apply Qeq_bool_iff in E'. symmetry in E'. apply Qeq_bool_iff in E'. congruence.
Qed.

Lemma includes_member array num : In num array -> includes array num = true.
Proof.
  intros H. apply existsb_exists. exists num. split; [assumption|].
  apply sameValueZero_refl.
Qed.

Lemma includes_incl array array' num :
  incl array array' -> includes array num = true -> includes array' num = true.
Proof.
  intros Hincl H. apply existsb_exists in H. destruct H as (x & Hx & E).
  apply existsb_exists. exists x. split; [now apply Hincl|assumption].
Qed.

Lemma filter_full {A : Type} (p : A -> bool) (l : list A) :
  length (filter p l) = length l <-> forall x, In x l -> p x = true.
Proof.
  induction l as [|x t IH]; [now split|]. cbn [filter].
  pose proof (filter_length_le p t).
  destruct (p x) eqn:E; simpl.
  - split.
    + intros Hlen y [<-|Hy]; [assumption|]. apply IH; [lia|assumption].
    + intros Hall. f_equal. apply IH. intros y Hy. apply Hall. now right.
  - split; [lia|]. intros Hall. rewrite Hall in E by now left. discriminate.
Qed.

Lemma filter_incl_pointwise {A : Type} (p q : A -> bool) (l : list A) :
  (forall x, p x = true -> q x = true) ->
  incl (filter p l) (filter q l) /\ length (filter p l) <= length (filter q l).
Proof.
  intros Hpq. induction l as [|x t [IHi IHl]]; [split; [easy|reflexivity]|].
  cbn [filter]. destruct (p x) eqn:Ep.
  - rewrite (Hpq x Ep). split; [|simpl; lia].
    intros y [<-|Hy]; [now left|right; now apply IHi].
  - destruct (q x); split; try (simpl; lia); try assumption.
    intros y Hy. right. now apply IHi.
Qed.

Lemma complete_grows grid struck struck' index :
  (forall num, includes struck num = true -> includes struck' num = true) ->
  rowComplete grid struck index = true -> rowComplete grid struck' index = true.
Proof.
  intros Hsub. unfold rowComplete. cbv zeta.
  intros H. apply andb_prop in H. destruct H as [Hsome Hall].
  rewrite Hsome. cbn [andb]. apply Nat.eqb_eq in Hall. apply Nat.eqb_eq.
  apply filter_full. intros x Hx. apply Hsub.
  now apply (proj1 (filter_full _ _) Hall).
Qed.

Lemma linesOf_grows names grid struck struck' :
  (forall num, includes struck num = true -> includes struck' num = true) ->
  incl (linesOf names grid struck) (linesOf names grid struck').
Proof.
  intros Hsub line. unfold linesOf. rewrite !in_flat_map.
  intros (index & Hindex & Hline). exists index. split; [assumption|].
  destruct (rowComplete grid struck index) eqn:E; [|destruct Hline].
  now rewrite (complete_grows _ _ _ _ Hsub E).
Qed.

(** Drawing more numbers never takes a win back: the struck numbers, the
    completed lines and a full house of a ticket stay when the drawn
    numbers grow. *)
Theorem analyzeTicket_monotone fuel drawn later ticket rnd a r a' r' :
  drawnWithin drawn later ->
  analyzeTicket fuel drawn ticket rnd = Some (a, r) ->
  analyzeTicket fuel later ticket rnd = Some (a', r') ->
  incl (struckNumbers a) (struckNumbers a') /\
  struckCount a <= struckCount a' /\
  incl (completedLines a) (completedLines a') /\
  (isFullHouse a = true -> isFullHouse a' = true).
Proof.
  intros Hwithin. unfold analyzeTicket.
  destruct drawn as [|d drawn].
  { intros [= <- _] _. cbn. repeat split; try easy; lia. }
  destruct later as [|d' later].
  { specialize (Hwithin d (includes_member (d :: drawn) d ltac:(now left))). discriminate. }
  cbn [length Nat.eqb].
  destruct (analyzeTicketGrid fuel ticket rnd) as [[grid rnd1]|]; [|discriminate].
  intros [= <- _] [= <- _].
  cbn [struckNumbers struckCount completedLines isFullHouse].
  set (valid := filter positive ticket).
  destruct (filter_incl_pointwise (includes (d :: drawn)) (includes (d' :: later))
              valid Hwithin) as [Hincl Hlen].
  assert (Hsub : forall num,
            includes (filter (includes (d :: drawn)) valid) num = true ->
            includes (filter (includes (d' :: later)) valid) num = true).
  { intros num. now apply includes_incl. }
  split; [assumption|]. split; [assumption|]. split; [now apply linesOf_grows|].
  intros H. apply andb_prop in H. destruct H as [Hsome Hall]. rewrite Hsome.
  cbn [andb]. apply forallb_forall. intros x Hx. apply Hsub.
  now apply (proj1 (forallb_forall _ _) Hall).
Qed.

Lemma analyzeTicket_monotone_witness :
  exists a a',
    analyzeTicket 0 [ofZ 1] (map ofZ (flatNumbers sampleTicket)) alwaysOne
    = Some (a, alwaysOne) /\
    analyzeTicket 0 [ofZ 1; ofZ 3] (map ofZ (flatNumbers sampleTicket)) alwaysOne
    = Some (a', alwaysOne) /\
    incl (struckNumbers a) (struckNumbers a') /\
    struckCount a <= struckCount a' /\
    incl (completedLines a) (completedLines a') /\
    (isFullHouse a = true -> isFullHouse a' = true).
Proof.
  eexists. eexists. split; [vm_compute; reflexivity|].
  split; [vm_compute; reflexivity|].
  apply (analyzeTicket_monotone 0 [ofZ 1] [ofZ 1; ofZ 3]
           (map ofZ (flatNumbers sampleTicket)) alwaysOne _ alwaysOne _ alwaysOne).
  - intros num H. unfold includes in *. cbn [existsb] in *.
    rewrite orb_false_r in H. now rewrite H.
  - vm_compute. reflexivity.
  - vm_compute. reflexivity.
Defined.

(** ** A full house and the three lines *)

Lemma unfilled_not_positive num : filledNumber num = false -> positive num = false.
Proof.
  unfold filledNumber, positive, ofZ. intros H. apply negb_false_iff in H.
  destruct num as [q| | |]; try discriminate. cbn [sameValueZero ltNum] in *.
  apply negb_false_iff. apply Qeq_bool_iff in H. apply Qle_bool_iff.
  rewrite H. apply Qle_refl.
Qed.

Lemma inColumn_hasColumn col num : inColumn col num = true -> hasColumn num = true.
Proof. unfold inColumn, hasColumn. now destruct (columnOf num). Qed.

Lemma three_rows {A : Type} (grid : list (list A)) :
  length grid = 3 -> concat grid = nth 0 grid [] ++ nth 1 grid [] ++ nth 2 grid [].
Proof.
  intros H. destruct grid as [|r0 [|r1 [|r2 [|]]]]; try discriminate.
  cbn [concat nth]. now rewrite app_nil_r.
Qed.

Section ProperTicket.

Variable validNumbers : list number.
Hypothesis fifteen : length validNumbers = 15.
Hypothesis columns : forall num, In num validNumbers -> hasColumn num = true.
Hypothesis capacity : columnOverflow validNumbers = false.

Lemma laidOut_positive row num :
  In num (nth row (fst (layOut (sortedColumns validNumbers))) []) -> positive num = filledNumber num.
Proof.
  intros Hin.
  assert (Hfew : length validNumbers <= 15) by lia.
  pose proof (grouped_shaped validNumbers Hfew) as [Hlen Hwide].
  destruct (Nat.lt_ge_cases row (length (fst (layOut (sortedColumns validNumbers))))) as [Hrow|Hrow];
    [|rewrite nth_overflow in Hin by assumption; destruct Hin].
  destruct (In_nth _ _ (ofZ 0) Hin) as (col & Hcol & E).
  rewrite (Hwide (nth row (fst (layOut (sortedColumns validNumbers))) [])) in Hcol by now apply nth_In.
  destruct (filledNumber num) eqn:Hfilled; [|now apply unfilled_not_positive].
  apply hasColumn_positive, (inColumn_hasColumn col). rewrite <- E.
  apply (grouped_columns validNumbers Hfew capacity row col Hcol).
  unfold cell. now rewrite E.
Qed.

Lemma laidOut_row row :
  row < 3 ->
  filter positive (nth row (fst (layOut (sortedColumns validNumbers))) []) = filter filledNumber (nth row (fst (layOut (sortedColumns validNumbers))) []) /\
  length (filter positive (nth row (fst (layOut (sortedColumns validNumbers))) [])) = 5.
Proof.
  intros Hrow.
  assert (E : filter positive (nth row (fst (layOut (sortedColumns validNumbers))) [])
              = filter filledNumber (nth row (fst (layOut (sortedColumns validNumbers))) [])).
  { apply filter_ext_in. intros num. apply laidOut_positive. }
  split; [assumption|]. rewrite E.
  rewrite (laidOut_rows validNumbers fifteen columns capacity row Hrow).
  reflexivity.
Qed.

Lemma laidOut_all (p : number -> bool) :
  (forall num, In num validNumbers -> p num = true) <->
  (forall row, row < 3 ->
     forall num, In num (filter positive (nth row (fst (layOut (sortedColumns validNumbers))) [])) -> p num = true).
Proof.
  pose proof (laidOut_numbers validNumbers fifteen columns capacity) as Hperm.
  assert (Hlen : length (fst (layOut (sortedColumns validNumbers))) = 3).
  { apply (grouped_shaped validNumbers). lia. }
  rewrite (three_rows (fst (layOut (sortedColumns validNumbers))) Hlen), !filter_app in Hperm.
  split.
  - intros H row Hrow num Hnum. apply H.
    apply (Permutation_in _ Hperm).
    rewrite (proj1 (laidOut_row row Hrow)) in Hnum.
    rewrite !in_app_iff.
    do 3 (destruct row as [|row]; [tauto|]). lia.
  - intros H num Hnum.
    apply (Permutation_in _ (Permutation_sym Hperm)) in Hnum.
    rewrite !in_app_iff in Hnum.
    destruct Hnum as [Hnum|[Hnum|Hnum]].
    + apply (H 0); [lia|]. now rewrite (proj1 (laidOut_row 0 ltac:(lia))).
    + apply (H 1); [lia|]. now rewrite (proj1 (laidOut_row 1 ltac:(lia))).
    + apply (H 2); [lia|]. now rewrite (proj1 (laidOut_row 2 ltac:(lia))).
Qed.

Lemma laidOut_complete struck row :
  row < 3 ->
  rowComplete (fst (layOut (sortedColumns validNumbers))) struck row = true <->
  forall num, In num (filter positive (nth row (fst (layOut (sortedColumns validNumbers))) [])) ->
    includes struck num = true.
Proof.
  intros Hrow. unfold rowComplete. cbv zeta.
  rewrite (proj2 (laidOut_row row Hrow)). cbn [Nat.ltb Nat.leb andb].
  rewrite Nat.eqb_eq, <- (proj2 (laidOut_row row Hrow)).
  apply filter_full.
Qed.

Lemma laidOut_lines struck :
  linesOf lineNames (fst (layOut (sortedColumns validNumbers))) struck = lineNames <->
  forall row, row < 3 -> rowComplete (fst (layOut (sortedColumns validNumbers))) struck row = true.
Proof.
  assert (Hlen : length (fst (layOut (sortedColumns validNumbers))) = 3).
  { apply (grouped_shaped validNumbers). lia. }
  unfold linesOf. rewrite Hlen. cbn [seq flat_map nth lineNames app].
  split.
  - intros H.
    destruct (rowComplete (fst (layOut (sortedColumns validNumbers))) struck 0)
      eqn:E0,
      (rowComplete (fst (layOut (sortedColumns validNumbers))) struck 1) eqn:E1,
      (rowComplete (fst (layOut (sortedColumns validNumbers))) struck 2) eqn:E2;
      try discriminate H.
    intros row Hrow. do 3 (destruct row as [|row]; [assumption|]). lia.
  - intros H. now rewrite (H 0), (H 1), (H 2) by lia.
Qed.

Lemma proper_full_house fuel drawnNumbers ticketNumbers rnd :
  filter positive ticketNumbers = validNumbers -> drawnNumbers <> [] ->
  exists analysis,
    analyzeTicket fuel drawnNumbers ticketNumbers rnd = Some (analysis, rnd) /\
    (isFullHouse analysis = true <-> completedLines analysis = lineNames).
Proof.
  intros Hvalid Hdrawn. unfold analyzeTicket, analyzeTicketGrid.
  destruct drawnNumbers as [|d drawn]; [contradiction|]. cbn [length Nat.eqb].
  rewrite Hvalid, fifteen, capacity. cbn [Nat.eqb].
  eexists. split; [reflexivity|]. cbn [isFullHouse completedLines].
  cbn [Nat.ltb Nat.leb andb].
  rewrite forallb_forall, laidOut_lines, (laidOut_all (includes _)).
  split.
  - intros H row Hrow. apply laidOut_complete; [assumption|]. now apply H.
  - intros H row Hrow. apply laidOut_complete; [assumption|]. now apply H.
Qed.

End ProperTicket.

(** For a ticket of fifteen numbers that each lie in the range of a column,
    at most three to a column, and a draw that is not empty, analyzeTicket
    reports a full house exactly when it reports all three lines. *)
Theorem full_house_is_three_lines fuel drawnNumbers ticketNumbers rnd :
  length (filter positive ticketNumbers) = 15 ->
  (forall num, In num (filter positive ticketNumbers) -> hasColumn num = true) ->
  columnOverflow (filter positive ticketNumbers) = false ->
  drawnNumbers <> [] ->
  exists analysis,
    analyzeTicket fuel drawnNumbers ticketNumbers rnd = Some (analysis, rnd) /\
    (isFullHouse analysis = true <-> completedLines analysis = lineNames).
Proof.
  intros Hlen Hcols Hcap Hdrawn.
  now apply (proper_full_house (filter positive ticketNumbers) Hlen Hcols Hcap).
Qed.

Lemma full_house_is_three_lines_witness :
  exists analysis,
    analyzeTicket 0 (map ofZ (flatNumbers sampleTicket))
      (map ofZ (flatNumbers sampleTicket)) alwaysOne
    = Some (analysis, alwaysOne) /\
    (isFullHouse analysis = true <-> completedLines analysis = lineNames).
Proof.
  apply (full_house_is_three_lines 0 (map ofZ (flatNumbers sampleTicket))
           (map ofZ (flatNumbers sampleTicket)) alwaysOne).
  - reflexivity.
  - apply validTicketNumbers_facts.
  - reflexivity.
  - discriminate.
Defined.

(** ** A ticket with a crowded column *)

(** Fifteen positive numbers with more than three in the range of a column
    are analysed on a freshly generated ticket: the grid is the one
    generateHousieTicket returns for the coming draws, with invariants 1 to
    5, whatever the numbers of the ticket; the catch block is not reached. *)
Theorem analyzeTicket_crowded_column fuel ticketNumbers rnd :
  length (filter positive ticketNumbers) = 15 ->
  columnOverflow (filter positive ticketNumbers) = true -> 15 <= fuel ->
  exists generated rnd',
    generateHousieTicket fuel rnd = Normal generated rnd' /\
    analyzeTicketGrid fuel ticketNumbers rnd
    = Some (map (map ofZ) (grid generated), rnd') /\
    Valid (grid generated).
Proof.
  intros Hlen Hover Hfuel.
  destruct (generate_returns fuel rnd Hfuel) as (generated & rnd' & E).
  exists generated, rnd'. split; [assumption|]. split.
  - unfold analyzeTicketGrid, convertFlatToGrid. now rewrite Hlen, Hover, E.
  - now apply (generate_valid fuel rnd generated rnd').
Qed.

Lemma analyzeTicket_crowded_column_witness :
  exists generated rnd',
    generateHousieTicket 15 alwaysOne = Normal generated rnd' /\
    analyzeTicketGrid 15
      (map ofZ [1; 2; 3; 4; 10; 11; 20; 21; 30; 31; 40; 41; 50; 60; 70]%Z) alwaysOne
    = Some (map (map ofZ) (grid generated), rnd') /\
    Valid (grid generated).
Proof.
  apply (analyzeTicket_crowded_column 15
           (map ofZ [1; 2; 3; 4; 10; 11; 20; 21; 30; 31; 40; 41; 50; 60; 70]%Z)
           alwaysOne); [reflexivity|reflexivity|lia].
Defined.
(** ** The HousieTicket component *)

Import TicketView.

Lemma ticketNumbersOf_length numbers : length (ticketNumbersOf numbers) = 15.
Proof.
  unfold ticketNumbersOf.
  destruct (Nat.eqb_spec (length numbers) 15) as [E|Hne]; [assumption|].
  cbn [negb]. destruct (Nat.ltb_spec (length numbers) 15).
  - rewrite length_app, repeat_length. lia.
  - rewrite length_firstn. lia.
Qed.

Lemma ticketNumbersOf_nth numbers i :
  i < 15 ->
  (if positive (nth i (ticketNumbersOf numbers) NaN)
   then nth i (ticketNumbersOf numbers) NaN else ofZ 0)
  = (if positive (nth i numbers NaN) then nth i numbers NaN else ofZ 0).
Proof.
  intros Hi. unfold ticketNumbersOf.
  destruct (Nat.eqb_spec (length numbers) 15) as [E|Hne]; [reflexivity|].
  cbn [negb]. destruct (Nat.ltb_spec (length numbers) 15).
  - destruct (Nat.lt_ge_cases i (length numbers)).
    + now rewrite app_nth1.
    + rewrite app_nth2, nth_repeat_lt, (nth_overflow numbers) by lia.
      reflexivity.
  - now rewrite nth_firstn, (proj2 (Nat.ltb_lt _ _) Hi).
Qed.

Lemma ticketGrid_laidOut numbers :
  existsb positive (ticketNumbersOf numbers) = true ->
  columnOverflow (filter positive (ticketNumbersOf numbers)) = false ->
  forall fuel rnd,
    ticketGrid fuel numbers rnd =
    Some (fst (layOut (sortedColumns (filter positive (ticketNumbersOf numbers)))),
          rnd).
Proof.
  intros Hsome Hcap fuel rnd. unfold ticketGrid.
  now rewrite ticketNumbersOf_length, Hsome, Hcap.
Qed.

(** For a ticket with a positive number and no crowded column the
    component shows exactly the numbers of its first fifteen entries that
    lie in the range of a column, each in its column, dealt to the rows in
    turn. *)
Theorem ticketGrid_shows_columns numbers :
  existsb positive (ticketNumbersOf numbers) = true ->
  columnOverflow (filter positive (ticketNumbersOf numbers)) = false ->
  exists grid,
    (forall fuel rnd, ticketGrid fuel numbers rnd = Some (grid, rnd)) /\
    Permutation (filter filledNumber (concat grid))
      (filter hasColumn (filter positive (ticketNumbersOf numbers))) /\
    (forall row, row < 3 ->
       length (filter filledNumber (nth row grid [])) =
       (length (filter hasColumn (filter positive (ticketNumbersOf numbers)))
        + 2 - row) / 3) /\
    (forall row col, col < 9 ->
       filledNumber (cell (ofZ 0) grid row col) = true ->
       inColumn col (cell (ofZ 0) grid row col) = true).
Proof.
  intros Hsome Hcap.
  exists (fst (layOut (sortedColumns (filter positive (ticketNumbersOf numbers))))).
  assert (Hfew : length (filter positive (ticketNumbersOf numbers)) <= 15).
  { rewrite <- (ticketNumbersOf_length numbers). apply filter_length_le. }
  split; [|split; [|split]].
  - now apply ticketGrid_laidOut.
  - now apply grouped_numbers.
  - intros row Hrow. now apply grouped_rows.
  - intros row col Hcol. now apply grouped_columns.
Qed.

Lemma ticketGrid_shows_columns_witness :
  exists grid,
    (forall fuel rnd,
       ticketGrid fuel (map ofZ [5; 17; 95; 0; 42]%Z) rnd = Some (grid, rnd)) /\
    Permutation (filter filledNumber (concat grid))
      (filter hasColumn
         (filter positive (ticketNumbersOf (map ofZ [5; 17; 95; 0; 42]%Z)))) /\
    (forall row, row < 3 ->
       length (filter filledNumber (nth row grid [])) =
       (length (filter hasColumn
                  (filter positive (ticketNumbersOf (map ofZ [5; 17; 95; 0; 42]%Z))))
        + 2 - row) / 3) /\
    (forall row col, col < 9 ->
       filledNumber (cell (ofZ 0) grid row col) = true ->
       inColumn col (cell (ofZ 0) grid row col) = true).
Proof.
  apply (ticketGrid_shows_columns (map ofZ [5; 17; 95; 0; 42]%Z)); reflexivity.
Defined.

(** Without a positive number, or with a crowded column and fewer than
    fifteen positive numbers (convertFlatToGrid then throws), the component
    shows the 3x5 fallback: its first fifteen entries fill the first five
    columns row after row. *)
Theorem ticketGrid_fallback fuel numbers rnd :
  existsb positive (ticketNumbersOf numbers) = false \/
  (columnOverflow (filter positive (ticketNumbersOf numbers)) = true /\
   length (filter positive (ticketNumbersOf numbers)) <> 15) ->
  exists grid,
    ticketGrid fuel numbers rnd = Some (grid, rnd) /\
    forall row col, row < 3 -> col < 9 ->
      cell (ofZ 0) grid row col =
      if (col <? 5) && positive (nth (5 * row + col) numbers NaN)
      then nth (5 * row + col) numbers NaN else ofZ 0.
Proof.
  intros Hcase. exists (fallbackGrid (ticketNumbersOf numbers)). split.
  - unfold ticketGrid. rewrite ticketNumbersOf_length. cbn [Nat.eqb andb].
    destruct Hcase as [->|[Hover Hlen]]; [reflexivity|].
    destruct (existsb positive (ticketNumbersOf numbers)); [|reflexivity].
    rewrite Hover. unfold Generator.convertFlatToGrid.
    destruct (Nat.eqb_spec (length (filter positive (ticketNumbersOf numbers))) 15);
      [contradiction|reflexivity].
  - intros row col Hrow Hcol. rewrite fallback_cells by assumption.
    destruct (Nat.ltb_spec col 5) as [Hc5|Hc5]; [|reflexivity]. cbn [andb].
    apply ticketNumbersOf_nth. lia.
Qed.

Lemma ticketGrid_fallback_witness :
  exists grid,
    ticketGrid 0 (map ofZ [1; 2; 3; 4]%Z) alwaysOne = Some (grid, alwaysOne) /\
    forall row col, row < 3 -> col < 9 ->
      cell (ofZ 0) grid row col =
      if (col <? 5) && positive (nth (5 * row + col) (map ofZ [1; 2; 3; 4]%Z) NaN)
      then nth (5 * row + col) (map ofZ [1; 2; 3; 4]%Z) NaN else ofZ 0.
Proof.
  apply (ticketGrid_fallback 0 (map ofZ [1; 2; 3; 4]%Z) alwaysOne).
  right. split; [reflexivity|vm_compute; discriminate].
Defined.
(** ** The wins of the component and of analyzeTicket *)

Lemma positive_not_flag num :
  positive num = true -> sameValueZero (ofZ (-1)) num = false.
Proof.
  unfold positive, ofZ. destruct num as [q| | |]; try discriminate; [|reflexivity].
  cbn [ltNum sameValueZero]. intros H. apply negb_true_iff in H.
  apply not_true_is_false. intros E. apply Qeq_bool_iff in E.
  assert (Hle : Qle_bool q (inject_Z 0) = true); [|congruence].
  apply Qle_bool_iff. rewrite <- E. now apply Qle_bool_iff.
Qed.

Lemma includes_app array array' num :
  includes (array ++ array') num = includes array num || includes array' num.
Proof. apply existsb_app. Qed.

Lemma includes_setAdd struck flag num :
  sameValueZero flag num = false ->
  includes (setAdd struck flag) num = includes struck num.
Proof.
  intros H. unfold setAdd. destruct (includes struck flag); [reflexivity|].
  rewrite includes_app. cbn [includes existsb]. now rewrite H, !orb_false_r.
Qed.

Lemma struckOf_fold drawnNumbers ticketNumbers : forall struck,
  allDifferent ticketNumbers ->
  (forall x y, In x struck -> In y ticketNumbers -> sameValueZero x y = false) ->
  fold_left
    (fun struck num =>
       if positive num && includes drawnNumbers num then setAdd struck num
       else struck)
    ticketNumbers struck
  = struck
    ++ filter (fun num => positive num && includes drawnNumbers num) ticketNumbers.
Proof.
  induction ticketNumbers as [|num rest IH]; intros struck Hdiff Hfresh.
  - cbn. now rewrite app_nil_r.
  - cbn [fold_left filter]. destruct Hdiff as [Hnum Hrest].
    destruct (positive num && includes drawnNumbers num).
    + assert (E : setAdd struck num = struck ++ [num]).
      { unfold setAdd.
        assert (includes struck num = false) as ->; [|reflexivity].
        apply not_true_is_false. intros H. apply existsb_exists in H.
        destruct H as (x & Hx & E). rewrite (Hfresh x num Hx) in E by now left.
        discriminate. }
      rewrite E, IH, <- app_assoc; [reflexivity|assumption|].
      intros x y Hx Hy. apply in_app_or in Hx. destruct Hx as [Hx|[<-|[]]].
      * apply Hfresh; [assumption|now right].
      * now apply Hnum.
    + apply IH; [assumption|]. intros x y Hx Hy. apply Hfresh; [assumption|now right].
Qed.

Lemma struckOf_filter drawnNumbers ticketNumbers :
  allDifferent ticketNumbers ->
  (forall num, In num ticketNumbers -> positive num = true) ->
  struckOf ticketNumbers drawnNumbers = filter (includes drawnNumbers) ticketNumbers.
Proof.
  intros Hdiff Hpos. unfold struckOf.
  rewrite struckOf_fold; [|assumption|intros x y []]. cbn [app].
  apply filter_ext_in. intros num Hnum. now rewrite (Hpos num Hnum).
Qed.

Lemma rowComplete_same grid struck struck' row :
  (forall num, positive num = true -> includes struck' num = includes struck num) ->
  rowComplete grid struck' row = rowComplete grid struck row.
Proof.
  intros Hsame. unfold rowComplete. cbv zeta. f_equal. f_equal. f_equal.
  apply filter_ext_in. intros num Hnum. apply Hsame.
  now apply filter_In in Hnum.
Qed.

Lemma includes_nothing (l : list number) : filter (includes []) l = [].
Proof. induction l as [|x l IH]; [reflexivity|exact IH]. Qed.

Lemma rowComplete_nothing grid row : rowComplete grid [] row = false.
Proof.
  unfold rowComplete. cbv zeta. rewrite includes_nothing.
  now destruct (filter positive (nth row grid [])).
Qed.

Lemma linesOf_In names grid struck row :
  NoDup names -> length names = length grid -> row < length grid ->
  In (nth row names "") (linesOf names grid struck) <->
  rowComplete grid struck row = true.
Proof.
  intros Hnd Hlen Hrow. unfold linesOf. rewrite in_flat_map. split.
  - intros (index & Hindex & Hin). apply in_seq in Hindex.
    destruct (rowComplete grid struck index) eqn:E; [|destruct Hin].
    destruct Hin as [Hin|[]].
    assert (index = row); [|now subst].
    apply (proj1 (NoDup_nth names "") Hnd); try lia. assumption.
  - intros E. exists row. split; [apply in_seq; lia|]. rewrite E. now left.
Qed.

Lemma linesOf_names names grid struck line :
  length names = length grid ->
  In line (linesOf names grid struck) -> In line names.
Proof.
  intros Hlen. unfold linesOf. rewrite in_flat_map.
  intros (index & Hindex & Hin). apply in_seq in Hindex.
  destruct (rowComplete grid struck index); [|destruct Hin].
  destruct Hin as [<-|[]]. apply nth_In. lia.
Qed.

Lemma lineNames_NoDup : NoDup lineNames.
Proof.
  repeat constructor; cbn [In]; intros H;
    repeat (destruct H as [H|H]; [discriminate H|]); assumption.
Qed.

Lemma lineTypes_NoDup : NoDup lineTypes.
Proof.
  repeat constructor; cbn [In]; intros H;
    repeat (destruct H as [H|H]; [discriminate H|]); assumption.
Qed.

Lemma wins_members (early full : bool) grid struck :
  length grid = 3 ->
  let wins :=
    (if early then ["early_five"] else [])
    ++ linesOf lineTypes grid struck
    ++ (if full then ["full_house"] else []) in
  (In "early_five" wins <-> early = true) /\
  (forall row, row < 3 ->
     In (nth row lineTypes "") wins <-> rowComplete grid struck row = true) /\
  (In "full_house" wins <-> full = true).
Proof.
  intros Hlen wins. subst wins.
  assert (Hnames : forall line,
            In line (linesOf lineTypes grid struck) -> In line lineTypes).
  { intros line. apply linesOf_names. now rewrite Hlen. }
  split; [|split].
  - rewrite !in_app_iff. split.
    + intros [H|[H|H]].
      * destruct early; [reflexivity|destruct H].
      * apply Hnames in H. cbn [lineTypes In] in H.
        repeat (destruct H as [H|H]; [discriminate H|]). destruct H.
      * destruct full; [|destruct H]. destruct H as [H|[]]. discriminate H.
    + intros ->. left. now left.
  - intros row Hrow.
    rewrite <- (linesOf_In lineTypes grid struck row lineTypes_NoDup)
      by (rewrite ?Hlen; (reflexivity || assumption)).
    rewrite !in_app_iff. split; [|tauto].
    intros [H|[H|H]]; [|assumption|].
    + destruct early; [|destruct H]. destruct H as [H|[]].
      do 3 (destruct row as [|row]; [discriminate H|]). lia.
    + destruct full; [|destruct H]. destruct H as [H|[]].
      do 3 (destruct row as [|row]; [discriminate H|]). lia.
  - rewrite !in_app_iff. split.
    + intros [H|[H|H]].
      * destruct early; [|destruct H]. destruct H as [H|[]]. discriminate H.
      * apply Hnames in H. cbn [lineTypes In] in H.
        repeat (destruct H as [H|H]; [discriminate H|]). destruct H.
      * destruct full; [reflexivity|destruct H].
    + intros ->. right. right. now left.
Qed.

Lemma fifteen_member {A : Type} (l : list A) :
  length l = 15 -> exists x, In x l.
Proof. destruct l as [|x l]; [discriminate|]. exists x. now left. Qed.

Lemma forallb_same {A : Type} (p q : A -> bool) (l : list A) :
  (forall x, In x l -> p x = q x) -> forallb p l = forallb q l.
Proof.
  induction l as [|x l IH]; intros H; [reflexivity|]. cbn [forallb].
  rewrite (H x) by now left. rewrite IH; [reflexivity|].
  intros y Hy. apply H. now right.
Qed.

Lemma forallb_nothing (l : list number) :
  length l = 15 -> forallb (includes []) l = false.
Proof. destruct l; [discriminate|reflexivity]. Qed.

Section SameWins.

Variable numbers : list number.
Hypothesis fifteen : length numbers = 15.
Hypothesis columns : forall num, In num numbers -> hasColumn num = true.
Hypothesis different : allDifferent numbers.
Hypothesis capacity : columnOverflow numbers = false.

Lemma proper_positive : filter positive numbers = numbers.
Proof.
  apply filter_everything. intros num Hnum. now apply hasColumn_positive, columns.
Qed.

Lemma proper_ticketNumbers : ticketNumbersOf numbers = numbers.
Proof. unfold ticketNumbersOf. now rewrite fifteen. Qed.

Lemma proper_ticketGrid fuel rnd :
  ticketGrid fuel numbers rnd = Some (fst (layOut (sortedColumns numbers)), rnd).
Proof.
  unfold ticketGrid. rewrite proper_ticketNumbers, proper_positive, fifteen, capacity.
  assert (existsb positive numbers = true) as ->; [|reflexivity].
  destruct (fifteen_member numbers fifteen) as (num & Hnum).
  apply existsb_exists. exists num. split; [assumption|].
  now apply hasColumn_positive, columns.
Qed.

Lemma proper_struck drawnNumbers num :
  positive num = true ->
  let struck := filter (includes drawnNumbers) numbers in
  let earlyFive := (length struck =? 5) && negb (includes struck (ofZ (-1))) in
  earlyFive = (length struck =? 5) /\
  includes (if earlyFive then setAdd struck (ofZ (-1)) else struck) num
  = includes struck num.
Proof.
  intros Hpos struck earlyFive.
  assert (Hflag : includes struck (ofZ (-1)) = false).
  { apply not_true_is_false. intros H. apply existsb_exists in H.
    destruct H as (x & Hx & E). apply filter_In in Hx. destruct Hx as [Hx _].
    rewrite sameValueZero_sym, positive_not_flag in E; [discriminate|].
    now apply hasColumn_positive, columns. }
  subst earlyFive. rewrite Hflag, andb_true_r. split; [reflexivity|].
  destruct (length struck =? 5); [|reflexivity].
  apply includes_setAdd. now apply positive_not_flag.
Qed.

Lemma proper_wins fuel drawnNumbers rnd :
  exists analysis wins,
    analyzeTicket fuel drawnNumbers numbers rnd = Some (analysis, rnd) /\
    winsDetected fuel numbers drawnNumbers rnd = Some (wins, rnd) /\
    (In "early_five" wins <-> isEarlyFive analysis = true) /\
    (forall row, row < 3 ->
       In (nth row lineTypes "") wins <->
       In (nth row lineNames "") (completedLines analysis)) /\
    (In "full_house" wins <-> isFullHouse analysis = true).
Proof.
  assert (Hlen : length (fst (layOut (sortedColumns numbers))) = 3).
  { apply (grouped_shaped numbers). lia. }
  assert (Hpos : forall num, In num numbers -> positive num = true).
  { intros num Hnum. now apply hasColumn_positive, columns. }
  unfold winsDetected. rewrite proper_ticketGrid, proper_ticketNumbers.
  rewrite (struckOf_filter drawnNumbers numbers different Hpos).
  unfold checkForWins. cbv zeta. rewrite proper_positive, fifteen.
  cbn [Nat.eqb andb].
  set (struck := filter (includes drawnNumbers) numbers).
  set (earlyFive := (length struck =? 5) && negb (includes struck (ofZ (-1)))).
  set (struck' := if earlyFive then setAdd struck (ofZ (-1)) else struck).
  assert (Hsame : forall num, positive num = true ->
            includes struck' num = includes struck num).
  { intros num Hnum. now apply proper_struck. }
  assert (Hearly : earlyFive = (length struck =? 5)).
  { destruct (fifteen_member numbers fifteen) as (num & Hnum).
    apply (proper_struck drawnNumbers num). now apply Hpos. }
  assert (Hfull : forallb (includes struck') numbers
                  = forallb (includes struck) numbers).
  { apply forallb_same. intros num Hnum. now apply Hsame, Hpos. }
  destruct (wins_members earlyFive (forallb (includes struck') numbers)
              (fst (layOut (sortedColumns numbers))) struck' Hlen)
    as (Hwin1 & Hwin2 & Hwin3).
  cbv zeta in Hwin1, Hwin2, Hwin3.
  unfold analyzeTicket.
  rewrite (analyzeTicketGrid_laidOut numbers fifteen columns capacity).
  rewrite proper_positive, fifteen. fold struck.
  destruct drawnNumbers as [|d drawn] eqn:Edrawn.
  - eexists. eexists. split; [reflexivity|]. split; [reflexivity|].
    cbn [isEarlyFive completedLines isFullHouse nothingDrawn].
    assert (Hnone : struck = []) by apply includes_nothing.
    split; [|split].
    + rewrite Hwin1, Hearly, Hnone. reflexivity.
    + intros row Hrow. rewrite (Hwin2 row Hrow).
      rewrite (rowComplete_same _ struck struck' row Hsame), Hnone.
      rewrite rowComplete_nothing. cbn [In]. split; [discriminate|tauto].
    + rewrite Hwin3, Hfull, Hnone, (forallb_nothing numbers fifteen).
      reflexivity.
  - cbn [length Nat.eqb]. eexists. eexists.
    split; [reflexivity|]. split; [reflexivity|].
    cbn [isEarlyFive completedLines isFullHouse Nat.ltb Nat.leb andb].
    split; [|split].
    + now rewrite Hwin1, Hearly.
    + intros row Hrow. rewrite (Hwin2 row Hrow).
      rewrite (rowComplete_same _ struck struck' row Hsame).
      symmetry. apply linesOf_In; [apply lineNames_NoDup|now rewrite Hlen|lia].
    + now rewrite Hwin3, Hfull.
Qed.

End SameWins.

(** For a ticket of fifteen different numbers that each lie in the range of
    a column, at most three to a column, the wins the HousieTicket
    component reports after a draw are the wins analyzeTicket shows for
    the same draw: early five, each of the three lines, full house. *)
Theorem wins_agree fuel numbers drawnNumbers rnd :
  length numbers = 15 ->
  (forall num, In num numbers -> hasColumn num = true) ->
  allDifferent numbers ->
  columnOverflow numbers = false ->
  exists analysis wins,
    analyzeTicket fuel drawnNumbers numbers rnd = Some (analysis, rnd) /\
    winsDetected fuel numbers drawnNumbers rnd = Some (wins, rnd) /\
    (In "early_five" wins <-> isEarlyFive analysis = true) /\
    (forall row, row < 3 ->
       In (nth row lineTypes "") wins <->
       In (nth row lineNames "") (completedLines analysis)) /\
    (In "full_house" wins <-> isFullHouse analysis = true).
Proof. intros. now apply proper_wins. Qed.

Lemma sampleNumbers_different :
  allDifferent (map ofZ (flatNumbers sampleTicket)).
Proof.
  cbn [allDifferent map flatNumbers sampleTicket].
  repeat split; intros y H; cbn [In] in H;
    repeat (destruct H as [<-|H]; [reflexivity|]); destruct H.
Qed.

Lemma wins_agree_witness :
  exists analysis wins,
    analyzeTicket 0 [ofZ 1; ofZ 12; ofZ 30; ofZ 42; ofZ 60]
      (map ofZ (flatNumbers sampleTicket)) alwaysOne
    = Some (analysis, alwaysOne) /\
    winsDetected 0 (map ofZ (flatNumbers sampleTicket))
      [ofZ 1; ofZ 12; ofZ 30; ofZ 42; ofZ 60] alwaysOne
    = Some (wins, alwaysOne) /\
    (In "early_five" wins <-> isEarlyFive analysis = true) /\
    (forall row, row < 3 ->
       In (nth row lineTypes "") wins <->
       In (nth row lineNames "") (completedLines analysis)) /\
    (In "full_house" wins <-> isFullHouse analysis = true).
Proof.
  apply (wins_agree 0 (map ofZ (flatNumbers sampleTicket))
           [ofZ 1; ofZ 12; ofZ 30; ofZ 42; ofZ 60] alwaysOne).
  - reflexivity.
  - apply validTicketNumbers_facts.
  - apply sampleNumbers_different.
  - reflexivity.
Defined.
(** ** The migration *)

Import Migration.

Section MigrationFacts.

Variable JSON_parse : string -> option JSValue.
Variable showNumber : number -> string.
Variable showError : Exception -> string.
Variable accepted : list Update -> Update -> bool.

Lemma analyze_fold tickets : forall results,
  let results' :=
    fold_left (analyzeStep JSON_parse showNumber showError) tickets results in
  totalTickets results' = totalTickets results /\
  invalidTickets results' =
  invalidTickets results ++ rejected JSON_parse showNumber showError tickets /\
  validTickets results' + length (rejected JSON_parse showNumber showError tickets)
  = validTickets results + length tickets.
Proof.
  induction tickets as [|ticket rest IH]; intros results; cbv zeta.
  - cbn. rewrite app_nil_r. repeat split; lia.
  - cbn [fold_left rejected flat_map].
    destruct (IH (analyzeStep JSON_parse showNumber showError results ticket))
      as (Htotal & Hinvalid & Hvalid).
    cbv zeta in Htotal, Hinvalid, Hvalid.
    rewrite Htotal, Hinvalid. clear Htotal Hinvalid.
    fold (rejected JSON_parse showNumber showError rest) in *.
    unfold analyzeStep in *. cbv zeta in *.
    destruct (isValid (validateExistingTicket JSON_parse showNumber showError
                         (numbers ticket)));
      cbn [negb totalTickets invalidTickets validTickets app length] in *.
    + repeat split; lia.
    + rewrite <- app_assoc. repeat split. simpl. lia.
Qed.

(** analyzeExistingTickets counts every ticket of the table once: the
    invalid tickets are the tickets validateExistingTicket rejects, in the
    order of the table and with its issues, the others are counted valid. *)
Theorem analyzeExistingTickets_partition tickets :
  exists findings,
    analyzeExistingTickets JSON_parse showNumber showError
      (SelectData (Some tickets)) = inr findings /\
    totalTickets findings = length tickets /\
    invalidTickets findings = rejected JSON_parse showNumber showError tickets /\
    validTickets findings + length (invalidTickets findings) = length tickets.
Proof.
  unfold analyzeExistingTickets. cbv zeta.
  destruct tickets as [|ticket rest].
  - eexists. split; [reflexivity|]. now cbn.
  - cbn [length Nat.eqb]. eexists. split; [reflexivity|].
    destruct (analyze_fold (ticket :: rest)
                {| totalTickets := S (length rest);
                   invalidTickets := [];
                   validTickets := 0 |}) as (Htotal & Hinvalid & Hvalid).
    cbv zeta in Htotal, Hinvalid, Hvalid.
    cbn [totalTickets invalidTickets validTickets app length] in *.
    rewrite Hinvalid. repeat split; [assumption|lia].
Qed.

Lemma dry_loop fuel invalid : forall results world,
  fixLoop accepted fuel true invalid results world =
  Some ({| processed := processed results + length invalid;
           fixed := fixed results;
           failed := failed results;
           errors := errors results |}, world).
Proof.
  induction invalid as [|[ticket found] rest IH]; intros results world.
  - cbn [fixLoop length]. rewrite Nat.add_0_r. now destruct results.
  - cbn [fixLoop negb length]. rewrite IH.
    cbn [processed fixed failed errors]. do 3 f_equal. lia.
Qed.

(** A dry run of fixInvalidTickets sends no update and draws no number: it
    reports the number of invalid tickets as processed, none fixed, none
    failed and no error, or the error of the query. *)
Theorem fixInvalidTickets_dry_run fuel answer world :
  fixInvalidTickets JSON_parse showNumber showError accepted fuel true answer world
  = Some (match analyzeExistingTickets JSON_parse showNumber showError answer with
          | inl error => inl error
          | inr findings =>
              inr {| processed := length (invalidTickets findings);
                     fixed := 0;
                     failed := 0;
                     errors := [] |}
          end, world).
Proof.
  unfold fixInvalidTickets.
  destruct (analyzeExistingTickets JSON_parse showNumber showError answer)
    as [error|findings]; [reflexivity|].
  destruct (Nat.eqb_spec (length (invalidTickets findings)) 0) as [E|_].
  - now rewrite E.
  - now rewrite dry_loop.
Qed.

Lemma fixSingleTicket_sends fuel ticketId world :
  15 <= fuel ->
  exists success newTicketData rnd,
    fixSingleTicket accepted fuel ticketId world =
    Some (success,
          {| draws := rnd;
             updates := updates world
                        ++ [{| target := ticketId;
                               newNumbers := flatNumbers newTicketData |}] |}) /\
    generateHousieTicket fuel (draws world) = Normal newTicketData rnd.
Proof.
  intros Hfuel. unfold fixSingleTicket.
  destruct (generate_returns fuel (draws world) Hfuel) as (ticket & rnd & E).
  rewrite E. now exists (accepted (updates world)
                           {| target := ticketId; newNumbers := flatNumbers ticket |}),
               ticket, rnd.
Qed.

Lemma live_loop fuel invalid : forall results world,
  15 <= fuel ->
  exists results' world' sent,
    fixLoop accepted fuel false invalid results world = Some (results', world') /\
    processed results' = processed results + length invalid /\
    fixed results' + failed results'
    = fixed results + failed results + length invalid /\
    length (errors results') + failed results
    = length (errors results) + failed results' /\
    updates world' = updates world ++ sent /\
    regenerated fuel (map (fun entry => id (fst entry)) invalid) (draws world)
    = Some (sent, draws world') /\
    map target sent = map (fun entry => id (fst entry)) invalid /\
    forall update, In update sent ->
      validateExistingTicket JSON_parse showNumber showError
        (arrayOfNumbers (newNumbers update))
      = {| isValid := true; issues := [] |}.
Proof.
  intros results world Hfuel. revert results world.
  induction invalid as [|[ticket found] rest IH]; intros results world.
  - exists results, world, []. cbn [fixLoop length map regenerated].
    rewrite app_nil_r. repeat split; try lia. intros update [].
  - cbn [fixLoop negb].
    destruct (fixSingleTicket_sends fuel (id ticket) world Hfuel)
      as (success & newTicketData & rnd & -> & Egen).
    match goal with
    | |- context [fixLoop _ _ _ rest ?r ?w] =>
        destruct (IH r w)
          as (results' & world' & sent & -> & Hp & Hf & He & Hu & Hg & Ht & Hv)
    end.
    exists results', world',
      ({| target := id ticket; newNumbers := flatNumbers newTicketData |} :: sent).
    cbn [updates] in Hu. rewrite Hu, <- app_assoc.
    cbn [draws] in Hg.
    cbn [map target fst length app regenerated]. rewrite Egen, Hg.
    split; [reflexivity|].
    destruct success; cbn [processed fixed failed errors] in *;
      rewrite ?length_app in *; cbn [length] in *.
    + repeat split; try lia; [now f_equal|].
      intros update [<-|Hin]; [|now apply Hv]. cbn [newNumbers].
      destruct (generated_flat_clean _ _ _ _ Egen) as (H15 & Hnd & Hr & Hc).
      now apply validateExistingTicket_clean.
    + repeat split; try lia; [now f_equal|].
      intros update [<-|Hin]; [|now apply Hv]. cbn [newNumbers].
      destruct (generated_flat_clean _ _ _ _ Egen) as (H15 & Hnd & Hr & Hc).
      now apply validateExistingTicket_clean.
Qed.

(** A run of fixInvalidTickets that is not dry sends one update for each
    invalid ticket, in the order of the analysis and addressed to its id.
    The numbers an update writes are the flatNumbers of the ticket that
    generateHousieTicket returns on the draws the update before has left
    (the first on the draws at the start), and validateExistingTicket
    accepts them; the draws left at the end are those the last generated
    ticket has left.  Each ticket is counted fixed or failed, with one
    error for each failure. *)
Theorem fixInvalidTickets_regenerates fuel answer world findings :
  15 <= fuel ->
  analyzeExistingTickets JSON_parse showNumber showError answer = inr findings ->
  exists results world' sent,
    fixInvalidTickets JSON_parse showNumber showError accepted fuel false answer
      world = Some (inr results, world') /\
    processed results = length (invalidTickets findings) /\
    fixed results + failed results = processed results /\
    length (errors results) = failed results /\
    updates world' = updates world ++ sent /\
    regenerated fuel
      (map (fun entry => id (fst entry)) (invalidTickets findings)) (draws world)
    = Some (sent, draws world') /\
    map target sent = map (fun entry => id (fst entry)) (invalidTickets findings) /\
    forall update, In update sent ->
      validateExistingTicket JSON_parse showNumber showError
        (arrayOfNumbers (newNumbers update))
      = {| isValid := true; issues := [] |}.
Proof.
  intros Hfuel Eanalysis. unfold fixInvalidTickets. rewrite Eanalysis.
  destruct (Nat.eqb_spec (length (invalidTickets findings)) 0) as [E|_].
  - exists nothingFixed, world, []. rewrite app_nil_r.
    apply length_zero_iff_nil in E. rewrite E.
    repeat split. intros update [].
  - destruct (live_loop fuel (invalidTickets findings) nothingFixed world Hfuel)
      as (results & world' & sent & -> & Hp & Hf & He & Hu & Hg & Ht & Hv).
    exists results, world', sent. cbn [processed fixed failed errors nothingFixed
                                       length] in *.
    repeat split; try assumption; lia.
Qed.

End MigrationFacts.

(** Two tickets whose numbers are not a list, with every draw 1: both get
    the numbers of the ticket generated on these draws. *)
Lemma fixInvalidTickets_regenerates_witness :
  exists results world' sent,
    fixInvalidTickets (fun _ => None) (fun _ => "") (fun _ => "") (fun _ _ => true)
      15 false (SelectData (Some [sampleRecord; laterRecord])) sampleWorld
    = Some (inr results, world') /\
    processed results = 2 /\
    fixed results + failed results = processed results /\
    length (errors results) = failed results /\
    updates world' = updates sampleWorld ++ sent /\
    regenerated 15 ["ticket-1"; "ticket-2"] Ticket.alwaysOne
    = Some (sent, draws world') /\
    map target sent = ["ticket-1"; "ticket-2"] /\
    forall update, In update sent ->
      validateExistingTicket (fun _ => None) (fun _ => "") (fun _ => "")
        (arrayOfNumbers (newNumbers update))
      = {| isValid := true; issues := [] |}.
Proof.
  apply (fixInvalidTickets_regenerates (fun _ => None) (fun _ => "") (fun _ => "")
           (fun _ _ => true) 15 (SelectData (Some [sampleRecord; laterRecord]))
           sampleWorld
           {| totalTickets := 2;
              invalidTickets := [(sampleRecord, ["Invalid number format"]);
                                 (laterRecord, ["Invalid number format"])];
              validTickets := 0 |});
    [lia|reflexivity].
Defined.
(** ** The generators of the edge functions *)

Lemma addToColumn_total col st rnd :
  Selecting st -> col < 9 ->
  (nth col (columnCounts st) 0 < 3)%Z -> (totalNumbers st < 15)%Z ->
  (totalNumbers st + 1 <= totalNumbers (fst (addToColumn col st rnd)))%Z.
Proof.
  intros Hst Hcol Hroom Hneed.
  pose proof (Selecting_count st col Hst) as Hcount.
  unfold addToColumn, targetNumbers, randomInt.
  pose proof (Nat.mod_upper_bound (rnd 0) 2 ltac:(lia)) as Hr.
  set (r := rnd 0 mod 2) in *.
  set (chosen := nth col (columnNumbers st) []) in *.
  set (available := availableNumbers col chosen).
  pose proof (availableNumbers_many col chosen Hcol) as Hmany. fold available in Hmany.
  set (numbersToAdd :=
         (Z.min (Z.min (3 - nth col (columnCounts st) 0) (15 - totalNumbers st))
                (Z.of_nat r + 1))%Z).
  assert (Hk : (1 <= numbersToAdd <= 2)%Z) by (unfold numbersToAdd; lia).
  clearbody numbersToAdd.
  destruct (Z.leb_spec numbersToAdd (Z.of_nat (length available))) as [Hle|Hgt];
    [|lia].
  destruct (shuffleArray available _) as [shuffled rnd2].
  cbn [fst totalNumbers]. lia.
Qed.

Lemma sweep_keeps cols : forall st rnd,
  (forall c, In c cols -> c < 9) -> Selecting st ->
  Selecting (fst (sweep cols st rnd)) /\
  (totalNumbers st <= totalNumbers (fst (sweep cols st rnd)))%Z.
Proof.
  induction cols as [|col cols IH]; intros st rnd Hcols Hst.
  - cbn. split; [assumption|lia].
  - cbn [sweep]. unfold targetNumbers.
    destruct (Z.ltb_spec (totalNumbers st) 15) as [Hlt|Hge];
      [|cbn; split; [assumption|lia]].
    assert (Hcol : col < 9) by (apply Hcols; now left).
    assert (Hrest : forall c, In c cols -> c < 9)
      by (intros c Hc; apply Hcols; now right).
    destruct (Z.ltb_spec (nth col (columnCounts st) 0%Z) 3) as [Hroom|Hfull].
    + pose proof (addToColumn_spec col st rnd Hst Hcol Hroom Hlt) as Hadd.
      pose proof (addToColumn_total col st rnd Hst Hcol Hroom Hlt) as Htotal.
      destruct (addToColumn col st rnd) as [st1 rnd1]. cbn [fst] in Hadd, Htotal.
      destruct Hadd as (Hst1 & _).
      destruct (IH st1 rnd1 Hrest Hst1) as [Hsel Hle]. split; [assumption|lia].
    + now apply IH.
Qed.

Lemma sweep_adds cols : forall st rnd,
  (forall c, In c cols -> c < 9) -> Selecting st -> (totalNumbers st < 15)%Z ->
  (exists c, In c cols /\ (nth c (columnCounts st) 0 < 3)%Z) ->
  (totalNumbers st < totalNumbers (fst (sweep cols st rnd)))%Z.
Proof.
  induction cols as [|col cols IH]; intros st rnd Hcols Hst Hlt (c & Hc & Hroom);
    [destruct Hc|].
  cbn [sweep]. unfold targetNumbers.
  destruct (Z.ltb_spec (totalNumbers st) 15) as [_|Hge]; [|lia].
  assert (Hcol : col < 9) by (apply Hcols; now left).
  assert (Hrest : forall c, In c cols -> c < 9)
    by (intros c' Hc'; apply Hcols; now right).
  destruct (Z.ltb_spec (nth col (columnCounts st) 0%Z) 3) as [Hroom'|Hfull].
  - pose proof (addToColumn_spec col st rnd Hst Hcol Hroom' Hlt) as Hadd.
    pose proof (addToColumn_total col st rnd Hst Hcol Hroom' Hlt) as Htotal.
    destruct (addToColumn col st rnd) as [st1 rnd1]. cbn [fst] in Hadd, Htotal.
    destruct Hadd as (Hst1 & _).
    destruct (sweep_keeps cols st1 rnd1 Hrest Hst1) as [_ Hle]. lia.
  - apply IH; auto. exists c. split; [|assumption].
    destruct Hc as [<-|Hc]; [lia|assumption].
Qed.

Lemma Selecting_room st :
  Selecting st -> (totalNumbers st < 15)%Z ->
  exists c, In c (seq 0 9) /\ (nth c (columnCounts st) 0 < 3)%Z.
Proof.
  intros Hst Hlt.
  destruct (existsb (fun c => (nth c (columnCounts st) 0 <? 3)%Z) (seq 0 9)) eqn:E.
  - apply existsb_exists in E. destruct E as (c & Hc & E).
    exists c. split; [assumption|now apply Z.ltb_lt].
  - exfalso. pose proof Hst as (Hlen & _ & Htotal & _).
    assert (27 <= length (concat (columnNumbers st))); [|lia].
    apply full_columns; [assumption|]. intros c Hc.
    assert (Hfull : (nth c (columnCounts st) 0 <? 3)%Z = false).
    { apply not_true_is_false. intros H.
      assert (existsb (fun c => (nth c (columnCounts st) 0 <? 3)%Z) (seq 0 9) = true);
        [|congruence].
      apply existsb_exists. exists c. split; [apply in_seq; lia|assumption]. }
    rewrite (Selecting_count st c Hst) in Hfull. apply Z.ltb_ge in Hfull. lia.
Qed.

Lemma seq_columns c : In c (seq 0 9) -> c < 9.
Proof. intros H. apply in_seq in H. lia. Qed.

Lemma edge_selectLoop fuel : forall st rnd,
  Selecting st ->
  (forall st' rnd',
     EdgeFunction.selectLoop fuel st rnd = Some (st', rnd') ->
     Selecting st' /\ totalNumbers st' = 15%Z) /\
  ((15 - totalNumbers st <= Z.of_nat fuel)%Z ->
   exists st' rnd', EdgeFunction.selectLoop fuel st rnd = Some (st', rnd')).
Proof.
  induction fuel as [|fuel IH]; intros st rnd Hst;
    pose proof Hst as (_ & _ & _ & Hle & _);
    cbn [EdgeFunction.selectLoop]; unfold targetNumbers;
    destruct (Z.ltb_spec (totalNumbers st) 15) as [Hlt|Hge].
  - split; [discriminate|lia].
  - split; [intros st' rnd' [= <- <-]; split; [assumption|lia]|].
    intros _. now exists st, rnd.
  - destruct (sweep_keeps (seq 0 9) st rnd seq_columns Hst) as [Hst1 _].
    pose proof (sweep_adds (seq 0 9) st rnd seq_columns Hst Hlt
                  (Selecting_room st Hst Hlt)) as Hmore.
    destruct (sweep (seq 0 9) st rnd) as [st1 rnd1]. cbn [fst] in Hst1, Hmore.
    destruct (IH st1 rnd1 Hst1) as [Hsound Hruns].
    split; [assumption|]. intros Hfuel. apply Hruns. lia.
  - split; [intros st' rnd' [= <- <-]; split; [assumption|lia]|].
    intros _. now exists st, rnd.
Qed.

Lemma addLoop_done fuel st rnd :
  totalNumbers st = 15%Z -> addLoop fuel st rnd = Some (st, rnd).
Proof. intros H. destruct fuel; cbn [addLoop]; now rewrite H. Qed.

Lemma edge_selectNumbers fuel rnd :
  (forall st rnd',
     EdgeFunction.selectNumbers fuel rnd = Some (st, rnd') ->
     WellChosen (columnNumbers st)) /\
  (15 <= fuel -> exists st rnd', EdgeFunction.selectNumbers fuel rnd = Some (st, rnd')).
Proof.
  unfold EdgeFunction.selectNumbers.
  destruct (edge_selectLoop fuel initialSelection rnd Selecting_initial)
    as [Hsound Hruns].
  split.
  - intros st rnd'.
    destruct (EdgeFunction.selectLoop fuel initialSelection rnd)
      as [[st1 rnd1]|]; [|discriminate].
    destruct (Hsound st1 rnd1 eq_refl) as [Hst1 H15].
    rewrite (addLoop_done fuel st1 rnd1 H15), (removeLoop_done fuel st1 H15).
    intros [= <- _]. now apply Selecting_WellChosen.
  - intros Hfuel.
    destruct Hruns as (st1 & rnd1 & E); [cbn; lia|].
    rewrite E. destruct (Hsound st1 rnd1 E) as [Hst1 H15].
    rewrite (addLoop_done fuel st1 rnd1 H15), (removeLoop_done fuel st1 H15).
    now exists st1, rnd1.
Qed.

(** The generator of the fix-tickets function, which has no self-check,
    returns only grids with invariants 1 to 5, and returns with fifteen
    turns of fuel; the generator of buy-ticket, which runs validateTicket,
    never throws and gives the same ticket for the same draws. *)
Theorem edge_generators_valid :
  (forall fuel rnd ticket rnd',
     EdgeFunction.generateHousieTicket fuel rnd = Normal ticket rnd' ->
     Valid (grid ticket)) /\
  (forall fuel rnd,
     15 <= fuel ->
     exists ticket rnd',
       EdgeFunction.generateHousieTicket fuel rnd = Normal ticket rnd') /\
  (forall fuel rnd,
     EdgeFunction.generateCheckedTicket fuel rnd
     = EdgeFunction.generateHousieTicket fuel rnd).
Proof.
  split; [|split].
  - intros fuel rnd ticket rnd'. unfold EdgeFunction.generateHousieTicket.
    destruct (edge_selectNumbers fuel rnd) as [Hsound _].
    destruct (EdgeFunction.selectNumbers fuel rnd) as [[st rnd1]|]; [|discriminate].
    pose proof (placed_Valid _ (Hsound st rnd1 eq_refl)) as Hvalid.
    destruct (placeAll (columnNumbers st)) as [cells rowCounts].
    now intros [= <- _].
  - intros fuel rnd Hfuel. unfold EdgeFunction.generateHousieTicket.
    destruct (edge_selectNumbers fuel rnd) as [_ Hruns].
    destruct (Hruns Hfuel) as (st & rnd1 & ->).
    destruct (placeAll (columnNumbers st)) as [cells rowCounts]. eauto.
  - intros fuel rnd.
    unfold EdgeFunction.generateCheckedTicket, EdgeFunction.generateHousieTicket.
    destruct (edge_selectNumbers fuel rnd) as [Hsound _].
    destruct (EdgeFunction.selectNumbers fuel rnd) as [[st rnd1]|]; [|reflexivity].
    pose proof (validateTicket_Valid _ (placed_Valid _ (Hsound st rnd1 eq_refl)))
      as Hok.
    destruct (placeAll (columnNumbers st)) as [cells rowCounts].
    cbn [fst] in Hok. now rewrite Hok.
Qed.
(** ** Where the placement puts a number *)

Section PlaceAt.

Context {A : Type} (empty : A).

Lemma place_other entries : forall k (grid : list (list A)) row col,
  ~ In (row, col) (positions k entries) ->
  cell empty (place k grid entries) row col = cell empty grid row col.
Proof.
  induction entries as [|[num c] rest IH]; intros k grid row col Hnot;
    [reflexivity|].
  cbn [place positions] in *. rewrite IH by (intros H; apply Hnot; now right).
  apply cell_setCell_other. intros E. apply Hnot. left. now symmetry.
Qed.

Lemma place_at entries : forall k (grid : list (list A)) i d,
  shaped grid -> NoDup (positions k entries) ->
  (forall e, In e entries -> snd e < 9) -> i < length entries ->
  cell empty (place k grid entries) ((k + i) mod 3) (snd (nth i entries d))
  = fst (nth i entries d).
Proof.
  induction entries as [|[num c] rest IH]; intros k grid i d Hshape Hnd Hcols Hi;
    [simpl in Hi; lia|].
  cbn [place positions] in *. inversion Hnd as [|? ? Hnotin Hnd']; subst.
  destruct i as [|i].
  - cbn [nth fst snd]. rewrite Nat.add_0_r.
    rewrite place_other by assumption.
    destruct Hshape as [Hlen Hwide].
    apply cell_setCell_same.
    + rewrite Hlen. apply Nat.mod_upper_bound. lia.
    + rewrite Hwide.
      * apply (Hcols (num, c)). now left.
      * apply nth_In. rewrite Hlen. apply Nat.mod_upper_bound. lia.
  - cbn [nth]. replace (k + S i) with (S k + i) by lia.
    apply IH.
    + now apply shaped_setCell.
    + assumption.
    + intros e He. apply Hcols. now right.
    + simpl in Hi. lia.
Qed.

End PlaceAt.

(** The greedy placement deals the numbers to the rows in turn: the k-th
    number of allNumbers, which lists the selection column after column,
    is placed in row k mod 3 of its column. *)
Theorem greedy_placement_in_turn numbers k :
  Selected numbers -> k < 15 ->
  cell 0%Z (fst (placeAll numbers)) (k mod 3)
       (snd (nth k (collect numbers) (0%Z, 0)))
  = fst (nth k (collect numbers) (0%Z, 0)).
Proof.
  intros Hsel Hk. rewrite placeAll_roundRobin by assumption. cbn [fst].
  change (collect numbers) with (RoundRobin.entriesOf numbers (seq 0 9)).
  destruct (Selected_Ready numbers Hsel) as (Hshape & Hnd & _ & Hentries).
  apply (place_at 0%Z _ 0 Generator.emptyGrid k (0%Z, 0)); auto.
  - intros e He. now apply Hentries.
  - now rewrite (Selected_entries numbers Hsel).
Qed.

Lemma greedy_placement_in_turn_witness :
  cell 0%Z (fst (placeAll sampleSelection)) (4 mod 3)
       (snd (nth 4 (collect sampleSelection) (0%Z, 0)))
  = fst (nth 4 (collect sampleSelection) (0%Z, 0)).
Proof.
  apply (greedy_placement_in_turn sampleSelection 4);
    [apply sampleSelection_Selected|lia].
Defined.
(** ** The columns of the selection are sorted *)

Lemma addToColumn_column col st rnd :
  Selecting st -> col < 9 ->
  (nth col (columnCounts st) 0 < 3)%Z -> (totalNumbers st < 15)%Z ->
  exists selected,
    NoDup selected /\
    nth col (columnNumbers (fst (addToColumn col st rnd))) []
    = nth col (columnNumbers st) [] ++ sortNumbers selected.
Proof.
  intros Hst Hcol Hroom Hneed.
  pose proof (Selecting_count st col Hst) as Hcount.
  pose proof Hst as (Hlen & _).
  unfold addToColumn, targetNumbers, randomInt.
  pose proof (Nat.mod_upper_bound (rnd 0) 2 ltac:(lia)) as Hr.
  set (r := rnd 0 mod 2) in *.
  set (chosen := nth col (columnNumbers st) []) in *.
  set (available := availableNumbers col chosen).
  pose proof (availableNumbers_many col chosen Hcol) as Hmany. fold available in Hmany.
  set (numbersToAdd :=
         (Z.min (Z.min (3 - nth col (columnCounts st) 0) (15 - totalNumbers st))
                (Z.of_nat r + 1))%Z).
  assert (Hk : (1 <= numbersToAdd <= 2)%Z) by (unfold numbersToAdd; lia).
  clearbody numbersToAdd.
  destruct (Z.leb_spec numbersToAdd (Z.of_nat (length available))) as [Hle|Hgt];
    [|lia].
  destruct (shuffleArray available _) as [shuffled rnd2] eqn:Hsh.
  pose proof (shuffleArray_perm available (fun k => rnd (S k))) as Hperm.
  rewrite Hsh in Hperm. cbn [fst] in Hperm.
  exists (firstn (Z.to_nat numbersToAdd) shuffled). split.
  - assert (Hnd : NoDup shuffled).
    { apply (Permutation_NoDup Hperm), availableNumbers_NoDup. }
    rewrite <- (firstn_skipn (Z.to_nat numbersToAdd) shuffled) in Hnd.
    now apply NoDup_app_remove_r in Hnd.
  - cbn [fst columnNumbers]. now rewrite nth_assign_same by lia.
Qed.

Lemma sweep_sorted n : forall c st rnd,
  c + n = 9 -> Selecting st ->
  (forall c', c <= c' -> nth c' (columnNumbers st) [] = []) ->
  (forall c', ascending (nth c' (columnNumbers st) []) = true) ->
  forall c',
    ascending (nth c' (columnNumbers (fst (sweep (seq c n) st rnd))) []) = true.
Proof.
  induction n as [|n IH]; intros c st rnd Hc Hst Hempty Hsorted c';
    [apply Hsorted|].
  cbn [seq sweep]. unfold targetNumbers.
  destruct (Z.ltb_spec (totalNumbers st) 15) as [Hlt|Hge]; [|apply Hsorted].
  pose proof (Selecting_count st c Hst) as Hcount.
  rewrite (Hempty c (le_n c)) in Hcount. simpl in Hcount.
  rewrite Hcount. cbn [Z.ltb Z.compare].
  pose proof (addToColumn_spec c st rnd Hst) as Hadd.
  pose proof (addToColumn_column c st rnd Hst) as Hnew.
  destruct (addToColumn c st rnd) as [st1 rnd1]. cbn [fst] in Hadd, Hnew.
  destruct Hadd as (Hst1 & _ & Hother); try lia.
  destruct Hnew as (selected & Hnd & Hcolumn); try lia.
  rewrite (Hempty c (le_n c)) in Hcolumn. cbn [app] in Hcolumn.
  apply IH; auto; try lia.
  - intros c2 Hc2. rewrite Hother by lia. apply Hempty. lia.
  - intros c2. destruct (Nat.eq_dec c2 c) as [->|Hne].
    + rewrite Hcolumn. now apply sortNumbers_ascending.
    + rewrite Hother by lia. apply Hsorted.
Qed.

Lemma addOne_sorted cols : forall st rnd,
  (forall c, In c cols -> c < 9) -> Selecting st ->
  (forall c', ascending (nth c' (columnNumbers st) []) = true) ->
  forall c',
    ascending (nth c' (columnNumbers (fst (addOne cols st rnd))) []) = true.
Proof.
  induction cols as [|col cols IH]; intros st rnd Hcols Hst Hsorted c';
    [apply Hsorted|].
  assert (Hrest : forall c, In c cols -> c < 9)
    by (intros c Hc; apply Hcols; now right).
  assert (Hcol : col < 9) by (apply Hcols; now left).
  cbn [addOne].
  destruct ((nth col (columnCounts st) 0 <? 3)%Z
            && (totalNumbers st <? targetNumbers)%Z); [|now apply IH].
  set (chosen := nth col (columnNumbers st) []).
  destruct (Nat.ltb_spec 0 (length (availableNumbers col chosen))) as [Hsome|_];
    [|now apply IH].
  unfold randomInt. cbn [fst columnNumbers].
  set (randomNum := nth _ (availableNumbers col chosen) 0%Z).
  assert (Hin : In randomNum (availableNumbers col chosen)).
  { apply nth_In. apply Nat.mod_upper_bound. lia. }
  apply availableNumbers_In in Hin. destruct Hin as [_ Hfresh].
  destruct Hst as (Hlen & _ & _ & _ & Hinv).
  destruct (Hinv col Hcol) as (_ & Hnd & _). fold chosen in Hnd.
  destruct (Nat.eq_dec c' col) as [->|Hne].
  - rewrite nth_assign_same by lia. apply sortNumbers_ascending.
    apply NoDup_app; [assumption|repeat constructor; intros []|].
    intros x Hx [<-|[]]. contradiction.
  - rewrite nth_assign_other by auto. apply Hsorted.
Qed.

Lemma addLoop_sorted fuel : forall st rnd st' rnd',
  Selecting st ->
  (forall c', ascending (nth c' (columnNumbers st) []) = true) ->
  addLoop fuel st rnd = Some (st', rnd') ->
  forall c', ascending (nth c' (columnNumbers st') []) = true.
Proof.
  induction fuel as [|fuel IH]; intros st rnd st' rnd' Hst Hsorted;
    cbn [addLoop]; unfold targetNumbers;
    destruct (Z.ltb_spec (totalNumbers st) 15) as [Hlt|Hge];
    try discriminate; try (intros [= <- _]; assumption).
  pose proof (addOne_spec 9 0 st rnd eq_refl Hst Hlt) as Hone.
  pose proof (addOne_sorted (seq 0 9) st rnd seq_columns Hst Hsorted) as Hsorted1.
  destruct (addOne (seq 0 9) st rnd) as [st1 rnd1]. cbn [fst] in Hone, Hsorted1.
  destruct Hone as (Hst1 & _); [intros; lia|].
  now apply IH.
Qed.

(** The selection a returned ticket is laid out from, with its columns in
    ascending order. *)
Lemma generate_sorted fuel rnd ticket rnd' :
  generateHousieTicket fuel rnd = Normal ticket rnd' ->
  exists numbers,
    WellChosen numbers /\
    (forall col, col < 8 -> 1 <= length (nth col numbers [])) /\
    (forall col, ascending (nth col numbers []) = true) /\
    grid ticket = fst (placeAll numbers) /\
    flatNumbers ticket = sortNumbers (flatten (fst (placeAll numbers))).
Proof.
  unfold generateHousieTicket.
  destruct (selectLoop fuel initialSelection rnd) as [[st1 rnd1]|] eqn:E1;
    [|discriminate].
  pose proof (selectLoop_first _ _ _ _ E1) as Hfirst.
  apply selectLoop_sound in E1.
  destruct (addLoop fuel st1 rnd1) as [[st2 rnd2]|] eqn:E2; [|discriminate].
  pose proof (fun c => addLoop_keeps _ _ _ _ _ c E2) as Hkeep.
  assert (Hsorted1 : forall c', ascending (nth c' (columnNumbers st1) []) = true).
  { rewrite Hfirst.
    apply (sweep_sorted 9 0 initialSelection rnd eq_refl Selecting_initial).
    - intros c' _. apply initialSelection_empty.
    - intros c'. now rewrite initialSelection_empty. }
  pose proof (addLoop_sorted _ _ _ _ _ E1 Hsorted1 E2) as Hsorted2.
  apply addLoop_sound in E2; [|assumption]. destruct E2 as [Hst2 H15].
  rewrite (removeLoop_done fuel st2 H15).
  pose proof (Selecting_WellChosen st2 Hst2 H15) as Hwc.
  destruct (placeAll (columnNumbers st2)) as [cells rowCounts] eqn:Eplace.
  destruct (validateTicket cells); [discriminate|].
  intros [= <- _]. exists (columnNumbers st2).
  rewrite Eplace. cbn [grid flatNumbers fst].
  split; [assumption|]. split; [|now repeat split].
  intros col Hcol. specialize (Hkeep col).
  assert (1 <= length (nth col (columnNumbers st1) [])); [|lia].
  rewrite Hfirst.
  apply (sweep_fills 9 0 initialSelection rnd eq_refl Selecting_initial); auto.
  - intros c' _. apply initialSelection_empty.
  - intros c' Hc'. lia.
Qed.
(** ** The cells of a column *)

Import Columns.

Lemma positions_rows {A : Type} (entries : list (A * nat)) : forall k p,
  In p (positions k entries) ->
  exists i, i < length entries /\ fst p = (k + i) mod 3.
Proof.
  induction entries as [|[num c] rest IH]; intros k p Hp; [destruct Hp|].
  cbn [positions] in Hp. destruct Hp as [<-|Hp].
  - exists 0. cbn [fst length]. rewrite Nat.add_0_r. split; [lia|reflexivity].
  - destruct (IH (S k) p Hp) as (i & Hi & E). exists (S i).
    cbn [length]. split; [lia|]. rewrite E. f_equal. lia.
Qed.

Lemma entriesOf_split {A : Type} (numbers : list (list A)) col :
  col < 9 ->
  RoundRobin.entriesOf numbers (seq 0 9) =
  RoundRobin.entriesOf numbers (seq 0 col)
  ++ map (fun num => (num, col)) (nth col numbers [])
  ++ RoundRobin.entriesOf numbers (seq (S col) (8 - col)).
Proof.
  intros Hcol. unfold RoundRobin.entriesOf.
  replace 9 with (col + S (8 - col)) by lia.
  rewrite seq_app, flat_map_app. cbn [seq flat_map Nat.add]. reflexivity.
Qed.

Lemma entries_before {A : Type} (numbers : list (list A)) col :
  length (RoundRobin.entriesOf numbers (seq 0 col)) =
  list_sum (map (fun c => length (nth c numbers [])) (seq 0 col)).
Proof.
  induction col as [|col IH]; [reflexivity|].
  unfold RoundRobin.entriesOf in *.
  rewrite seq_S, flat_map_app, map_app, list_sum_app, length_app, IH.
  cbn [flat_map map]. rewrite app_nil_r, length_map.
  change (list_sum [length (nth (0 + col) numbers [])])
    with (length (nth (0 + col) numbers []) + 0).
  lia.
Qed.

Lemma turn_back offset row :
  row < 3 -> (offset + (row + 3 - offset mod 3) mod 3) mod 3 = row.
Proof.
  intros Hrow. rewrite <- Nat.Div0.add_mod_idemp_l.
  pose proof (Nat.mod_upper_bound offset 3 ltac:(lia)) as Hs.
  destruct (offset mod 3) as [|[|[|]]]; try lia;
    do 3 (destruct row as [|row]; [reflexivity|]); lia.
Qed.

Lemma turn_once offset row i :
  row < 3 -> i < 3 -> (offset + i) mod 3 = row ->
  i = (row + 3 - offset mod 3) mod 3.
Proof.
  intros Hrow Hi. rewrite <- Nat.Div0.add_mod_idemp_l.
  pose proof (Nat.mod_upper_bound offset 3 ltac:(lia)) as Hs.
  destruct (offset mod 3) as [|[|[|]]]; try lia;
    do 3 (destruct i as [|i]; [intros <-; reflexivity|]); lia.
Qed.

Section ColumnCells.

Variable numbers : list (list Z).
Hypothesis selected : Selected numbers.
Variable col : nat.
Hypothesis inside : col < 9.

Lemma column_entry i :
  i < length (nth col numbers []) ->
  nth (length (RoundRobin.entriesOf numbers (seq 0 col)) + i)
      (RoundRobin.entriesOf numbers (seq 0 9)) (0%Z, col)
  = (nth i (nth col numbers []) 0%Z, col).
Proof.
  intros Hi. rewrite (entriesOf_split numbers col inside).
  rewrite app_nth2_plus, app_nth1 by now rewrite length_map.
  apply (map_nth (fun num => (num, col))).
Qed.

Lemma column_short : length (nth col numbers []) <= 3.
Proof. now apply (selected_capacity _ selected). Qed.

Lemma column_last i :
  i < length (nth col numbers []) ->
  length (RoundRobin.entriesOf numbers (seq 0 col)) + i < 15.
Proof.
  intros Hi. rewrite <- (Selected_entries numbers selected).
  rewrite (entriesOf_split numbers col inside), !length_app, length_map. lia.
Qed.

Lemma column_cell row :
  row < 3 ->
  cell 0%Z (fst (placeAll numbers)) row col =
  nth ((row + 3
        - length (RoundRobin.entriesOf numbers (seq 0 col)) mod 3) mod 3)
      (nth col numbers []) 0%Z.
Proof.
  intros Hrow. rewrite placeAll_roundRobin by assumption. cbn [fst].
  set (before := length (RoundRobin.entriesOf numbers (seq 0 col))).
  set (i := (row + 3 - before mod 3) mod 3).
  assert (Hi3 : i < 3) by (apply Nat.mod_upper_bound; lia).
  destruct (Selected_Ready numbers selected) as (Hshape & Hnd & _ & Hentries).
  destruct (Nat.lt_ge_cases i (length (nth col numbers []))) as [Hi|Hi].
  - pose proof (place_at 0%Z (RoundRobin.entriesOf numbers (seq 0 9)) 0
                  Generator.emptyGrid (before + i) (0%Z, col) Hshape Hnd) as Hat.
    pose proof (column_entry i Hi) as Eentry. fold before in Eentry.
    rewrite Eentry in Hat. cbn [fst snd] in Hat.
    change (0 + (before + i)) with (before + i) in Hat.
    replace ((before + i) mod 3) with row in Hat
      by (symmetry; apply turn_back; assumption).
    apply Hat.
    + intros e He. now apply Hentries.
    + rewrite (Selected_entries numbers selected). now apply (column_last i).
  - rewrite (nth_overflow (nth col numbers [])) by assumption.
    rewrite place_other; [apply (cell_blank 0%Z)|].
    rewrite (entriesOf_split numbers col inside), !positions_app.
    fold before. intros Hin. apply in_app_or in Hin.
    destruct Hin as [Hin|Hin]; [|apply in_app_or in Hin; destruct Hin as [Hin|Hin]].
    + apply positions_entries in Hin.
      * cbn [snd] in Hin. apply in_seq in Hin. lia.
      * apply seq_NoDup.
      * intros c Hc. apply (selected_capacity _ selected).
        apply in_seq in Hc. lia.
    + apply positions_rows in Hin. destruct Hin as (j & Hj & E).
      rewrite length_map in Hj. cbn [fst] in E.
      pose proof column_short.
      assert (j = i); [|lia].
      apply turn_once; try lia. now symmetry.
    + apply positions_entries in Hin.
      * cbn [snd] in Hin. apply in_seq in Hin. lia.
      * apply seq_NoDup.
      * intros c Hc. apply (selected_capacity _ selected).
        apply in_seq in Hc. lia.
Qed.

Lemma column_values :
  columnValues (fst (placeAll numbers)) col =
  filter nonEmpty
    [cell 0%Z (fst (placeAll numbers)) 0 col;
     cell 0%Z (fst (placeAll numbers)) 1 col;
     cell 0%Z (fst (placeAll numbers)) 2 col].
Proof.
  destruct (placed_shaped numbers selected) as [Hlen _].
  unfold columnValues, cell.
  destruct (fst (placeAll numbers)) as [|r0 [|r1 [|r2 [|]]]]; try discriminate.
  reflexivity.
Qed.

Hypothesis sorted : ascending (nth col numbers []) = true.

Lemma column_order :
  length (columnValues (fst (placeAll numbers)) col)
  = length (nth col numbers []) /\
  (ascending (columnValues (fst (placeAll numbers)) col) = true <->
   length (RoundRobin.entriesOf numbers (seq 0 col)) mod 3
   + length (nth col numbers []) <= 3).
Proof.
  rewrite column_values, !column_cell by lia.
  pose proof (Nat.mod_upper_bound
                (length (RoundRobin.entriesOf numbers (seq 0 col))) 3 ltac:(lia))
    as Hs.
  pose proof column_short as Hshort.
  assert (Hnz : forall num, In num (nth col numbers []) -> nonEmpty num = true).
  { intros num Hnum. apply nonEmpty_true. apply (selected_nonzero _ selected).
    apply in_concat. exists (nth col numbers []). split; [|assumption].
    apply nth_In. rewrite (selected_columns _ selected). assumption. }
  destruct (nth col numbers []) as [|a [|b [|c [|d rest]]]];
    [..|simpl in Hshort; lia];
    destruct (length (RoundRobin.entriesOf numbers (seq 0 col)) mod 3)
      as [|[|[|]]]; try lia;
    cbn [nth Nat.add Nat.sub Nat.modulo Nat.divmod fst snd filter length];
    rewrite ?(Hnz a), ?(Hnz b), ?(Hnz c) by (cbn [In]; tauto);
    change (nonEmpty 0%Z) with false; cbv iota;
    rewrite ?ascending_cons in *; cbn [ascending length] in *;
    (split; [reflexivity|]); split; intros H; try reflexivity; try lia;
    rewrite ?andb_true_r in *;
    repeat match goal with
           | H : _ && _ = true |- _ => apply andb_prop in H; destruct H
           | H : (_ <? _)%Z = true |- _ => apply Z.ltb_lt in H
           end;
    try lia; simpl in H; try lia.
Qed.

End ColumnCells.
(** ** The order of a generated column *)

Lemma generated_filledBefore numbers col :
  Selected numbers -> (forall c, ascending (nth c numbers []) = true) ->
  col <= 9 ->
  filledBefore (fst (placeAll numbers)) col =
  length (RoundRobin.entriesOf numbers (seq 0 col)).
Proof.
  intros Hsel Hsorted Hcol. rewrite entries_before. unfold filledBefore.
  f_equal. apply map_ext_in. intros c Hc. apply in_seq in Hc.
  now apply column_order; try lia.
Qed.

(** When a column of a returned ticket is in ascending order: exactly when
    its numbers, which start in the row that the count of the numbers to
    their left designates, reach the third row at most, that is, when that
    count modulo 3 plus the size of the column is at most 3. *)
Theorem generated_column_order fuel rnd ticket rnd' col :
  generateHousieTicket fuel rnd = Normal ticket rnd' -> col < 9 ->
  ascending (columnValues (grid ticket) col) = true <->
  filledBefore (grid ticket) col mod 3 + length (columnValues (grid ticket) col)
  <= 3.
Proof.
  intros E Hcol.
  destruct (generate_sorted _ _ _ _ E)
    as (numbers & [Hsel _ _] & _ & Hsorted & -> & _).
  rewrite (generated_filledBefore numbers col Hsel Hsorted) by lia.
  destruct (column_order numbers Hsel col Hcol (Hsorted col)) as [-> Hiff].
  exact Hiff.
Qed.

Lemma generated_column_order_witness :
  ascending (columnValues (grid sampleTicket) 1) = true <->
  filledBefore (grid sampleTicket) 1 mod 3
  + length (columnValues (grid sampleTicket) 1) <= 3.
Proof.
  apply (generated_column_order 15 alwaysOne sampleTicket alwaysOne 1);
    [vm_compute; reflexivity|lia].
Defined.

(** ** The smallest number *)

Lemma ascending_head l x :
  ascending l = true -> In x l -> (hd 0 l <= x)%Z.
Proof.
  revert x. induction l as [|y t IH]; intros x Hl Hx; [destruct Hx|].
  destruct Hx as [<-|Hx]; [cbn; lia|].
  destruct t as [|z t']; [destruct Hx|].
  rewrite ascending_cons in Hl. apply andb_prop in Hl. destruct Hl as [Hyz Hl].
  apply Z.ltb_lt in Hyz. specialize (IH x Hl Hx). cbn [hd] in *. lia.
Qed.

(** The top left cell of every returned ticket holds the smallest number of
    the ticket, the first of flatNumbers. *)
Theorem smallest_number_top_left fuel rnd ticket rnd' :
  generateHousieTicket fuel rnd = Normal ticket rnd' ->
  cell 0%Z (grid ticket) 0 0 = hd 0%Z (flatNumbers ticket) /\
  cell 0%Z (grid ticket) 0 0 <> 0%Z.
Proof.
  intros E.
  destruct (generate_sorted _ _ _ _ E)
    as (numbers & Hwc & Hfilled & Hsorted & -> & ->).
  pose proof Hwc as [Hsel Hranges _].
  rewrite (column_cell numbers Hsel 0 ltac:(lia) 0 ltac:(lia)).
  change ((0 + 3 - length (RoundRobin.entriesOf numbers (seq 0 0)) mod 3) mod 3)
    with 0.
  specialize (Hfilled 0 ltac:(lia)).
  destruct (nth 0 numbers []) as [|a rest] eqn:Efirst; [simpl in Hfilled; lia|].
  cbn [nth].
  assert (Hcol : In a (nth 0 numbers [])) by (rewrite Efirst; now left).
  assert (Hall : In a (concat numbers)).
  { apply in_concat. exists (nth 0 numbers []). split; [|assumption].
    apply nth_In. rewrite (selected_columns _ Hsel). lia. }
  split; [|now apply (selected_nonzero _ Hsel)].
  assert (Hleast : forall num, In num (concat numbers) -> (a <= num)%Z).
  { intros num Hnum. apply in_concat_column in Hnum.
    destruct Hnum as (c & Hc & Hnum). rewrite (selected_columns _ Hsel) in Hc.
    destruct c as [|c].
    - specialize (Hsorted 0). rewrite Efirst in *.
      apply (ascending_head _ num Hsorted Hnum).
    - pose proof (inColumnRange_bounds _ _ Hc (Hranges _ _ Hc Hnum)).
      pose proof (inColumnRange_bounds 0 a ltac:(lia) (Hranges 0 a ltac:(lia) Hcol)).
      lia. }
  pose proof (placed_Valid _ Hwc) as [Hshape Htotal _ _ _ Hdistinct].
  rewrite (flatten_numbersOf _ Hshape).
  set (flat := sortNumbers (numbersOf (fst (placeAll numbers)))).
  assert (Hperm : Permutation flat (concat numbers)).
  { unfold flat. rewrite sortNumbers_perm. now apply placed_numbers. }
  assert (Hasc : ascending flat = true) by now apply sortNumbers_ascending.
  assert (Hin : In a flat) by now apply (Permutation_in _ (Permutation_sym Hperm)).
  pose proof (ascending_head flat a Hasc Hin) as Hle.
  assert (Hhd : In (hd 0%Z flat) flat).
  { destruct flat; [destruct Hin|now left]. }
  apply (Permutation_in _ Hperm), Hleast in Hhd. lia.
Qed.

Lemma smallest_number_top_left_witness :
  cell 0%Z (grid sampleTicket) 0 0 = hd 0%Z (flatNumbers sampleTicket) /\
  cell 0%Z (grid sampleTicket) 0 0 <> 0%Z.
Proof.
  apply (smallest_number_top_left 15 alwaysOne sampleTicket alwaysOne).
  vm_compute. reflexivity.
Defined.
(** ** From flatNumbers back to the grid *)

Lemma overflow_none l : forall counts,
  length counts = 9 ->
  (forall col, nth col counts 0 + length (filter (inColumn col) l) <= 3) ->
  snd (fold_left overflowStep l (counts, false)) = false.
Proof.
  induction l as [|x t IH]; intros counts Hlen Hsmall; [reflexivity|].
  cbn [fold_left overflowStep].
  destruct (columnOf x) as [c|] eqn:E.
  - pose proof (columnOf_bound _ _ E) as Hc.
    assert (Hx : forall col, inColumn col x = (c =? col))
      by (intros col; unfold inColumn; now rewrite E).
    pose proof (Hsmall c) as Hhere. cbn [filter] in Hhere.
    rewrite Hx, Nat.eqb_refl in Hhere. cbn [length] in Hhere.
    rewrite nth_assign_same by lia.
    destruct (Nat.ltb_spec 3 (nth c counts 0 + 1)) as [|_]; [lia|].
    apply IH; [now rewrite assign_length|].
    intros col. specialize (Hsmall col). cbn [filter] in Hsmall.
    rewrite Hx in Hsmall.
    destruct (Nat.eqb_spec c col) as [Heq|Hne]; cbn [length] in Hsmall.
    + rewrite <- Heq in *. rewrite nth_assign_same by lia. lia.
    + now rewrite nth_assign_other by assumption.
  - apply IH; [assumption|]. intros col. specialize (Hsmall col).
    cbn [filter] in Hsmall. unfold inColumn in Hsmall at 1.
    now rewrite E in Hsmall.
Qed.

Lemma columnOverflow_none l :
  (forall col, length (filter (inColumn col) l) <= 3) -> columnOverflow l = false.
Proof.
  intros H. apply overflow_none; [reflexivity|].
  intros col. rewrite nth_repeat. apply H.
Qed.

Lemma filter_perm {A : Type} (p : A -> bool) (l l' : list A) :
  Permutation l l' -> Permutation (filter p l) (filter p l').
Proof.
  induction 1 as [|x l l' _ IH|x y l|l l' l'' _ IH1 _ IH2]; cbn [filter].
  - constructor.
  - destruct (p x); [now constructor|assumption].
  - destruct (p x), (p y); try reflexivity. apply perm_swap.
  - now transitivity (filter p l').
Qed.

Lemma ascending_same l : forall l',
  ascending l = true -> ascending l' = true -> Permutation l l' -> l = l'.
Proof.
  induction l as [|x t IH]; intros l' Hl Hl' Hperm.
  - apply Permutation_nil in Hperm. now subst.
  - destruct l' as [|y t'];
      [apply Permutation_sym, Permutation_nil in Hperm; discriminate|].
    assert (x = y).
    { pose proof (ascending_head (x :: t) y Hl
                    (Permutation_in _ (Permutation_sym Hperm) ltac:(now left))).
      pose proof (ascending_head (y :: t') x Hl'
                    (Permutation_in _ Hperm ltac:(now left))).
      cbn [hd] in *. lia. }
    subst y. f_equal. apply IH.
    + now apply (ascending_tail x).
    + now apply (ascending_tail x).
    + now apply Permutation_cons_inv in Hperm.
Qed.

Lemma ascending_NoDup l : ascending l = true -> NoDup l.
Proof.
  induction l as [|x t IH]; intros Hl; constructor.
  - intros Hin. pose proof (ascending_tail _ _ Hl) as Ht.
    destruct t as [|y t']; [destruct Hin|].
    rewrite ascending_cons in Hl. apply andb_prop in Hl. destruct Hl as [Hxy _].
    apply Z.ltb_lt in Hxy.
    pose proof (ascending_head (y :: t') x Ht Hin). cbn [hd] in *. lia.
  - apply IH. now apply (ascending_tail x).
Qed.

Lemma sortNumbers_same l l' :
  ascending l' = true -> Permutation l l' -> sortNumbers l = l'.
Proof.
  intros Hl' Hperm. apply ascending_same; [|assumption|].
  - apply sortNumbers_ascending.
    apply (Permutation_NoDup (Permutation_sym Hperm)). now apply ascending_NoDup.
  - now rewrite sortNumbers_perm.
Qed.

Lemma sortNums_ofZ l : sortNums (map ofZ l) = map ofZ (sortNumbers l).
Proof.
  unfold sortNums, sortNumbers. induction l as [|x t IH]; [reflexivity|].
  cbn [map fold_right]. rewrite IH.
  generalize (fold_right insertNumber [] t). intros s.
  induction s as [|y s IHs]; [reflexivity|].
  cbn [map insertNum insertNumber]. rewrite leNum_ofZ.
  destruct (x <=? y)%Z; [reflexivity|]. cbn [map]. now rewrite IHs.
Qed.

Lemma filter_ofZ (p : number -> bool) l :
  filter p (map ofZ l) = map ofZ (filter (fun z => p (ofZ z)) l).
Proof.
  induction l as [|x t IH]; [reflexivity|]. cbn [map filter].
  destruct (p (ofZ x)); cbn [map]; now rewrite IH.
Qed.

Lemma filter_all_or_none {A : Type} (p : A -> bool) (b : bool) (l : list A) :
  (forall x, In x l -> p x = b) -> filter p l = if b then l else [].
Proof.
  intros H. induction l as [|x t IH]; [now destruct b|]. cbn [filter].
  rewrite (H x) by now left. rewrite IH by (intros y Hy; apply H; now right).
  now destruct b.
Qed.

Lemma column_filter (l : list (list Z)) col : forall c,
  (forall i num, i < length l -> In num (nth i l []) ->
     columnOf (ofZ num) = Some (c + i)) ->
  filter (fun z => inColumn col (ofZ z)) (concat l)
  = if c <=? col then nth (col - c) l [] else [].
Proof.
  induction l as [|x t IH]; intros c Hcols.
  - cbn [concat filter]. destruct (c <=? col); [|reflexivity].
    now destruct (col - c).
  - cbn [concat]. rewrite filter_app.
    rewrite (filter_all_or_none _ (c =? col) x).
    2:{ intros num Hnum. unfold inColumn.
        rewrite (Hcols 0 num ltac:(simpl; lia) Hnum). now rewrite Nat.add_0_r. }
    rewrite (IH (S c)).
    2:{ intros i num Hi Hnum. replace (S c + i) with (c + S i) by lia.
        apply Hcols; [simpl; lia|assumption]. }
    destruct (Nat.eqb_spec c col) as [->|Hne].
    + rewrite Nat.leb_refl, Nat.sub_diag.
      destruct (Nat.leb_spec (S col) col); [lia|]. cbn [nth]. apply app_nil_r.
    + cbn [app]. destruct (Nat.leb_spec (S c) col), (Nat.leb_spec c col);
        try lia; [|reflexivity].
      replace (col - c) with (S (col - S c)) by lia. reflexivity.
Qed.

Section Setcells.

Context {A B : Type} (f : A -> B).

Lemma setCell_map (grid : list (list A)) row col v :
  setCell (map (map f) grid) row col (f v) = map (map f) (setCell grid row col v).
Proof.
  unfold setCell. rewrite assign_map. f_equal.
  change (@nil B) with (map f []). now rewrite map_nth, assign_map.
Qed.

Lemma place_map entries : forall k (grid : list (list A)),
  place k (map (map f) grid) (map (fun e => (f (fst e), snd e)) entries)
  = map (map f) (place k grid entries).
Proof.
  induction entries as [|[num col] rest IH]; intros k grid; [reflexivity|].
  cbn [map place fst snd]. now rewrite setCell_map, IH.
Qed.

Lemma entriesOf_map (numbers : list (list A)) cols :
  RoundRobin.entriesOf (map (map f) numbers) cols
  = map (fun e => (f (fst e), snd e)) (RoundRobin.entriesOf numbers cols).
Proof.
  unfold RoundRobin.entriesOf. induction cols as [|col cols IH]; [reflexivity|].
  cbn [flat_map]. rewrite map_app, IH. f_equal.
  change (@nil B) with (map f []). rewrite map_nth, !map_map. reflexivity.
Qed.

End Setcells.

Section RoundTrip.

Variable numbers : list (list Z).
Hypothesis chosen : WellChosen numbers.
Hypothesis sorted : forall col, ascending (nth col numbers []) = true.
Variable flat : list Z.
Hypothesis stored : flat = sortNumbers (flatten (fst (placeAll numbers))).

Lemma stored_perm : Permutation flat (concat numbers).
Proof.
  pose proof chosen as [Hsel _ _]. rewrite stored.
  rewrite (flatten_numbersOf _ (placed_shaped _ Hsel)), sortNumbers_perm.
  now apply placed_numbers.
Qed.

Lemma stored_column col :
  col < 9 -> sortNumbers (filter (fun z => inColumn col (ofZ z)) flat)
             = nth col numbers [].
Proof.
  intros Hcol. pose proof chosen as [Hsel Hranges _].
  apply sortNumbers_same; [apply sorted|].
  rewrite (filter_perm _ _ _ stored_perm).
  rewrite (column_filter numbers col 0).
  - cbn [Nat.leb]. now rewrite Nat.sub_0_r.
  - intros i num Hi Hnum. rewrite (selected_columns _ Hsel) in Hi.
    apply columnOf_ofZ; [assumption|]. now apply Hranges.
Qed.

Lemma stored_positive : filter positive (map ofZ flat) = map ofZ flat.
Proof.
  apply filter_everything. intros num Hnum. apply in_map_iff in Hnum.
  destruct Hnum as (z & <- & Hz).
  apply (Permutation_in _ stored_perm), in_concat_column in Hz.
  destruct Hz as (c & Hc & Hz). pose proof chosen as [Hsel Hranges _].
  rewrite (selected_columns _ Hsel) in Hc.
  pose proof (inColumnRange_bounds c z Hc (Hranges c z Hc Hz)).
  unfold positive. rewrite ltNum_ofZ. apply Z.ltb_lt. lia.
Qed.

Lemma stored_capacity : columnOverflow (map ofZ flat) = false.
Proof.
  apply columnOverflow_none. intros col.
  rewrite filter_ofZ, length_map.
  rewrite (filter_length_perm _ _ _ stored_perm).
  pose proof chosen as [Hsel Hranges _].
  apply (column_count numbers col 0).
  - rewrite (selected_columns _ Hsel). lia.
  - intros i num Hi Hnum. rewrite (selected_columns _ Hsel) in Hi.
    now apply Hranges.
  - intros i Hi. rewrite (selected_columns _ Hsel) in Hi.
    now apply (selected_capacity _ Hsel).
Qed.

Lemma stored_columns : sortedColumns (map ofZ flat) = map (map ofZ) numbers.
Proof.
  pose proof chosen as [Hsel _ _].
  apply (nth_ext _ _ [] []).
  - unfold sortedColumns.
    now rewrite !length_map, groupByColumn_length, (selected_columns _ Hsel).
  - intros col Hcol. unfold sortedColumns in Hcol.
    rewrite length_map, groupByColumn_length in Hcol.
    rewrite sortedColumns_nth, filter_ofZ, sortNums_ofZ, (stored_column col Hcol).
    change (@nil number) with (map ofZ []). now rewrite map_nth.
Qed.

Lemma stored_grid :
  fst (layOut (sortedColumns (map ofZ flat)))
  = map (map ofZ) (fst (placeAll numbers)).
Proof.
  pose proof chosen as [Hsel _ _].
  rewrite layOut_inTurn.
  - rewrite stored_columns, entriesOf_map.
    change Display.emptyGrid with (map (map ofZ) Generator.emptyGrid).
    rewrite place_map. now rewrite placeAll_roundRobin.
  - rewrite length_map, (Permutation_length stored_perm).
    rewrite (selected_total _ Hsel). lia.
Qed.

Lemma stored_fifteen : length (map ofZ flat) = 15.
Proof.
  pose proof chosen as [Hsel _ _].
  now rewrite length_map, (Permutation_length stored_perm), (selected_total _ Hsel).
Qed.

End RoundTrip.

(** Stored and read back: from the flatNumbers of a returned ticket both
    analyzeTicket and the HousieTicket component lay out the grid the
    generator returned, cell for cell. *)
Theorem flatNumbers_give_back_the_grid fuel rnd ticket rnd' :
  generateHousieTicket fuel rnd = Normal ticket rnd' ->
  forall fuel' rnd'',
    analyzeTicketGrid fuel' (map ofZ (flatNumbers ticket)) rnd''
    = Some (map (map ofZ) (grid ticket), rnd'') /\
    ticketGrid fuel' (map ofZ (flatNumbers ticket)) rnd''
    = Some (map (map ofZ) (grid ticket), rnd'').
Proof.
  intros E fuel' rnd''.
  destruct (generate_sorted _ _ _ _ E)
    as (numbers & Hwc & _ & Hsorted & -> & Eflat).
  pose proof (stored_positive numbers Hwc _ Eflat) as Hpos.
  pose proof (stored_capacity numbers Hwc _ Eflat) as Hcap.
  pose proof (stored_fifteen numbers Hwc _ Eflat) as Hlen.
  pose proof (stored_grid numbers Hwc Hsorted _ Eflat) as Hgrid.
  split.
  - unfold analyzeTicketGrid. now rewrite Hpos, Hlen, Hcap, Hgrid.
  - assert (Hsame : ticketNumbersOf (map ofZ (flatNumbers ticket))
                    = map ofZ (flatNumbers ticket)).
    { unfold ticketNumbersOf. now rewrite Hlen. }
    assert (Hsome : existsb positive (map ofZ (flatNumbers ticket)) = true).
    { destruct (fifteen_member _ Hlen) as (num & Hnum).
      apply existsb_exists. exists num. split; [assumption|].
      rewrite <- Hpos in Hnum. now apply filter_In in Hnum. }
    unfold ticketGrid. now rewrite Hsame, Hlen, Hsome, Hpos, Hcap, Hgrid.
Qed.

Lemma flatNumbers_give_back_the_grid_witness :
  generateHousieTicket 15 alwaysOne = Normal sampleTicket alwaysOne /\
  analyzeTicketGrid 0 (map ofZ (flatNumbers sampleTicket)) alwaysOne
  = Some (map (map ofZ) (grid sampleTicket), alwaysOne) /\
  ticketGrid 0 (map ofZ (flatNumbers sampleTicket)) alwaysOne
  = Some (map (map ofZ) (grid sampleTicket), alwaysOne).
Proof.
  split; [vm_compute; reflexivity|].
  apply (flatNumbers_give_back_the_grid 15 alwaysOne sampleTicket alwaysOne).
  vm_compute. reflexivity.
Defined.
(** ** An accepted ticket is shown in full *)

Lemma validNumbersOf_list (l : list number) :
  validNumbersOf (map JSNumber l) = filter positive l.
Proof.
  unfold validNumbersOf. induction l as [|num rest IH]; [reflexivity|].
  cbn [map flat_map filter]. rewrite IH. now destruct (positive num).
Qed.

Lemma outside_columns col num : 9 <= col -> inColumn col num = false.
Proof.
  intros Hcol. unfold inColumn. destruct (columnOf num) as [c|] eqn:E;
    [|reflexivity].
  apply columnOf_bound in E. apply Nat.eqb_neq. lia.
Qed.

(** A list of numbers that validateExistingTicket accepts, its positive
    numbers being integers, is laid out in full by analyzeTicket: the grid
    holds exactly its fifteen positive numbers, five to a row, each in its
    column. *)
Theorem accepted_ticket_is_shown
  (JSON_parse : string -> option JSValue) (showNumber : number -> string)
  (showError : Exception -> string) (ticketNumbers : list number) :
  isValid (validateExistingTicket JSON_parse showNumber showError
             (JSArray (map JSNumber ticketNumbers))) = true ->
  (forall num, In num (filter positive ticketNumbers) -> isInteger num = true) ->
  exists grid,
    (forall fuel rnd, analyzeTicketGrid fuel ticketNumbers rnd = Some (grid, rnd)) /\
    Permutation (filter filledNumber (concat grid)) (filter positive ticketNumbers) /\
    (forall row, row < 3 -> length (filter filledNumber (nth row grid [])) = 5) /\
    (forall row col, col < 9 ->
       filledNumber (cell (ofZ 0) grid row col) = true ->
       inColumn col (cell (ofZ 0) grid row col) = true).
Proof.
  intros Hvalid Hwhole.
  assert (Hlist : candidateList JSON_parse (JSArray (map JSNumber ticketNumbers))
                  = Some (map JSNumber ticketNumbers)).
  { unfold candidateList. now destruct ticketNumbers. }
  rewrite (validateExistingTicket_checks JSON_parse showNumber showError _ _ Hlist)
    in Hvalid.
  cbn [isValid] in Hvalid.
  apply allIssues_none in Hvalid; [|apply validNumbersOf_positive].
  rewrite validNumbersOf_list in Hvalid.
  destruct Hvalid as [Hlen _ Hrange Hcols].
  set (validNumbers := filter positive ticketNumbers) in *.
  assert (Hcolumn : forall num, In num validNumbers -> hasColumn num = true).
  { intros num Hnum. apply integer_hasColumn; auto. }
  assert (Hcap : columnOverflow validNumbers = false).
  { apply columnOverflow_none. intros col.
    destruct (Nat.lt_ge_cases col 9) as [Hcol|Hcol]; [now apply Hcols|].
    rewrite (filter_all_or_none _ false); [simpl; lia|].
    intros num _. now apply outside_columns. }
  exists (fst (layOut (sortedColumns validNumbers))).
  split; [|split; [|split]].
  - intros fuel rnd. unfold analyzeTicketGrid. fold validNumbers.
    now rewrite Hlen, Hcap.
  - now apply laidOut_numbers.
  - intros row Hrow. now apply laidOut_rows.
  - intros row col Hcol. now apply laidOut_columns.
Qed.

Lemma accepted_ticket_is_shown_witness :
  exists grid,
    (forall fuel rnd,
       analyzeTicketGrid fuel (map ofZ (flatNumbers sampleTicket)) rnd
       = Some (grid, rnd)) /\
    Permutation (filter filledNumber (concat grid))
                (filter positive (map ofZ (flatNumbers sampleTicket))) /\
    (forall row, row < 3 -> length (filter filledNumber (nth row grid [])) = 5) /\
    (forall row col, col < 9 ->
       filledNumber (cell (ofZ 0) grid row col) = true ->
       inColumn col (cell (ofZ 0) grid row col) = true).
Proof.
  apply (accepted_ticket_is_shown (fun _ => None) (fun _ => "") (fun _ => "")
           (map ofZ (flatNumbers sampleTicket))).
  - reflexivity.
  - intros num Hnum. cbn in Hnum.
    repeat (destruct Hnum as [<-|Hnum]; [reflexivity|]). destruct Hnum.
Defined.

(** ** The loops that adjust the selection *)

(** In generateHousieTicket the loop that removes numbers in excess never
    runs: after the loop that adds numbers the selection holds fifteen, and
    the third loop returns without a turn.  In the edge functions, whose
    first loop has no break, neither the second nor the third loop runs. *)
Theorem adjusting_loops_idle :
  (forall fuel rnd st1 rnd1 st2 rnd2,
     selectLoop fuel initialSelection rnd = Some (st1, rnd1) ->
     addLoop fuel st1 rnd1 = Some (st2, rnd2) ->
     totalNumbers st2 = 15%Z /\ removeLoop 0 st2 = Some st2) /\
  (forall fuel rnd st rnd',
     EdgeFunction.selectLoop fuel initialSelection rnd = Some (st, rnd') ->
     totalNumbers st = 15%Z /\
     addLoop 0 st rnd' = Some (st, rnd') /\ removeLoop 0 st = Some st).
Proof.
  split.
  - intros fuel rnd st1 rnd1 st2 rnd2 E1 E2.
    apply selectLoop_sound in E1.
    destruct (addLoop_sound _ _ _ _ _ E1 E2) as [_ H15].
    split; [assumption|now apply removeLoop_done].
  - intros fuel rnd st rnd' E.
    destruct (edge_selectLoop fuel initialSelection rnd Selecting_initial)
      as [Hsound _].
    destruct (Hsound st rnd' E) as [_ H15].
    split; [assumption|]. split; [now apply addLoop_done|now apply removeLoop_done].
Qed.
